(* ===== verification/_CoqProject ===== *)
-Q . S2P
Prelude.v
JsValue.v
Json.v
Proc.v
Tasks.v
Http.v
Customers.v
EventLoop.v
Machine.v
Refine.v
View.v
Screen.v
Races.v
Typed.v
Server.v
Complete.v
SalesChart.v
