(* ===== verification/Prelude.v ===== *)
(** * Verification of the farm-inventory dashboard components

    The repository holds two React components.

    - [src/src/Customers.js]: the component [Customers], a create / edit /
      list / delete screen over the REST resource [/api/v1/customers].  It
      keeps ten [useState] cells (the list, four form fields, the record under
      edit, a loading flag, an error message, the page number, a search term),
      one asynchronous function [fetchCustomers] run by a [useEffect] whenever
      [page] changes, three pagination handlers, the asynchronous handlers
      [handleSubmit] and [handleDelete], the handler [handleEdit], and a JSX
      tree that wires some of them to the page.
    - [src/src/SalesChart.js]: the component [SalesChart], which maps the
      sale records it is given to chart points, reverses their order and
      hands them to the elements of a line chart.

    The two components share no state.  Inside [Customers] the handlers
    interact through the [useState] cells and through the network: every
    [await] suspends the running function, and other handlers and other
    network completions run before it resumes.  What each function reads is
    the state of the render that created it (its closure), what it writes
    is the current state.

    ** Files, in dependency order

    - [Prelude] (this file): the scope [js_scope], the tactics and the hint
      database [js] of the development, and the lemmas on integers, lists,
      strings and finite maps that the components share ([related]: two
      maps with the same keys and related values).
    - [JsValue]: the JavaScript values the program handles ([jsval]: JSON
      values and [undefined]), with the operations of the language that the
      source uses on them: truthiness, property read, [Array.isArray],
      [||], [===] against a string literal, and the string conversion of
      template literals.  Value semantics is enough: the source never mutates
      an object or array it shares.
    - [Json]: [JSON.stringify], which builds the body of the requests of
      [handleSubmit], and a reader of quoted strings that undoes its
      escapes.
    - [Proc]: asynchronous functions as finite trees [proc E X A] over a
      signature [E] of effects (an inductive free monad with exceptions):
      [bind], [try_catch], [try_finally], their equations up to the
      equivalence [proc_equiv] with [Proper] instances, the class [Runtime]
      that says how a world performs an effect or suspends on it, the
      function [run] that executes a tree up to its next [await], [exec]
      that runs it with its promises settled as scripted, the weakest
      precondition [wp] of a tree under interference of other tasks, and the
      bound [awaits_le] on its suspensions.
    - [Tasks]: the table of suspended tasks of an event loop, for any
      [Runtime]: [start] calls a function, [resume] continues the task whose
      promise has settled.  The soundness theorems say that a task whose
      function satisfies [wp] for a rely and a guarantee keeps its promise
      in every interleaving with tasks that do as well.
    - [Http]: requests and responses as [fetch] sees them and the [Error]
      values the sources throw.
    - [Customers]: the component's state ([state], one field per [useState]),
      its setters, the effect signature [eff] with its [Runtime] instance
      and the world it acts on, and one definition per function of
      [Customers.js] lines 6-130 and per inline [onChange] handler, each a
      function of the closure's state.
    - [EventLoop]: the component at run time: a configuration holds the
      table of tasks with the world (React state, [localStorage], the trace
      of requests and console lines) and the page seen by the last effect;
      [step] runs one user event or one settled promise to the next
      suspension and then the [useEffect] of lines 56-58; [reachable] is
      its closure from [mount].  An environment ([loop_responsive]) chooses
      which promise settles next and how; [settle_all] runs its choices.
    - [Machine]: the component as a first-order state machine.  A
      function of [Customers.js] can only be suspended at one of its three
      [await]s, so a [phase] stands for each closure of [EventLoop]:
      [Sending] (lines 84, 112), [Listing] (line 28), [Parsing] (line 41),
      with the state of the render the function was called from and the
      caller of [fetchCustomers].  [begin] is the first segment of each
      handler, [advance] the segment after each [await] (one definition
      per block of the source: [begin_list], [after_list_fetch],
      [after_list_json], [list_failed], [list_arrived], [after_mutation],
      [returned]), [effect] the [useEffect], [machine_step] one turn.
    - [Refine]: the relation between the two ([implements], [represents])
      and the simulation of each by the other.
    - [View]: the markup of [Customers.js] lines 132-333 as a tree of
      elements ([render], one definition per block of the JSX, class names
      included), where rendering throws, and what a tree lets the user do
      ([offers_of], [can_do]).
    - [Screen]: the event loop restricted to the events that the tree
      rendered from the current state offers ([on_screen], [screen_step]).
    - [Races]: what overlapping requests do to the list, the spinner and
      the form, in every reachable configuration.
    - [Typed]: complete customer records ([is_customer]) and well typed
      states ([typed_state]), as the data model of the specification
      describes them.
    - [Server]: the server as the component needs it, an interface
      ([RestServer] with its laws [RestServerLaws]) and one server in
      memory ([memory_server]); the closed [system] of machine and server,
      sequential sessions ([session]) and runs in which the user does not
      wait for the answers ([moves]).
    - [Complete]: servers that keep their records complete
      ([CompleteServer]) and the invariant of the closed system
      ([typed_system]).
    - [SalesChart]: [chartData] of [SalesChart.js] lines 14-22, for any
      label function, the label of an en-US host in a fixed time zone, the
      tree of elements of lines 24-50 ([chart_elements], [SalesChart]) and
      which keys of its data the chart library draws ([plotted]).

    ** How the components of the development interact

    [Proc] and [Tasks] know nothing of the component: they are written
    against the class [Runtime].  [Customers] gives the instance
    [eff_runtime]: setters, [localStorage.getItem], [console.error] and
    [preventDefault] are performed at once; [fetch] and [response.json()]
    suspend.  The theorems of [EventLoop] follow from those of [Tasks]
    applied to the [wp] facts that [Customers] proves of each function with
    the tactic [wp_steps].  [EventLoop.step_sound] is stated for any
    guarantee: [EventLoop] applies it to [guar] and every handler,
    [Screen] to [keeps_page] and the handlers that the markup offers.

    [Machine] is written from the same lines of the source as [Customers],
    by cases instead of as trees; [Refine] proves that the two agree, so
    what is proved on one holds of the other.  Properties that need an
    assumption on the answers (complete records in [Typed], a server
    that keeps its promises in [Server]) or a measure on the pending work
    (quiescence) are proved on the machine, where the pending work is
    data; properties of one function under arbitrary interference are
    proved with [wp] on the trees.  [Server] is written against the class
    [RestServerLaws] and [Complete] against [CompleteServer];
    [memory_server_laws] and [memory_complete] show that a server can keep
    both.

    ** What is proved

    - [JsValue], [Json]: decidable equality, the laws of truthiness and of
      the string conversion (injective on integers), when [JSON.stringify]
      yields a text, and that reading a quoted string back gives the
      string that was written ([read_string_escape], by cases on all 256
      code units).
    - [Proc]: [proc_equiv] is an equivalence and a congruence; the monad
      laws and the laws of the handlers up to it; the rules of [wp] for
      [bind], [try_catch], [try_finally] and [await]; [wp] respects
      [proc_equiv]; [run] and [exec] are sound for [wp].
    - [Tasks]: [start_sound], [resume_sound], [resume_ends]; fresh task
      identifiers; the number of suspensions a task has left decreases.
    - [Customers]: for every function its behaviour on every branch as an
      equation between the run and the world expected (success, HTTP error,
      network failure, body that is not JSON, body without a list), the
      request it sends, that it lets no exception escape ([handleEdit] of
      [null] apart), the bounds on its suspensions, the reset of the form
      after any submit, the clamping of the page, that the body of a
      submit reads back as the four strings of the form, and what a
      submit sends after an edit of any record: the members the record
      has, and no others ([edit_then_submit]).
    - [EventLoop]: the invariant [inv] of all reachable configurations (page
      within the pages, [localStorage] unchanged, the only uncaught
      exceptions those of an edit of [null], task identifiers fresh), that
      no task is resumed more than three times ([settles_bound]).
    - [Machine]: the invariant [machine_inv] (fresh task numbers, the
      effect has seen the current page, and the loading flag is off
      whenever no call of [fetchCustomers] is suspended:
      [quiet_not_loading]); every settlement is taken when it fits the
      phase, starts no task and lowers the [weight] of the table, so every
      responsive environment empties the table within three settlements per
      task ([drain_quiesces]).
    - [Refine]: every function of [Customers] implements its phases
      ([handler_begin], [fetchCustomers_begin]); the event loop and the
      machine simulate each other step by step ([step_refines]) and produce
      the same worlds on every sequence of events ([loop_machine_equiv]);
      for every responsive environment, three of its settlements per
      suspended task leave a reachable configuration of the event loop
      without tasks and without spinner ([reachable_quiesces]).
    - [View]: the events the markup offers ([can_do_spec]: the pagination
      handlers are attached to no element), when rendering throws, that
      the tree ignores the error message and the search term, the colours
      and text of the badge, and what a reader sees of a list that
      [fetchCustomers] has fetched: one row per record, with its cells and
      its badge ([listed_rows]; the example of the specification is its
      witness).
    - [Screen]: through the markup the page is always 1, no exception
      escapes, and the effect of lines 56-58 runs once.
    - [Races]: in every reachable configuration, the list shown is the
      body read last, and two bodies can be read in either order
      ([arrival_order_decides]); the spinner goes off when one call of
      [fetchCustomers] ends while the other tasks stay suspended
      ([loading_cleared_early]); a name typed while a submit is under way
      is erased when the submit ends ([late_reset_loses_input]).  The
      witnesses are runs that the screen offers
      ([witness_runs_on_screen]).
    - [Typed]: with complete records from the server and a user who does
      what the markup offers, the state is well typed after every turn
      ([session_typed]), and so is the form of every suspended submit
      ([machine_step_typed_machine]); a well typed state renders and its
      submit body reads back as the form ([typed_state_sound]).
    - [Server]: in every sequential session with a server that keeps the
      two laws, the list on screen is the server's list of the page shown
      after every action ([session_at_rest]); the server in memory keeps
      the laws; create, update and delete on it, the eleventh customer
      that is created but never shown, and a run with overlapping requests
      that ends with a deleted record on screen ([overlap_shows_deleted]).
    - [Complete]: a server that keeps its records complete and a user who
      does what the screen offers keep each other well typed in every run,
      with requests overlapping or not: the state is well typed, the markup
      renders, and the server's records stay complete ([run_typed]); the
      server in memory is such a server.
    - [SalesChart]: the line drawn has one point per record, last record
      first, at the label of its date and the height of its amount
      ([SalesChart_plotted]); length and order of the chart's points for
      any label, when rendering throws, the label of every date of the
      years 0 to 9999 given in the date-only form, by time zone (the
      conversion from days to calendar dates inverts the one from dates to
      days), and the chart of any list of such records for a viewer east of
      UTC ([chartData_iso_dates]; the example of the specification is its
      witness).

    ** Modelling decisions and bounds

    - Numbers are integers ([Z]): page numbers, HTTP status codes and
      identifiers are integers far below 2^53, where JavaScript's doubles are
      exact; other numbers only flow through the program unchanged.
    - A state update is applied when the setter is called.  The source never
      reads a cell after writing it in the same function (it reads its
      closure), and every setter call passes a value, never an updater
      function, so batching cannot be observed except through rendering.
    - Every user event runs the handler created by a render that has seen all
      earlier updates.  In [EventLoop] the events are the calls of the
      handlers with any argument, so [reachable] includes runs that the
      markup does not offer; [Screen] restricts them to what the tree
      offers.  A component whose rendering has thrown offers nothing.
    - Elements are an enumeration of the tags the markup uses; the
      components [Link], [FaSearch], [FiEdit] and [FiTrash2] are leaves.
    - [await fetchCustomers()] runs the function in place: between the end
      of the callee and the continuation of the caller only microtasks run,
      and no event of the model can come between them.
    - [fetch] and [response.json()] reject with [Error] objects (a name and a
      message); which answer arrives, and when, is chosen by the environment.
    - [localStorage.getItem] is total: it yields the stored string or
      [null].  A browser that denies access to the store makes it throw;
      every call of the sources is inside a [try], so the call would end
      in the [catch] block as after a failed request.
    - JSON numbers are integers here, so an [id] or a [totalAmount] with a
      fraction cannot be written; such values only pass through the
      program.
    - The trees need no fuel: every function is a finite tree, and [run],
      [exec] and [wp] are structurally recursive on it.  [awaits_bounds]
      gives the number of suspensions of each, and the budget of three
      resumptions per task in [Tasks.within_budget] follows from it.
    - Fuel appears in three places.  [Refine.implements] is recursive on
      the [rank] of the phase (the awaits still ahead: 3, 2, 1), which each
      [advance] lowers by one ([advance_rank]).  [settle_all] and
      [drain_events] take a number of turns: each settlement lowers the
      [weight] of the table by one at least ([settle_weight]) and the
      weight is three per task at most ([total_bound]), so three turns
      per suspended task are enough ([settle_all_drains],
      [drain_events_spec]).  [serve] is called with
      fuel 2 at the mount and 3 after a user event: in a sequential session
      one task is pending at most, a list request needs two deliveries and
      a submit or delete three ([serve_listing], [serve_sending]).
    - A phase carries the state of the render its function was called
      from, and [Delete] the argument of [handleDelete].  [advance] uses
      them where the source does (the refetch of lines 97 and 119 asks for
      the page of that render); [request_of] uses them to say which request
      a task awaits.
    - In [Server] a request is handled by the server at the moment its
      answer is delivered, and no answer is lost.  This fixes nothing for a
      sequential session, where one request is under way at most; in
      [moves] it means that the server sees the requests in the order in
      which their answers arrive.
    - Of the chart library only the reading of [data] through the
      [dataKey]s of [XAxis] and [Line] is modelled ([series]); the other
      properties of the elements are carried as they are written.
    - Dates: the en-US label parses the date-only form [YYYY-MM-DD] only
      and takes the time zone as a fixed offset (no daylight saving).

    ** Not modelled

    What the style sheet makes of the class names, the icons and the
    router link behind their elements, how the chart library draws (scales,
    ticks, tooltips, animation), React's reconciliation (keys, focus,
    controlled inputs), and the mechanics of authentication (the token is
    whatever the store holds): none of these is in the sources.  The
    server is not in the repository either: it is an assumption in
    [Server] and any environment everywhere else.  The import and export
    lines of the two files have no counterpart: the names they bring in
    appear as the tags of the trees. *)

From stdpp Require Export base tactics option list strings.
From stdpp Require Import pretty gmap.
From Stdlib Require Export ZArith Lia.

#[global] Open Scope Z_scope.

(** ** The scope of the development's notations *)

Declare Scope js_scope.
Delimit Scope js_scope with js.
#[global] Open Scope js_scope.

(** ** Integers in a closed range

    [goToPage]'s guard and the [ok] flag of a response are both a test
    [lo <= x && x <= hi]. *)

Definition between (lo hi x : Z) : bool := (lo <=? x) && (x <=? hi).

Notation "lo '≤?' x '≤?' hi" := (between lo hi x)
  (at level 70, x at next level, no associativity) : js_scope.

(** The decimal text of an integer, as a template literal prints it. *)
Definition show_Z (n : Z) : string := pretty n.

(** Two finite maps with the same keys and related values. *)
Definition related `{Countable K} {A B} (R : A → B → Prop)
    (ma : gmap K A) (mb : gmap K B) : Prop :=
  ∀ i, option_Forall2 R (ma !! i) (mb !! i).

Lemma between_spec lo hi x : (lo ≤? x ≤? hi) = true ↔ lo ≤ x ≤ hi.
Proof. unfold between. rewrite andb_true_iff, !Z.leb_le. done. Qed.

Lemma between_false lo hi x : (lo ≤? x ≤? hi) = false ↔ x < lo ∨ hi < x.
Proof.
  unfold between. rewrite andb_false_iff, !Z.leb_gt. done.
Qed.

Lemma between_reflect lo hi x : reflect (lo ≤ x ≤ hi) (lo ≤? x ≤? hi).
Proof. apply iff_reflect. symmetry. apply between_spec. Qed.

(** ** Decimal text of an integer *)

#[global] Instance show_Z_inj : Inj (=) (=) show_Z.
Proof. unfold show_Z. apply _. Qed.

(** ** Strings *)

Lemma append_inj_r (p s1 s2 : string) : p +:+ s1 = p +:+ s2 → s1 = s2.
Proof. apply String.app_inj. Qed.

Lemma append_assoc (s1 s2 s3 : string) :
  (s1 +:+ s2) +:+ s3 = s1 +:+ (s2 +:+ s3).
Proof.
  induction s1 as [|c s1 IH]; [done|].
  change (String c ((s1 +:+ s2) +:+ s3) = String c (s1 +:+ (s2 +:+ s3))).
  by rewrite IH.
Qed.

Lemma append_cons c (s1 s2 : string) :
  String c s1 +:+ s2 = String c (s1 +:+ s2).
Proof. done. Qed.

Lemma append_length (s1 s2 : string) :
  String.length (s1 +:+ s2) = (String.length s1 + String.length s2)%nat.
Proof.
  induction s1 as [|c s1 IH]; [done|]. rewrite append_cons. simpl. by rewrite IH.
Qed.

(** A suffix can be cancelled. *)
Lemma append_inj_l (p s1 s2 : string) : s1 +:+ p = s2 +:+ p → s1 = s2.
Proof.
  revert s2. induction s1 as [|c s1 IH]; intros [|c' s2] Heq; [done|..].
  - apply (f_equal String.length) in Heq.
    rewrite !append_length in Heq. simpl in Heq. lia.
  - apply (f_equal String.length) in Heq.
    rewrite !append_length in Heq. simpl in Heq. lia.
  - rewrite !append_cons in Heq. injection Heq as -> Heq. f_equal. by apply IH.
Qed.

Lemma append_empty_r (s : string) : s +:+ "" = s.
Proof.
  induction s as [|c s IH]; [done|].
  change (String c (s +:+ "") = String c s). by rewrite IH.
Qed.

(** ** Lists *)

Lemma reverse_fmap_lookup {A B} (f : A → B) (l : list A) (i : nat) :
  (i < length l)%nat →
  reverse (f <$> l) !! i = f <$> l !! (length l - S i)%nat.
Proof.
  intros Hi. rewrite reverse_lookup by (by rewrite length_fmap).
  by rewrite length_fmap, list_lookup_fmap.
Qed.

Lemma Forall_reverse_fmap {A B} (P : B → Prop) (f : A → B) (l : list A) :
  Forall P (reverse (f <$> l)) ↔ Forall (P ∘ f) l.
Proof. by rewrite Forall_reverse, Forall_fmap. Qed.

(** ** Maps related key by key *)

Section related.
Context `{Countable K} {A B : Type} (R : A → B → Prop).
Implicit Types (ma : gmap K A) (mb : gmap K B).

Lemma related_empty : related R (∅ : gmap K A) ∅.
Proof. intros i. rewrite !lookup_empty. constructor. Qed.

Lemma related_insert ma mb k x y :
  related R ma mb → R x y → related R (<[k:=x]> ma) (<[k:=y]> mb).
Proof.
  intros Hm Hxy i. destruct (decide (k = i)) as [->|Hne].
  - rewrite !lookup_insert_eq. by constructor.
  - rewrite !lookup_insert_ne by done. apply Hm.
Qed.

Lemma related_delete ma mb k :
  related R ma mb → related R (delete k ma) (delete k mb).
Proof.
  intros Hm i. destruct (decide (k = i)) as [->|Hne].
  - rewrite !lookup_delete_eq. constructor.
  - rewrite !lookup_delete_ne by done. apply Hm.
Qed.

(** Related maps are empty together. *)
Lemma related_empty_iff ma mb : related R ma mb → ma = ∅ ↔ mb = ∅.
Proof.
  intros Hm. split; intros ->; apply map_empty; intros i;
    specialize (Hm i); rewrite lookup_empty in Hm; by inversion Hm.
Qed.

Lemma related_size ma mb : related R ma mb → size ma = size mb.
Proof.
  intros Hm. rewrite <- !size_dom. f_equal. apply set_eq. intros i.
  rewrite !elem_of_dom. specialize (Hm i).
  split; intros [? Hi]; rewrite Hi in Hm; inversion Hm; eauto.
Qed.

End related.

(** ** Tactics *)

(** [case_test]: split on the boolean test that guards the goal's [if],
    keeping the test's meaning when it is a range test or a comparison. *)
Ltac case_test :=
  match goal with
  | |- context [if ?lo ≤? ?x ≤? ?hi then _ else _] =>
      destruct (between_reflect lo hi x)
  | |- context [if ?a <? ?b then _ else _] => destruct (Z.ltb_spec a b)
  | |- context [if ?a >? ?b then _ else _] =>
      rewrite (Z.gtb_ltb a b); destruct (Z.ltb_spec b a)
  | |- context [if ?a <=? ?b then _ else _] => destruct (Z.leb_spec a b)
  | |- context [if ?b then _ else _] => destruct b eqn:?
  end.

(** ** The hint database of the development *)

Create HintDb js discriminated.
Create Rewrite HintDb js.

#[export] Hint Resolve between_spec between_false : js.
#[export] Hint Rewrite append_empty_r append_assoc : js.
