(* ===== verification/JsValue.v ===== *)
(** * JavaScript values and the operations the components use on them

    [jsval] holds what a JSON body parses to, plus [undefined].  The
    operations are those of the language that [Customers.js] and
    [SalesChart.js] apply to such values: the truthiness test of [?:], [&&]
    and [||], the property read [v.k], [Array.isArray], [===] against a
    string literal, and the string conversion of a template literal
    [`${v}`].

    Objects are association lists in insertion order; an object that
    [JSON.parse] or an object literal builds has no key twice
    ([wf_value]).  The properties the sources read ([content], [id],
    [name], [email], [phoneNumber], [customerType], [date], [totalAmount])
    are on no built-in prototype of a JSON value, so a read of one of them
    from a string, number, boolean or array gives [undefined]. *)

From S2P Require Import Prelude.

#[local] Set Warnings "-register-all".

Inductive jsval : Type :=
| JUndefined
| JNull
| JBool (b : bool)
| JNum (n : Z)
| JStr (s : string)
| JArr (items : list jsval)
| JObj (fields : list (string * jsval)).

(** The induction principle that reaches below arrays and objects. *)
Section jsval_nested_ind.
Context (P : jsval → Prop).
Context (Hundef : P JUndefined) (Hnull : P JNull)
  (Hbool : ∀ b, P (JBool b)) (Hnum : ∀ n, P (JNum n))
  (Hstr : ∀ s, P (JStr s))
  (Harr : ∀ l, Forall P l → P (JArr l))
  (Hobj : ∀ fs, Forall (λ kv, P kv.2) fs → P (JObj fs)).

Fixpoint jsval_nested_ind (v : jsval) : P v :=
  match v with
  | JUndefined => Hundef
  | JNull => Hnull
  | JBool b => Hbool b
  | JNum n => Hnum n
  | JStr s => Hstr s
  | JArr l =>
      Harr l ((fix go l : Forall P l :=
                 match l with
                 | [] => Forall_nil_2 _
                 | x :: l' => Forall_cons_2 _ _ _ (jsval_nested_ind x) (go l')
                 end) l)
  | JObj fs =>
      Hobj fs ((fix go fs : Forall (λ kv, P kv.2) fs :=
                  match fs with
                  | [] => Forall_nil_2 _
                  | kv :: fs' =>
                      Forall_cons_2 (λ kv, P kv.2) _ _
                        (jsval_nested_ind kv.2) (go fs')
                  end) fs)
  end.
End jsval_nested_ind.

#[global] Instance jsval_eq_dec : EqDecision jsval.
Proof.
  unfold EqDecision, Decision. fix IH 1. intros x y. decide equality.
  - apply bool_eq_dec.
  - apply Z.eq_dec.
  - apply String.eq_dec.
  - apply (list_eq_dec (dec:=IH)).
  - apply (list_eq_dec
             (dec:=prod_eq_dec (EqDecision0:=String.eq_dec) (EqDecision1:=IH))).
Defined.

#[global] Instance jsval_inhabited : Inhabited jsval := populate JUndefined.

(** ** Truthiness: the test of [c ? a : b], [a && b] and [a || b] *)

Definition truthy (v : jsval) : bool :=
  match v with
  | JUndefined | JNull => false
  | JBool b => b
  | JNum n => negb (n =? 0)
  | JStr s => negb (String.eqb s "")
  | JArr _ | JObj _ => true
  end.

(** [a || b] *)
Definition js_or (a b : jsval) : jsval := if truthy a then a else b.

(** [a && b] *)
Definition js_and (a b : jsval) : jsval := if truthy a then b else a.

(** ** Property read [v.k]

    [None] is the [TypeError] of a read from [null] or [undefined]. *)

Fixpoint assoc (k : string) (fs : list (string * jsval)) : option jsval :=
  match fs with
  | [] => None
  | (k', v) :: fs' => if decide (k' = k) then Some v else assoc k fs'
  end.

Definition get_prop (v : jsval) (k : string) : option jsval :=
  match v with
  | JUndefined | JNull => None
  | JObj fs => Some (default JUndefined (assoc k fs))
  | JBool _ | JNum _ | JStr _ | JArr _ => Some JUndefined
  end.

(** A read that cannot fail because the value is known not to be nullish. *)
Definition get_field (v : jsval) (k : string) : jsval :=
  default JUndefined (get_prop v k).

Definition nullish (v : jsval) : bool :=
  match v with JUndefined | JNull => true | _ => false end.

(** ** [Array.isArray] and [===] against a string literal *)

Definition Array_isArray (v : jsval) : bool :=
  match v with JArr _ => true | _ => false end.

Definition strict_eq_str (v : jsval) (s : string) : bool :=
  match v with JStr s' => bool_decide (s' = s) | _ => false end.

(** ** String conversion of a template literal

    An array prints its items separated by commas, [null] and [undefined]
    items as nothing; an object prints as [[object Object]]. *)

Fixpoint to_string (v : jsval) : string :=
  match v with
  | JUndefined => "undefined"
  | JNull => "null"
  | JBool true => "true"
  | JBool false => "false"
  | JNum n => show_Z n
  | JStr s => s
  | JArr l =>
      (fix join (l : list jsval) : string :=
         match l with
         | [] => ""
         | x :: l' =>
             (if nullish x then "" else to_string x)
             +:+ match l' with [] => "" | _ => "," +:+ join l' end
         end) l
  | JObj _ => "[object Object]"
  end.

(** ** Well-formed values: what [JSON.parse] can return

    No [undefined] anywhere, and no key twice in an object. *)

Fixpoint wf_value (v : jsval) : bool :=
  match v with
  | JUndefined => false
  | JNull | JBool _ | JNum _ | JStr _ => true
  | JArr l => forallb wf_value l
  | JObj fs =>
      bool_decide (NoDup fs.*1)
      && (fix go (fs : list (string * jsval)) : bool :=
            match fs with
            | [] => true
            | kv :: fs' => wf_value kv.2 && go fs'
            end) fs
  end.

(** ** Laws *)

Lemma truthy_js_or a b : truthy (js_or a b) = truthy a || truthy b.
Proof. unfold js_or. by destruct (truthy a) eqn:Ha; rewrite ?Ha. Qed.

Lemma truthy_js_and a b : truthy (js_and a b) = truthy a && truthy b.
Proof. unfold js_and. by destruct (truthy a) eqn:Ha; rewrite ?Ha. Qed.

Lemma js_or_truthy a b : truthy a = true → js_or a b = a.
Proof. unfold js_or. by intros ->. Qed.

Lemma js_or_falsy a b : truthy a = false → js_or a b = b.
Proof. unfold js_or. by intros ->. Qed.

Lemma truthy_not_nullish v : truthy v = true → nullish v = false.
Proof. by destruct v. Qed.

Lemma truthy_str s : truthy (JStr s) = true ↔ s ≠ "".
Proof.
  simpl. rewrite negb_true_iff. destruct (String.eqb_spec s ""); naive_solver.
Qed.

Lemma get_prop_None v k : get_prop v k = None ↔ nullish v = true.
Proof. destruct v; simpl; naive_solver. Qed.

Lemma get_prop_is_Some v k : nullish v = false → is_Some (get_prop v k).
Proof. destruct v; simpl; eauto; done. Qed.

Lemma get_prop_field v k : nullish v = false → get_prop v k = Some (get_field v k).
Proof. unfold get_field. by destruct v. Qed.

Lemma get_field_obj fs k : get_field (JObj fs) k = default JUndefined (assoc k fs).
Proof. done. Qed.

Lemma assoc_Some_elem k fs v : assoc k fs = Some v → (k, v) ∈ fs.
Proof.
  induction fs as [|[k' v'] fs IH]; simpl; [done|].
  case_decide; [intros [= ->]; subst; left | right; auto].
Qed.

Lemma assoc_NoDup k fs v : NoDup fs.*1 → (k, v) ∈ fs → assoc k fs = Some v.
Proof.
  induction fs as [|[k' v'] fs IH]; simpl; [by intros _ ?%elem_of_nil|].
  intros [Hk Hnd]%NoDup_cons [[= -> ->]|Hin]%elem_of_cons.
  - by rewrite decide_True.
  - rewrite decide_False; [auto|].
    intros ->. apply Hk. apply list_elem_of_fmap. by exists (k, v).
Qed.

Lemma Array_isArray_spec v : Array_isArray v = true ↔ ∃ l, v = JArr l.
Proof. destruct v; simpl; split; first [done|by intros [? ?]|by eauto]. Qed.

Lemma strict_eq_str_spec v s : strict_eq_str v s = true ↔ v = JStr s.
Proof.
  destruct v; simpl; try naive_solver.
  rewrite bool_decide_eq_true. naive_solver.
Qed.

Lemma to_string_num_inj a b : to_string (JNum a) = to_string (JNum b) → a = b.
Proof. simpl. apply (inj show_Z). Qed.

Lemma to_string_str s : to_string (JStr s) = s.
Proof. done. Qed.

Lemma wf_value_arr l : wf_value (JArr l) = true ↔ Forall (λ v, wf_value v = true) l.
Proof.
  simpl. rewrite forallb_forall, Forall_forall.
  by setoid_rewrite list_elem_of_In.
Qed.

#[export] Hint Rewrite truthy_js_or truthy_js_and to_string_str : js.
#[export] Hint Resolve truthy_not_nullish get_prop_is_Some : js.
