(* ===== verification/Json.v ===== *)
(** * [JSON.stringify]

    The text that [JSON.stringify] produces for a [jsval], as the body of
    the requests of [handleSubmit] needs it: members in insertion order,
    no white space, strings quoted with the escapes of the language
    standard ([QuoteJSONString]), members whose value is [undefined] left
    out of an object, [undefined] items of an array printed as [null].
    At top level [undefined] gives no text ([None]).

    Strings are byte strings holding UTF-8 text: bytes from 128 up pass
    through unchanged, as the code points they encode do. *)

From Stdlib Require Import Ascii.
From S2P Require Import Prelude JsValue.

(** The double quote, which a string literal of this file cannot hold. *)
Definition dquote : ascii := "034"%char.

Definition hex_digit (n : N) : ascii :=
  match n with
  | 0 => "0" | 1 => "1" | 2 => "2" | 3 => "3" | 4 => "4" | 5 => "5"
  | 6 => "6" | 7 => "7" | 8 => "8" | 9 => "9" | 10 => "a" | 11 => "b"
  | 12 => "c" | 13 => "d" | 14 => "e" | _ => "f"
  end%N%char.

(** One character inside a quoted string. *)
Definition escape_char (c : ascii) : string :=
  let n := N_of_ascii c in
  if decide (c = dquote) then String "\" (String dquote "")
  else if decide (c = "\"%char) then "\\"
  else if decide (n = 8%N) then "\b"
  else if decide (n = 12%N) then "\f"
  else if decide (n = 10%N) then "\n"
  else if decide (n = 13%N) then "\r"
  else if decide (n = 9%N) then "\t"
  else if decide (n < 32)%N then
    "\u00" +:+ String (hex_digit (n / 16)) (String (hex_digit (n mod 16)) "")
  else String c "".

Fixpoint escape (s : string) : string :=
  match s with
  | "" => ""
  | String c s' => escape_char c +:+ escape s'
  end.

Definition quote (s : string) : string :=
  String dquote (escape s +:+ String dquote "").

Fixpoint join_comma (l : list string) : string :=
  match l with
  | [] => ""
  | [s] => s
  | s :: l' => s +:+ "," +:+ join_comma l'
  end.

Fixpoint JSON_stringify (v : jsval) : option string :=
  match v with
  | JUndefined => None
  | JNull => Some "null"
  | JBool true => Some "true"
  | JBool false => Some "false"
  | JNum n => Some (show_Z n)
  | JStr s => Some (quote s)
  | JArr l =>
      Some ("[" +:+ join_comma (map (λ x, default "null" (JSON_stringify x)) l)
            +:+ "]")
  | JObj fs =>
      Some ("{" +:+
            join_comma
              (omap (λ kv, (λ t, quote kv.1 +:+ ":" +:+ t) <$> JSON_stringify kv.2)
                    fs) +:+ "}")
  end.

(** ** Reading a quoted string back

    [read_string] reads the inside of a quoted string up to the closing
    quote and undoes the escapes (the two-character escapes and [\u00XX];
    other code units do not occur in what [escape] writes).  It yields the
    string and the text after the closing quote. *)

Definition unhex (c : ascii) : option N :=
  let n := N_of_ascii c in
  if decide (48 ≤ n ≤ 57)%N then Some (n - 48)%N
  else if decide (97 ≤ n ≤ 102)%N then Some (n - 87)%N
  else None.

Definition simple_escape (e : ascii) : option ascii :=
  if decide (e = dquote) then Some dquote
  else if decide (e = "\"%char) then Some "\"%char
  else if decide (e = "b"%char) then Some (ascii_of_N 8)
  else if decide (e = "f"%char) then Some (ascii_of_N 12)
  else if decide (e = "n"%char) then Some (ascii_of_N 10)
  else if decide (e = "r"%char) then Some (ascii_of_N 13)
  else if decide (e = "t"%char) then Some (ascii_of_N 9)
  else None.

Definition push (c : ascii) (r : option (string * string))
    : option (string * string) :=
  '(t, rest) ← r; Some (String c t, rest).

Fixpoint read_string (s : string) : option (string * string) :=
  match s with
  | "" => None
  | String c s1 =>
      if decide (c = dquote) then Some ("", s1)
      else if decide (c = "\"%char) then
        match s1 with
        | String "u" (String "0" (String "0" (String h1 (String h2 s2)))) =>
            a ← unhex h1; b ← unhex h2;
            push (ascii_of_N (16 * a + b)) (read_string s2)
        | String e s2 => ch ← simple_escape e; push ch (read_string s2)
        | "" => None
        end
      else push c (read_string s1)
  end.

(** A quoted string at the head of a text. *)
Definition read_quoted (s : string) : option (string * string) :=
  match s with
  | String c s1 => if decide (c = dquote) then read_string s1 else None
  | "" => None
  end.

(** The text [p] at the head of a text. *)
Fixpoint expect (p s : string) : option string :=
  match p, s with
  | "", _ => Some s
  | String a p', String b s' => if decide (a = b) then expect p' s' else None
  | _, "" => None
  end.

(** ** Facts *)

Lemma JSON_stringify_is_Some v : v ≠ JUndefined → is_Some (JSON_stringify v).
Proof. destruct v as [| |[]| | | |]; simpl; eauto; done. Qed.

Lemma JSON_stringify_None v : JSON_stringify v = None ↔ v = JUndefined.
Proof. destruct v as [| |[]| | | |]; simpl; split; done. Qed.

Lemma JSON_stringify_obj fs : is_Some (JSON_stringify (JObj fs)).
Proof. simpl. eauto. Qed.

Lemma escape_app s1 s2 : escape (s1 +:+ s2) = escape s1 +:+ escape s2.
Proof.
  induction s1 as [|c s1 IH]; [done|].
  change (escape_char c +:+ escape (s1 +:+ s2)
          = (escape_char c +:+ escape s1) +:+ escape s2).
  by rewrite IH, append_assoc.
Qed.

(** *** [read_string] undoes [escape] *)

Lemma read_string_escape_char c t :
  read_string (escape_char c +:+ t) = push c (read_string t).
Proof. by destruct c as [[] [] [] [] [] [] [] []]. Qed.

Lemma read_string_escape s rest :
  read_string (escape s +:+ String dquote rest) = Some (s, rest).
Proof.
  induction s as [|c s IH]; [done|].
  change (escape (String c s)) with (escape_char c +:+ escape s).
  by rewrite append_assoc, read_string_escape_char, IH.
Qed.

Lemma read_quoted_quote s rest : read_quoted (quote s +:+ rest) = Some (s, rest).
Proof.
  unfold quote.
  change (read_string ((escape s +:+ String dquote "") +:+ rest) = Some (s, rest)).
  rewrite append_assoc. apply read_string_escape.
Qed.

Lemma quote_inj : Inj (=) (=) quote.
Proof.
  intros s1 s2 Hq.
  pose proof (read_quoted_quote s1 "") as H1.
  rewrite Hq, read_quoted_quote in H1. congruence.
Qed.

Lemma expect_app p s : expect p (p +:+ s) = Some s.
Proof.
  induction p as [|a p IH]; [by destruct s|].
  change (expect (String a p) (String a (p +:+ s)) = Some s).
  simpl. by rewrite decide_True.
Qed.

Lemma JSON_stringify_str s : JSON_stringify (JStr s) = Some (quote s).
Proof. done. Qed.

(** The text of an object whose members are all strings. *)
Lemma JSON_stringify_strings (fs : list (string * string)) :
  JSON_stringify (JObj (prod_map id JStr <$> fs))
  = Some ("{" +:+ join_comma ((λ kv, quote kv.1 +:+ ":" +:+ quote kv.2) <$> fs)
          +:+ "}").
Proof.
  simpl. do 4 f_equal. induction fs as [|[k v] fs IH]; [done|].
  rewrite !fmap_cons. simpl. by f_equal.
Qed.

(** Members whose value is [undefined] leave no trace in the text of an
    object. *)
Lemma JSON_stringify_defined fs :
  JSON_stringify (JObj fs)
  = JSON_stringify (JObj (filter (λ kv, kv.2 ≠ JUndefined) fs)).
Proof.
  simpl. do 4 f_equal. induction fs as [|[k v] fs IH]; [done|].
  rewrite filter_cons. cbn [omap list_omap snd fst].
  destruct (JSON_stringify v) as [txt|] eqn:Hv.
  - rewrite decide_True by (by intros ->). cbn [omap list_omap snd fst].
    rewrite Hv. simpl. by rewrite IH.
  - apply JSON_stringify_None in Hv as ->. rewrite decide_False by auto.
    simpl. apply IH.
Qed.

(** Clients reason about the text through the lemmas above. *)
#[global] Arguments JSON_stringify : simpl never.

(** The body of a create request for a customer named [Ann "A" O'Hara]. *)
Example JSON_stringify_payload :
  JSON_stringify
    (JObj [("name", JStr ("Ann " +:+ String dquote ("A" +:+ String dquote " O'Hara")));
           ("email", JStr "ann@x.com"); ("phoneNumber", JUndefined);
           ("customerType", JStr "GROUP")])
  = Some ("{" +:+ quote "name" +:+ ":" +:+
          String dquote ("Ann \" +:+ String dquote ("A\" +:+ String dquote
            (" O'Hara" +:+ String dquote ""))) +:+ "," +:+
          quote "email" +:+ ":" +:+ quote "ann@x.com" +:+ "," +:+
          quote "customerType" +:+ ":" +:+ quote "GROUP" +:+ "}").
Proof. vm_compute. reflexivity. Qed.
