(* ===== verification/Proc.v ===== *)
(** * Asynchronous functions as finite effect trees

    An [async] function of the sources is a tree [proc E X A]: it returns
    ([Ret]), throws ([Throw]) or performs an effect of the signature [E]
    and goes on with the effect's answer ([Vis]).  The sources have no loop
    and no recursion, so the trees are finite and every function on them
    is structurally recursive.

    - [bind] is sequencing, [try_catch] and [try_finally] are the
      [try { } catch (err) { } finally { }] statement, [await] is the
      [await] of a promise that an effect returns: a rejected promise
      throws its reason.
    - [proc_equiv] identifies trees that perform the same effects and
      differ only in how their continuations are written; the
      combinators respect it ([Proper]) and satisfy the monad and handler
      laws up to it.
    - A [Runtime] says which effects a world performs at once and which
      suspend the function until the environment answers.  [run] executes
      a tree up to its next suspension, [exec] feeds it a list of answers
      with nothing else running in between.
    - [wp R G p Q Qx w0 w] is the weakest precondition of running [p] to
      its end from the world [w] of a segment that started in [w0], while
      other tasks change the world within the rely [R] at every
      suspension: every segment of [p] (the stretch between two
      suspensions, which nothing interrupts) changes the world within the
      guarantee [G], and [p] returns in [Q] or throws in [Qx].
    - [awaits_le n p]: [p] suspends at most [n] times. *)

From S2P Require Import Prelude.

Set Default Proof Using "Type*".

(** ** Trees *)

Section proc.
Context {E : Type → Type} {X : Type}.

Inductive proc (A : Type) : Type :=
| Ret (a : A)
| Throw (x : X)
| Vis {T : Type} (e : E T) (k : T → proc A).

#[global] Arguments Ret {A} a.
#[global] Arguments Throw {A} x.
#[global] Arguments Vis {A T} e k.

Fixpoint bind {A B} (p : proc A) (f : A → proc B) : proc B :=
  match p with
  | Ret a => f a
  | Throw x => Throw x
  | Vis e k => Vis e (λ t, bind (k t) f)
  end.

(** [try { p } catch (x) { h x }] *)
Fixpoint try_catch {A} (p : proc A) (h : X → proc A) : proc A :=
  match p with
  | Ret a => Ret a
  | Throw x => h x
  | Vis e k => Vis e (λ t, try_catch (k t) h)
  end.

(** [try { p } finally { f }]: [f] runs on both exits; if [f] itself
    throws, that exception replaces the outcome of [p]. *)
Fixpoint try_finally {A} (p : proc A) (f : proc unit) : proc A :=
  match p with
  | Ret a => bind f (λ _, Ret a)
  | Throw x => bind f (λ _, Throw x)
  | Vis e k => Vis e (λ t, try_finally (k t) f)
  end.

(** An effect performed for its answer. *)
Definition perform {T} (e : E T) : proc T := Vis e Ret.

(** The state a promise settles in. *)
Inductive settled (A : Type) : Type :=
| Fulfilled (a : A)
| Rejected (x : X).

#[global] Arguments Fulfilled {A} a.
#[global] Arguments Rejected {A} x.

Definition settle {A} (r : settled A) : proc A :=
  match r with Fulfilled a => Ret a | Rejected x => Throw x end.

(** [await e] *)
Definition await {A} (e : E (settled A)) : proc A := Vis e settle.

#[global] Instance proc_ret : MRet proc := @Ret.
#[global] Instance proc_bind : MBind proc := λ A B f p, bind p f.
#[global] Instance proc_throw : MThrow X proc := @Throw.

(** Trees that perform the same effects and continue alike. *)
Fixpoint proc_equiv {A} (p q : proc A) : Prop :=
  match p with
  | Ret a => q = Ret a
  | Throw x => q = Throw x
  | Vis e k => ∃ k', q = Vis e k' ∧ ∀ t, proc_equiv (k t) (k' t)
  end.

#[global] Instance proc_equiv_instance A : Equiv (proc A) := proc_equiv.

End proc.

#[global] Arguments proc : clear implicits.
#[global] Arguments settled : clear implicits.

(** ** Running a tree in a world

    [sync e] is [Some f] when the world performs [e] at once ([f] gives the
    answer and the new world) and [None] when [e] suspends the function.
    [issue e] is what the world records when a suspending effect is
    started; [deliver e ans] reads the environment's answer [ans] as an
    answer to [e], if it is one. *)

Class Runtime (E : Type → Type) (W Ans : Type) := {
  sync : ∀ {T}, E T → option (W → T * W);
  issue : ∀ {T}, E T → W → W;
  deliver : ∀ {T}, E T → Ans → option T;
}.

#[global] Hint Mode Runtime ! - - : typeclass_instances.

Section run.
Context {E : Type → Type} {X W Ans : Type} `{!Runtime E W Ans}.

(** How a run up to the next suspension ends. *)
Inductive outcome (A : Type) : Type :=
| Done (a : A)
| Failed (x : X)
| Blocked {T : Type} (e : E T) (k : T → proc E X A).

#[global] Arguments Done {A} a.
#[global] Arguments Failed {A} x.
#[global] Arguments Blocked {A T} e k.

Fixpoint run {A} (p : proc E X A) (w : W) : W * outcome A :=
  match p with
  | Ret a => (w, Done a)
  | Throw x => (w, Failed x)
  | Vis e k =>
      match sync e with
      | Some f => run (k (f w).1) (f w).2
      | None => (issue e w, Blocked e k)
      end
  end.

(** The run of [p] that receives the answers of the list in order, each
    as soon as [p] suspends.  It stops at a suspension when the list is
    used up or its next answer is none to the effect awaited. *)
Fixpoint exec {A} (answers : list Ans) (p : proc E X A) (w : W)
    : W * outcome A :=
  match answers with
  | [] => run p w
  | ans :: rest =>
      match run p w with
      | (w', Blocked e k) =>
          match deliver e ans with
          | Some t => exec rest (k t) w'
          | None => (w', Blocked e k)
          end
      | r => r
      end
  end.

Fixpoint wp {A} (R G : relation W) (p : proc E X A)
    (Q : A → W → W → Prop) (Qx : X → W → W → Prop) (w0 w : W) : Prop :=
  match p with
  | Ret a => Q a w0 w
  | Throw x => Qx x w0 w
  | Vis e k =>
      match sync e with
      | Some f => wp R G (k (f w).1) Q Qx w0 (f w).2
      | None =>
          G w0 (issue e w) ∧
          ∀ ans t w', deliver e ans = Some t → R (issue e w) w' →
                      wp R G (k t) Q Qx w' w'
      end
  end.

Fixpoint awaits_le {A} (n : nat) (p : proc E X A) : Prop :=
  match p with
  | Ret _ | Throw _ => True
  | Vis e k =>
      match sync e with
      | Some _ => ∀ t, awaits_le n (k t)
      | None =>
          match n with
          | O => False
          | S m => ∀ t, awaits_le m (k t)
          end
      end
  end.

End run.

#[global] Arguments outcome : clear implicits.

(** ** Notation *)

Notation "'try:' p 'catch:' x '=>' h" := (try_catch p (λ x, h))
  (at level 10, p at level 100, x name, h at level 200,
   format "'[v' 'try:'  p '/' 'catch:'  x  '=>'  h ']'") : js_scope.

Notation "'try:' p 'finally:' f" := (try_finally p f)
  (at level 10, p at level 100, f at level 200,
   format "'[v' 'try:'  p '/' 'finally:'  f ']'") : js_scope.

(** ** The equivalence is a congruence *)

Section proc_equiv.
Context {E : Type → Type} {X : Type}.
#[local] Abbreviation proc := (proc E X).

Lemma proc_equiv_Vis {A T} (e : E T) (k k' : T → proc A) :
  (∀ t, k t ≡ k' t) → Vis e k ≡ Vis e k'.
Proof. intros Hk. exists k'. eauto. Qed.

Lemma proc_equiv_Ret_inv {A} (a : A) (q : proc A) : Ret a ≡ q → q = Ret a.
Proof. done. Qed.

Lemma proc_equiv_Throw_inv {A} x (q : proc A) : Throw x ≡ q → q = Throw x.
Proof. done. Qed.

Lemma proc_equiv_Vis_inv {A T} (e : E T) (k : T → proc A) q :
  Vis e k ≡ q → ∃ k', q = Vis e k' ∧ ∀ t, k t ≡ k' t.
Proof. done. Qed.

End proc_equiv.

(** Case analysis on the left tree of an equivalence in the context. *)
Ltac proc_equiv_inv H :=
  first
    [ apply proc_equiv_Ret_inv in H as ->
    | apply proc_equiv_Throw_inv in H as ->
    | let k := fresh "k" in
      let Hk := fresh "Hk" in
      apply proc_equiv_Vis_inv in H as (k & -> & Hk) ].

Section proc_laws.
Context {E : Type → Type} {X : Type}.
#[local] Abbreviation proc := (proc E X).

#[global] Instance proc_equiv_refl A : Reflexive (≡@{proc A}).
Proof. intros p. induction p; simpl; eauto using proc_equiv_Vis. Qed.

#[global] Instance proc_equiv_sym A : Symmetric (≡@{proc A}).
Proof.
  intros p. induction p as [| |T e k IH]; intros q Hq; proc_equiv_inv Hq.
  1,2: done.
  apply proc_equiv_Vis. intros t. by apply IH.
Qed.

#[global] Instance proc_equiv_trans A : Transitive (≡@{proc A}).
Proof.
  intros p. induction p as [| |T e k IH]; intros q r Hq Hr;
    proc_equiv_inv Hq; [done..|].
  proc_equiv_inv Hr. apply proc_equiv_Vis. intros t. eapply IH; eauto.
Qed.

#[global] Instance proc_equivalence A : Equivalence (≡@{proc A}) := {}.

#[global] Instance bind_proper A B :
  Proper ((≡) ==> pointwise_relation A (≡) ==> (≡)) (@bind E X A B).
Proof.
  intros p. induction p as [| |T e k IH]; intros q Hq f g Hfg;
    proc_equiv_inv Hq; simpl; [apply Hfg | done |].
  apply proc_equiv_Vis. intros t. by apply IH.
Qed.

#[global] Instance try_catch_proper A :
  Proper ((≡) ==> pointwise_relation X (≡) ==> (≡)) (@try_catch E X A).
Proof.
  intros p. induction p as [| |T e k IH]; intros q Hq f g Hfg;
    proc_equiv_inv Hq; simpl; [done | apply Hfg |].
  apply proc_equiv_Vis. intros t. by apply IH.
Qed.

#[global] Instance try_finally_proper A :
  Proper ((≡) ==> (≡) ==> (≡)) (@try_finally E X A).
Proof.
  intros p. induction p as [| |T e k IH]; intros q Hq f g Hfg;
    proc_equiv_inv Hq; simpl; [by apply bind_proper..|].
  apply proc_equiv_Vis. intros t. by apply IH.
Qed.

(** ** Monad and handler laws *)

Lemma bind_ret_l {A B} (a : A) (f : A → proc B) : bind (Ret a) f = f a.
Proof. done. Qed.

Lemma bind_throw {A B} (x : X) (f : A → proc B) : bind (Throw x) f = Throw x.
Proof. done. Qed.

Lemma bind_ret_r {A} (p : proc A) : bind p Ret ≡ p.
Proof. induction p; simpl; eauto using proc_equiv_Vis. Qed.

Lemma bind_assoc {A B C} (p : proc A) (f : A → proc B) (g : B → proc C) :
  bind (bind p f) g ≡ bind p (λ a, bind (f a) g).
Proof. induction p; simpl; eauto using proc_equiv_Vis. Qed.

Lemma bind_perform {T B} (e : E T) (f : T → proc B) :
  bind (perform e) f = Vis e f.
Proof. done. Qed.

Lemma try_catch_ret {A} (a : A) (h : X → proc A) :
  try_catch (Ret a) h = Ret a.
Proof. done. Qed.

Lemma try_catch_throw {A} x (h : X → proc A) : try_catch (Throw x) h = h x.
Proof. done. Qed.

Lemma try_catch_rethrow {A} (p : proc A) : try_catch p Throw ≡ p.
Proof. induction p; simpl; eauto using proc_equiv_Vis. Qed.

Lemma try_catch_assoc {A} (p : proc A) (h1 h2 : X → proc A) :
  try_catch (try_catch p h1) h2 ≡ try_catch p (λ x, try_catch (h1 x) h2).
Proof. induction p; simpl; eauto using proc_equiv_Vis. Qed.

Lemma try_finally_skip {A} (p : proc A) : try_finally p (Ret ()) ≡ p.
Proof. induction p; simpl; eauto using proc_equiv_Vis. Qed.

End proc_laws.

(** ** The rules of [wp] *)

Section logic.
Context {E : Type → Type} {X W Ans : Type} `{!Runtime E W Ans}.
Implicit Types (w : W) (R G : relation W).

Lemma wp_mono {A} R G (p : proc E X A) (Q Q' : A → W → W → Prop) Qx Qx' w0 w :
  (∀ a w0 w, Q a w0 w → Q' a w0 w) → (∀ x w0 w, Qx x w0 w → Qx' x w0 w) →
  wp R G p Q Qx w0 w → wp R G p Q' Qx' w0 w.
Proof.
  intros HQ HQx. revert w0 w.
  induction p as [| |T e k IH]; simpl; intros w0 w; [eauto..|].
  destruct (sync e); [eauto|]. intros [? Hk]. eauto.
Qed.

Lemma wp_rely_guar_mono {A} R R' G G' (p : proc E X A) Q Qx w0 w :
  (∀ w1 w2, R' w1 w2 → R w1 w2) → (∀ w1 w2, G w1 w2 → G' w1 w2) →
  wp R G p Q Qx w0 w → wp R' G' p Q Qx w0 w.
Proof.
  intros HR HG. revert w0 w.
  induction p as [| |T e k IH]; simpl; intros w0 w; [eauto..|].
  destruct (sync e); [eauto|]. intros [? Hk].
  split; [eauto|]. intros ans t w' ? ?. apply IH, (Hk ans); eauto.
Qed.

Lemma wp_bind {A B} R G (p : proc E X A) (f : A → proc E X B) Q Qx w0 w :
  wp R G (bind p f) Q Qx w0 w ↔
  wp R G p (λ a w0' w', wp R G (f a) Q Qx w0' w') Qx w0 w.
Proof.
  revert w0 w. induction p as [| |T e k IH]; simpl; intros w0 w; [done..|].
  destruct (sync e); [done|]. by setoid_rewrite IH.
Qed.

Lemma wp_try_catch {A} R G (p : proc E X A) h Q Qx w0 w :
  wp R G (try_catch p h) Q Qx w0 w ↔
  wp R G p Q (λ x w0' w', wp R G (h x) Q Qx w0' w') w0 w.
Proof.
  revert w0 w. induction p as [| |T e k IH]; simpl; intros w0 w; [done..|].
  destruct (sync e); [done|]. by setoid_rewrite IH.
Qed.

Lemma wp_try_finally {A} R G (p : proc E X A) f Q Qx w0 w :
  wp R G (try_finally p f) Q Qx w0 w ↔
  wp R G p (λ a w0' w', wp R G f (λ _, Q a) Qx w0' w')
           (λ x w0' w', wp R G f (λ _, Qx x) Qx w0' w') w0 w.
Proof.
  revert w0 w. induction p as [| |T e k IH]; simpl; intros w0 w.
  1,2: by rewrite wp_bind.
  destruct (sync e); [done|]. by setoid_rewrite IH.
Qed.

Lemma wp_mbind {A B} R G (p : proc E X A) (f : A → proc E X B) Q Qx w0 w :
  wp R G (p ≫= f) Q Qx w0 w ↔
  wp R G p (λ a w0' w', wp R G (f a) Q Qx w0' w') Qx w0 w.
Proof. apply wp_bind. Qed.

Lemma wp_perform {T} R G (e : E T) f (Q : T → W → W → Prop)
    (Qx : X → W → W → Prop) w0 w :
  sync e = Some f → wp R G (perform e) Q Qx w0 w ↔ Q (f w).1 w0 (f w).2.
Proof. simpl. by intros ->. Qed.

Lemma wp_await {A} R G (e : E (settled X A)) (Q : A → W → W → Prop) Qx w0 w :
  sync e = None →
  wp R G (await e) Q Qx w0 w ↔
  G w0 (issue e w) ∧
  ∀ ans r w', deliver e ans = Some r → R (issue e w) w' →
              match r with
              | Fulfilled a => Q a w' w'
              | Rejected x => Qx x w' w'
              end.
Proof.
  simpl. intros ->. apply and_iff_compat_l.
  split; intros H ans r w' ? ?; specialize (H ans r w'); by destruct r; apply H.
Qed.

#[global] Instance wp_proper {A} R G :
  Proper ((≡) ==> (=) ==> (=) ==> (=) ==> (=) ==> iff) (@wp E X W Ans _ A R G).
Proof.
  intros p q Hpq Q ? <- Qx ? <- w0 ? <- w ? <-. revert q Hpq w0 w.
  induction p as [| |T e k IH]; intros q Hq w0 w; proc_equiv_inv Hq; [done..|].
  simpl. destruct (sync e); [by apply IH|].
  apply and_iff_compat_l.
  split; intros H ans t w' ? ?; eapply IH; eauto.
Qed.

(** One run is one step of [wp]. *)
Lemma wp_run {A} R G (p : proc E X A) Q Qx w0 w :
  wp R G p Q Qx w0 w →
  match run p w with
  | (w', Done a) => Q a w0 w'
  | (w', Failed x) => Qx x w0 w'
  | (w', Blocked e k) =>
      G w0 w' ∧
      ∀ ans t w'', deliver e ans = Some t → R w' w'' →
                   wp R G (k t) Q Qx w'' w''
  end.
Proof.
  revert w. induction p as [| |T e k IH]; simpl; intros w; [done..|].
  destruct (sync e); [apply IH | done].
Qed.

(** With nothing else running, [wp] describes [exec]. *)
Lemma wp_exec {A} G answers (p : proc E X A) Q Qx w0 w :
  wp (=) G p Q Qx w0 w →
  match exec answers p w with
  | (w', Done a) => ∃ w1, Q a w1 w'
  | (w', Failed x) => ∃ w1, Qx x w1 w'
  | (w', Blocked e k) =>
      ∀ ans t, deliver e ans = Some t → wp (=) G (k t) Q Qx w' w'
  end.
Proof.
  revert p w0 w. induction answers as [|ans rest IH]; intros p w0 w Hwp;
    apply wp_run in Hwp; simpl; destruct (run p w) as [w' [a|x|T e k]]; eauto.
  - destruct Hwp as [_ Hk]. eauto.
  - destruct Hwp as [_ Hk]. destruct (deliver e ans) eqn:?; naive_solver.
Qed.

Lemma run_bind {A B} (p : proc E X A) (f : A → proc E X B) w :
  run (bind p f) w =
  match run p w with
  | (w', Done a) => run (f a) w'
  | (w', Failed x) => (w', Failed x)
  | (w', Blocked e k) => (w', Blocked e (λ t, bind (k t) f))
  end.
Proof.
  revert w. induction p as [| |T e k IH]; simpl; intros w; [done..|].
  destruct (sync e); [apply IH | done].
Qed.

(** ** Suspension counts *)

Lemma awaits_le_mono {A} n m (p : proc E X A) :
  (n ≤ m)%nat → awaits_le n p → awaits_le m p.
Proof.
  revert n m. induction p as [| |T e k IH]; simpl; intros n m Hnm; [done..|].
  destruct (sync e); [eauto|].
  destruct n as [|n]; [done|]. destruct m as [|m]; [lia|].
  intros H t. apply (IH t n m); [lia | done].
Qed.

Lemma awaits_le_bind {A B} n m (p : proc E X A) (f : A → proc E X B) :
  awaits_le n p → (∀ a, awaits_le m (f a)) → awaits_le (n + m) (bind p f).
Proof.
  intros Hp Hf. revert n Hp.
  induction p as [| |T e k IH]; simpl; intros n Hp; [|done|].
  - eapply awaits_le_mono; [|apply Hf]. lia.
  - destruct (sync e); [eauto|].
    destruct n as [|n]; [done|]. simpl. eauto.
Qed.

Lemma awaits_le_try_catch {A} n m (p : proc E X A) h :
  awaits_le n p → (∀ x, awaits_le m (h x)) →
  awaits_le (n + m) (try_catch p h).
Proof.
  intros Hp Hh. revert n Hp.
  induction p as [| |T e k IH]; simpl; intros n Hp; [done| |].
  - eapply awaits_le_mono; [|apply Hh]. lia.
  - destruct (sync e); [eauto|].
    destruct n as [|n]; [done|]. simpl. eauto.
Qed.

Lemma awaits_le_try_finally {A} n m (p : proc E X A) f :
  awaits_le n p → awaits_le m f → awaits_le (n + m) (try_finally p f).
Proof.
  intros Hp Hf. revert n Hp.
  induction p as [| |T e k IH]; simpl; intros n Hp.
  1,2: by eapply awaits_le_mono; [|apply (awaits_le_bind m 0)]; [lia|..].
  destruct (sync e); [eauto|].
  destruct n as [|n]; [done|]. simpl. eauto.
Qed.

End logic.
