(* ===== verification/Tasks.v ===== *)
(** * The table of suspended tasks

    JavaScript runs one function at a time.  A call of an [async] function
    runs until its first [await] and is then parked; when the awaited
    promise settles, the rest of the function runs until its next [await]
    or its end.  A [pool] holds the world, the parked functions
    ([suspended], by task number, each with the tag of the call that
    started it, the effect it awaits and its continuation) and the
    exceptions that escaped a task.

    - [start tg p] begins task [p] under a fresh number;
    - [resume id ans] delivers the answer [ans] to task [id].

    Against this table the logic of [Proc] is sound: when every task that
    is started satisfies [wp] with a rely [R] and a guarantee [G] that
    implies [R], every step of the pool changes the world within [G], the
    parked tasks keep their [wp] ([obliged]), and a task that ends does so
    in its postcondition. *)

From stdpp Require Import gmap.
From S2P Require Import Prelude Proc.

Section tasks.
Context {E : Type → Type} {X W Ans Tag : Type} `{!Runtime E W Ans}.

Record suspended : Type := Suspended {
  origin : Tag;
  awaited_type : Type;
  awaited : E awaited_type;
  resumption : awaited_type → proc E X unit;
}.

Record pool : Type := Pool {
  world_of : W;
  tasks : gmap nat suspended;
  next_id : nat;
  uncaught : list (Tag * X);
}.

(** The pool after task [id] ran up to outcome [r]. *)
Definition park (id : nat) (tg : Tag) (c : pool)
    (r : W * outcome E X unit) : pool :=
  match r with
  | (w, Done _) => Pool w (delete id (tasks c)) (next_id c) (uncaught c)
  | (w, Failed x) =>
      Pool w (delete id (tasks c)) (next_id c) (uncaught c ++ [(tg, x)])
  | (w, Blocked e k) =>
      Pool w (<[id := Suspended tg _ e k]> (tasks c)) (next_id c) (uncaught c)
  end.

Definition start (tg : Tag) (p : proc E X unit) (c : pool) : pool :=
  park (next_id c) tg
       (Pool (world_of c) (tasks c) (S (next_id c)) (uncaught c))
       (run p (world_of c)).

Definition resume (id : nat) (ans : Ans) (c : pool) : option pool :=
  match tasks c !! id with
  | Some t =>
      match deliver (awaited t) ans with
      | Some v => Some (park id (origin t) c (run (resumption t v) (world_of c)))
      | None => None
      end
  | None => None
  end.

(** ** Invariants of the table *)

(** Task numbers in use are below the next fresh one. *)
Definition fresh_ids (c : pool) : Prop :=
  ∀ id, is_Some (tasks c !! id) → (id < next_id c)%nat.

(** What a task of tag [tg] must achieve: to end in [Post tg], or to throw
    an exception allowed by [Fail tg], each segment within [G]. *)
Definition task_wp (R G : relation W) (Post : Tag → W → Prop)
    (Fail : Tag → X → Prop) (tg : Tag) (p : proc E X unit) (w : W) : Prop :=
  wp R G p (λ _ w0 w', G w0 w' ∧ Post tg w')
           (λ x w0 w', G w0 w' ∧ Fail tg x) w w.

(** Every parked task achieves it from any world the rely leads to. *)
Definition obliged (R G : relation W) (Post : Tag → W → Prop)
    (Fail : Tag → X → Prop) (c : pool) : Prop :=
  ∀ id t, tasks c !! id = Some t →
    ∀ ans v w', deliver (awaited t) ans = Some v → R (world_of c) w' →
      task_wp R G Post Fail (origin t) (resumption t v) w'.

(** Every exception that escaped was allowed. *)
Definition failures_allowed (Fail : Tag → X → Prop) (c : pool) : Prop :=
  Forall (λ tx, Fail tx.1 tx.2) (uncaught c).

(** Task [id] is parked and suspends at most [n] more times. *)
Definition remaining (c : pool) (id : nat) (n : nat) : Prop :=
  ∃ t, tasks c !! id = Some t ∧ ∀ v, awaits_le n (resumption t v).

(** [k] counts how often each task has been resumed.  The table is within
    the budget [N] when no task was resumed more than [N] times, a task
    number not yet used was never resumed, and a parked task that was
    resumed [k] times has fewer than [N - k] suspensions left. *)
Definition within_budget (N : nat) (k : nat → nat) (c : pool) : Prop :=
  ∀ id, (k id ≤ N)%nat ∧ ((next_id c ≤ id)%nat → k id = 0%nat) ∧
        (is_Some (tasks c !! id) →
         ∃ n, remaining c id n ∧ (S (k id + n) ≤ N)%nat).

(** One more resumption of task [id]. *)
Definition bump (id : nat) (k : nat → nat) : nat → nat :=
  λ i, if decide (i = id) then S (k i) else k i.

End tasks.

#[global] Arguments suspended : clear implicits.
#[global] Arguments pool : clear implicits.
#[global] Arguments Suspended {E X Tag} origin {awaited_type} awaited resumption.

(** ** Soundness of the logic against the table *)

Section soundness.
Context {E : Type → Type} {X W Ans Tag : Type} `{!Runtime E W Ans}.
Context (R G : relation W) `{!PreOrder R} (HGR : ∀ w w', G w w' → R w w').
Context (Post : Tag → W → Prop) (Fail : Tag → X → Prop).
Implicit Types (c : pool E X W Tag) (p : proc E X unit).

#[local] Abbreviation Obl := (obliged R G Post Fail).
#[local] Abbreviation Twp := (task_wp R G Post Fail).

(** The pool after a run that satisfied [task_wp]. *)
Lemma park_sound id tg c w0 (r : W * outcome E X unit) :
  Obl c → failures_allowed Fail c → R (world_of c) w0 →
  match r with
  | (w', Done _) => G w0 w' ∧ Post tg w'
  | (w', Failed x) => G w0 w' ∧ Fail tg x
  | (w', Blocked e k) =>
      G w0 w' ∧ ∀ ans t w'', deliver e ans = Some t → R w' w'' →
                             Twp tg (k t) w''
  end →
  Obl (park id tg c r) ∧ failures_allowed Fail (park id tg c r) ∧
  G w0 (world_of (park id tg c r)).
Proof.
  intros Hob Hfail HR0 Hr.
  assert (∀ w', G w0 w' → ∀ id' t, id' ≠ id → tasks c !! id' = Some t →
            ∀ ans v w'', deliver (awaited t) ans = Some v → R w' w'' →
              Twp (origin t) (resumption t v) w'') as Hothers.
  { intros w' HG id' t _ Ht ans v w'' Hd HR. eapply Hob; [done..|].
    etrans; [done|]. etrans; [by apply HGR|done]. }
  unfold obliged, failures_allowed.
  destruct r as [w' [[]|x|T e k]]; simpl; destruct Hr as [HG Hr].
  - split_and!; [|done..]. intros id' t [Hne Ht]%lookup_delete_Some. eauto.
  - split_and!; [| |done].
    + intros id' t [Hne Ht]%lookup_delete_Some. eauto.
    + apply Forall_app. split; [done|]. by constructor.
  - split_and!; [|done..].
    intros id' t [[-> <-]|[Hne Ht]]%lookup_insert_Some; simpl; eauto.
Qed.

Lemma start_sound tg p c :
  Obl c → failures_allowed Fail c →
  Twp tg p (world_of c) →
  Obl (start tg p c) ∧ failures_allowed Fail (start tg p c) ∧
  G (world_of c) (world_of (start tg p c)).
Proof.
  intros Hob Hfail Hwp. unfold start. apply wp_run in Hwp.
  apply (park_sound _ _ (Pool _ _ _ _)); [done..|reflexivity|exact Hwp].
Qed.

Lemma resume_sound id ans c c' :
  Obl c → failures_allowed Fail c → resume id ans c = Some c' →
  Obl c' ∧ failures_allowed Fail c' ∧ G (world_of c) (world_of c').
Proof.
  intros Hob Hfail. unfold resume.
  destruct (tasks c !! id) as [t|] eqn:Ht; [|done].
  destruct (deliver (awaited t) ans) as [v|] eqn:Hv; [|done].
  intros [= <-].
  assert (Twp (origin t) (resumption t v) (world_of c)) as Hwp.
  { by eapply Hob. }
  apply wp_run in Hwp. apply park_sound; [done..|reflexivity|exact Hwp].
Qed.

(** A task that is gone after it was resumed ended in its postcondition
    or threw an allowed exception. *)
Lemma resume_ends id ans c c' t :
  Obl c → tasks c !! id = Some t → resume id ans c = Some c' →
  tasks c' !! id = None →
  Post (origin t) (world_of c') ∨
  ∃ x, uncaught c' = uncaught c ++ [(origin t, x)] ∧ Fail (origin t) x.
Proof.
  intros Hob Ht. unfold resume. rewrite Ht.
  destruct (deliver (awaited t) ans) as [v|] eqn:Hv; [|done].
  intros [= <-].
  assert (Twp (origin t) (resumption t v) (world_of c)) as Hwp.
  { by eapply Hob. }
  apply wp_run in Hwp.
  destruct (run _ _) as [w' [[]|x|T e k]]; simpl.
  - intros _. left. apply Hwp.
  - intros _. right. exists x. split; [done|apply Hwp].
  - by rewrite lookup_insert_eq.
Qed.

End soundness.

(** ** Task numbers and suspension counts *)

Section bookkeeping.
Context {E : Type → Type} {X W Ans Tag : Type} `{!Runtime E W Ans}.
Implicit Types (c : pool E X W Tag) (p : proc E X unit).

Lemma park_next_id id tg c r : next_id (park id tg c r) = next_id c.
Proof. by destruct r as [w [|?|]]. Qed.

Lemma park_lookup_ne id id' tg c r :
  id ≠ id' → tasks (park id tg c r) !! id' = tasks c !! id'.
Proof.
  intros Hne. destruct r as [w [|?|]]; simpl;
    by rewrite ?lookup_delete_ne, ?lookup_insert_ne.
Qed.

Lemma park_fresh id tg c r :
  fresh_ids c → (id < next_id c)%nat → fresh_ids (park id tg c r).
Proof.
  intros Hc Hid id' Hsome. rewrite park_next_id.
  destruct (decide (id = id')) as [<-|Hne]; [done|].
  rewrite park_lookup_ne in Hsome by done. by apply Hc.
Qed.

Lemma start_next_id tg p c : next_id (start tg p c) = S (next_id c).
Proof. unfold start. by rewrite park_next_id. Qed.

Lemma start_fresh tg p c : fresh_ids c → fresh_ids (start tg p c).
Proof.
  intros Hc. apply park_fresh; simpl; [|lia].
  intros id ?%Hc. simpl. lia.
Qed.

Lemma resume_next_id id ans c c' :
  resume id ans c = Some c' → next_id c' = next_id c.
Proof.
  unfold resume. destruct (tasks c !! id); [|done].
  destruct (deliver _ _); [|done]. intros [= <-]. apply park_next_id.
Qed.

Lemma resume_fresh id ans c c' :
  fresh_ids c → resume id ans c = Some c' → fresh_ids c'.
Proof.
  intros Hc. unfold resume. destruct (tasks c !! id) eqn:Ht; [|done].
  destruct (deliver _ _); [|done]. intros [= <-].
  apply park_fresh; [done|]. apply Hc. by rewrite Ht.
Qed.

(** Starting a task leaves the parked ones as they are. *)
Lemma start_lookup_old tg p c id :
  fresh_ids c → is_Some (tasks c !! id) →
  tasks (start tg p c) !! id = tasks c !! id.
Proof.
  intros Hc Hid. unfold start. rewrite park_lookup_ne; [done|].
  apply Hc in Hid. lia.
Qed.

Lemma resume_lookup_ne id id' ans c c' :
  id ≠ id' → resume id ans c = Some c' → tasks c' !! id' = tasks c !! id'.
Proof.
  intros Hne. unfold resume. destruct (tasks c !! id); [|done].
  destruct (deliver _ _); [|done]. intros [= <-]. by apply park_lookup_ne.
Qed.

(** A task that suspends at most [n] times is gone after it ran, or
    parked with [n - 1] suspensions left. *)
Lemma park_remaining id tg c p w n :
  awaits_le n p →
  tasks (park id tg c (run p w)) !! id = None ∨
  ∃ m, n = S m ∧ remaining (park id tg c (run p w)) id m.
Proof.
  revert w. induction p as [[]|x|T e k IH]; simpl; intros w Hp.
  - left. apply lookup_delete_eq.
  - left. apply lookup_delete_eq.
  - destruct (sync e) eqn:He; [by apply IH|].
    destruct n as [|m]; [done|]. right. exists m. split; [done|].
    eexists. split; [apply lookup_insert_eq|done].
Qed.

Lemma start_remaining tg p c n :
  awaits_le n p →
  tasks (start tg p c) !! next_id c = None ∨
  ∃ m, n = S m ∧ remaining (start tg p c) (next_id c) m.
Proof. apply park_remaining. Qed.

Lemma resume_remaining id ans c c' n :
  remaining c id n → resume id ans c = Some c' →
  tasks c' !! id = None ∨ ∃ m, n = S m ∧ remaining c' id m.
Proof.
  intros (t & Ht & Hn). unfold resume. rewrite Ht.
  destruct (deliver _ _) as [v|]; [|done]. intros [= <-].
  by apply park_remaining.
Qed.

Lemma remaining_park_ne id id' tg c r n :
  id ≠ id' → remaining c id' n → remaining (park id tg c r) id' n.
Proof.
  intros Hne (t & Ht & Hn). exists t. by rewrite park_lookup_ne.
Qed.

Lemma within_budget_ext N k k' c :
  (∀ id, k id = k' id) → within_budget N k c → within_budget N k' c.
Proof. intros Hk Hc id. rewrite <- Hk. apply Hc. Qed.

(** Calling a function that suspends at most [N] times keeps the table
    within the budget [N]. *)
Lemma start_budget N k tg p c :
  awaits_le N p → fresh_ids c → within_budget N k c →
  within_budget N k (start tg p c).
Proof.
  intros Hp Hfresh Hk id. destruct (Hk id) as (HN & Hnew & Hold).
  rewrite start_next_id. split_and!; [done|intros; apply Hnew; lia|].
  destruct (decide (id = next_id c)) as [->|Hne].
  - intros Hid. destruct (start_remaining tg p c N Hp) as [Hnone|(m & -> & Hm)].
    { rewrite Hnone in Hid. by destruct Hid. }
    exists m. rewrite Hnew by lia. split; [done|lia].
  - unfold start. rewrite park_lookup_ne by done. simpl.
    intros (n & Hn & ?)%Hold. exists n. split; [|done].
    by apply (remaining_park_ne _ _ _ (Pool _ _ _ _)).
Qed.

(** Resuming a task keeps the table within the budget, with one more
    resumption counted for it. *)
Lemma resume_budget N k id ans c c' :
  fresh_ids c → within_budget N k c → resume id ans c = Some c' →
  within_budget N (bump id k) c'.
Proof.
  intros Hfresh Hk Hres id'. destruct (Hk id') as (HN & Hnew & Hold).
  rewrite (resume_next_id _ _ _ _ Hres). unfold bump.
  destruct (decide (id' = id)) as [->|Hne].
  - assert (is_Some (tasks c !! id)) as Hid.
    { unfold resume in Hres. by destruct (tasks c !! id). }
    destruct (Hold Hid) as (n & Hn & Hle). apply Hfresh in Hid.
    destruct (resume_remaining _ _ _ _ _ Hn Hres) as [Hnone|(m & -> & Hm)].
    + split_and!; [lia|intros; lia|]. rewrite Hnone. by intros [].
    + split_and!; [lia|intros; lia|]. intros _. exists m. split; [done|lia].
  - assert (id ≠ id') as Hne' by congruence.
    split_and!; [done..|]. rewrite (resume_lookup_ne _ _ _ _ _ Hne' Hres).
    intros (n & Hn & ?)%Hold. exists n. split; [|done].
    destruct Hn as (t & Ht & Hn). exists t.
    by rewrite (resume_lookup_ne _ _ _ _ _ Hne' Hres).
Qed.

End bookkeeping.
