(* ===== verification/Http.v ===== *)
(** * Requests, responses and errors, as [fetch] presents them

    A [request] holds the arguments the sources pass to [fetch]: the URL
    and, from the options object, [method], [headers] (in the order
    written), [body] and [cache].  A [response] holds what the sources read
    from the object [fetch] resolves with: [status], and [ok], which the
    Fetch standard defines as a status from 200 to 299.  A [js_error] is an
    [Error] object: the sources read its [message] and print it. *)

From S2P Require Import Prelude JsValue.

Inductive http_method : Type := GET | POST | PUT | DELETE.

#[global] Instance http_method_eq_dec : EqDecision http_method.
Proof. solve_decision. Defined.

Definition method_name (m : http_method) : string :=
  match m with GET => "GET" | POST => "POST" | PUT => "PUT" | DELETE => "DELETE" end.

Record request : Type := Request {
  req_method : http_method;
  req_url : string;
  req_headers : list (string * string);
  req_body : option string;
  req_cache : option string;
}.

#[global] Instance request_eq_dec : EqDecision request.
Proof. solve_decision. Defined.

Record response : Type := Response { status : Z }.

#[global] Instance response_eq_dec : EqDecision response.
Proof. solve_decision. Defined.

(** [response.ok] *)
Definition ok (r : response) : bool := 200 ≤? status r ≤? 299.

Record js_error : Type := JsError {
  err_name : string;
  err_message : string;
}.

#[global] Instance js_error_eq_dec : EqDecision js_error.
Proof. solve_decision. Defined.

(** [new Error(msg)] *)
Definition Error (msg : string) : js_error :=
  {| err_name := "Error"; err_message := msg |}.

(** The [TypeError] of reading property [k] of [null] or [undefined]
    (the message is V8's; nothing depends on its wording). *)
Definition TypeError_read (v : jsval) (k : string) : js_error :=
  {| err_name := "TypeError";
     err_message := "Cannot read properties of " +:+ to_string v +:+
                    " (reading '" +:+ k +:+ "')" |}.

(** An error object as a value, for [console.error]. *)
Definition error_value (e : js_error) : jsval :=
  JObj [("name", JStr (err_name e)); ("message", JStr (err_message e))].

(** The header lists of the sources. *)
Definition header (name value : string) : string * string := (name, value).

(** ** Facts *)

Lemma ok_spec r : ok r = true ↔ 200 ≤ status r ≤ 299.
Proof. apply between_spec. Qed.

Lemma ok_false r : ok r = false ↔ status r < 200 ∨ 299 < status r.
Proof. apply between_false. Qed.

Lemma method_name_inj : Inj (=) (=) method_name.
Proof. by intros [] [] H. Qed.

Lemma error_value_message e :
  get_field (error_value e) "message" = JStr (err_message e).
Proof. done. Qed.

Lemma error_value_inj : Inj (=) (=) error_value.
Proof. intros [n m] [n' m'] [= -> ->]. done. Qed.
