(* ===== verification/Customers.v ===== *)
(** * The component [Customers] of [src/src/Customers.js], lines 6-130

    - [state] has one field per [useState] cell (lines 7-17), [init_state]
      their initial values, [setter] one constructor per setter function.
      A form field holds what the source puts there: the string typed by
      the user, or whatever value the record under edit has under that key
      ([handleEdit]), hence [jsval].
    - [eff] is the signature of effects of the component's functions:
      a setter call, [console.error], [e.preventDefault()],
      [localStorage.getItem], and the two promises the source awaits,
      [fetch(...)] and [response.json()].
    - [world] is what these effects act on: the React state, the contents
      of [localStorage], and the trace of what the component has output
      (requests sent, console lines, default actions prevented).
    - Every function of the component is a definition of the same name
      taking the state [s] of the render that created it (its closure):
      it reads [s] and writes the world.  [API_URL] is the build-time
      constant [process.env.REACT_APP_API_URL], a string or [undefined]. *)

From stdpp Require Import gmap.
From S2P Require Import Prelude JsValue Json Proc Http.

(** ** State (lines 7-17) *)

Definition totalPages : Z := 5.

Record state : Type := State {
  customers : list jsval;
  customerName : jsval;
  email : jsval;
  phoneNumber : jsval;
  customerType : jsval;
  customerEdit : jsval;
  isLoading : bool;
  error : option string;
  page : Z;
  searchTerm : string;
}.

#[global] Instance state_eq_dec : EqDecision state.
Proof. solve_decision. Defined.

Definition init_state : state :=
  {| customers := [];
     customerName := JStr "";
     email := JStr "";
     phoneNumber := JStr "";
     customerType := JStr "INDIVIDUAL";
     customerEdit := JNull;
     isLoading := false;
     error := None;
     page := 1;
     searchTerm := "" |}.

Inductive setter : Type :=
| setCustomers (v : list jsval)
| setCustomerName (v : jsval)
| setEmail (v : jsval)
| setPhoneNumber (v : jsval)
| setCustomerType (v : jsval)
| setCustomerEdit (v : jsval)
| setIsLoading (v : bool)
| setError (v : option string)
| setPage (v : Z)
| setSearchTerm (v : string).

#[global] Instance setter_eq_dec : EqDecision setter.
Proof. solve_decision. Defined.

Definition apply_setter (u : setter) (s : state) : state :=
  match u with
  | setCustomers v =>
      State v (customerName s) (email s) (phoneNumber s) (customerType s)
            (customerEdit s) (isLoading s) (error s) (page s) (searchTerm s)
  | setCustomerName v =>
      State (customers s) v (email s) (phoneNumber s) (customerType s)
            (customerEdit s) (isLoading s) (error s) (page s) (searchTerm s)
  | setEmail v =>
      State (customers s) (customerName s) v (phoneNumber s) (customerType s)
            (customerEdit s) (isLoading s) (error s) (page s) (searchTerm s)
  | setPhoneNumber v =>
      State (customers s) (customerName s) (email s) v (customerType s)
            (customerEdit s) (isLoading s) (error s) (page s) (searchTerm s)
  | setCustomerType v =>
      State (customers s) (customerName s) (email s) (phoneNumber s) v
            (customerEdit s) (isLoading s) (error s) (page s) (searchTerm s)
  | setCustomerEdit v =>
      State (customers s) (customerName s) (email s) (phoneNumber s)
            (customerType s) v (isLoading s) (error s) (page s) (searchTerm s)
  | setIsLoading v =>
      State (customers s) (customerName s) (email s) (phoneNumber s)
            (customerType s) (customerEdit s) v (error s) (page s) (searchTerm s)
  | setError v =>
      State (customers s) (customerName s) (email s) (phoneNumber s)
            (customerType s) (customerEdit s) (isLoading s) v (page s)
            (searchTerm s)
  | setPage v =>
      State (customers s) (customerName s) (email s) (phoneNumber s)
            (customerType s) (customerEdit s) (isLoading s) (error s) v
            (searchTerm s)
  | setSearchTerm v =>
      State (customers s) (customerName s) (email s) (phoneNumber s)
            (customerType s) (customerEdit s) (isLoading s) (error s) (page s) v
  end.

(** ** Effects and the world they act on *)

Variant eff : Type → Type :=
| SetState (u : setter) : eff unit
| ConsoleError (args : list jsval) : eff unit
| PreventDefault : eff unit
| GetItem (key : string) : eff jsval
| Fetch (req : request) : eff (settled js_error response)
| ResponseJson (resp : response) : eff (settled js_error jsval).

(** What the component outputs, in order. *)
Inductive io : Type :=
| IoRequest (req : request)
| IoConsoleError (args : list jsval)
| IoPreventDefault.

#[global] Instance io_eq_dec : EqDecision io.
Proof. solve_decision. Defined.

Record world : Type := World {
  ui : state;
  localStorage : gmap string string;
  trace : list io;
}.

Definition set_ui (f : state → state) (w : world) : world :=
  World (f (ui w)) (localStorage w) (trace w).

Definition emit (o : io) (w : world) : world :=
  World (ui w) (localStorage w) (trace w ++ [o]).

(** [localStorage.getItem(key)]: the stored string, or [null]. *)
Definition getItem (key : string) (w : world) : jsval :=
  from_option JStr JNull (localStorage w !! key).

(** The environment's answer to a suspended function. *)
Inductive answer : Type :=
| FetchSettled (r : settled js_error response)
| JsonSettled (r : settled js_error jsval).

Definition eff_sync {T} (e : eff T) : option (world → T * world) :=
  match e with
  | SetState u => Some (λ w, ((), set_ui (apply_setter u) w))
  | ConsoleError args => Some (λ w, ((), emit (IoConsoleError args) w))
  | PreventDefault => Some (λ w, ((), emit IoPreventDefault w))
  | GetItem key => Some (λ w, (getItem key w, w))
  | Fetch _ | ResponseJson _ => None
  end.

Definition eff_issue {T} (e : eff T) (w : world) : world :=
  match e with
  | Fetch req => emit (IoRequest req) w
  | _ => w
  end.

Definition eff_deliver {T} (e : eff T) (a : answer) : option T :=
  match e in eff T return option T with
  | Fetch _ => match a with FetchSettled r => Some r | _ => None end
  | ResponseJson _ => match a with JsonSettled r => Some r | _ => None end
  | _ => None
  end.

#[global] Instance eff_runtime : Runtime eff world answer :=
  {| sync := @eff_sync; issue := @eff_issue; deliver := @eff_deliver |}.

(** The component's functions are trees over [eff] that throw [js_error]s. *)
Abbreviation task := (proc eff js_error).

Definition set (u : setter) : task unit := perform (SetState u).

(** [v.k] as an expression that may throw. *)
Definition read (v : jsval) (k : string) : task jsval :=
  match get_prop v k with
  | Some x => mret x
  | None => mthrow (TypeError_read v k)
  end.

(** The items of an array ([[]] for any other value). *)
Definition array_items (v : jsval) : list jsval :=
  match v with JArr l => l | _ => [] end.

(** ** The functions of the component *)

Section component.
Context (API_URL : jsval).

(** Line 27. *)
Definition pagination_url (p : Z) : string :=
  to_string API_URL +:+ "/api/v1/customers/pagination?page=" +:+ show_Z p
  +:+ "&size=10".

(** Line 82. *)
Definition collection_url : string := to_string API_URL +:+ "/api/v1/customers".

(** Lines 81 and 112. *)
Definition record_url (id : jsval) : string :=
  to_string API_URL +:+ "/api/v1/customers/" +:+ to_string id.

(** Lines 21-54. *)
Definition fetchCustomers (s : state) : task unit :=
  set (setIsLoading true) ;;
  set (setError None) ;;
  try_finally
    (try_catch
       (token ← perform (GetItem "userToken");
        response ← await (Fetch
          {| req_method := GET;
             req_url := pagination_url (page s);
             req_headers := [("Content-Type", "application/json");
                             ("Authorization", "Bearer " +:+ to_string token)];
             req_body := None;
             req_cache := Some "no-store" |});
        (if negb (ok response)
         then mthrow (Error ("HTTP error! status:" +:+ show_Z (status response)))
         else mret ()) ;;
        data ← await (ResponseJson response);
        if truthy data && Array_isArray (get_field data "content")
        then set (setCustomers (array_items (get_field data "content")))
        else set (setCustomers []))
       (λ err,
          set (setError (Some (err_message err))) ;;
          perform (ConsoleError [JStr "Error during fetch operation:";
                                 error_value err])))
    (set (setIsLoading false)).

(** Lines 60-62. *)
Definition handleNext (s : state) : task unit :=
  if page s <? totalPages then set (setPage (page s + 1)) else mret ().

(** Lines 63-65. *)
Definition handlePrevious (s : state) : task unit :=
  if page s >? 1 then set (setPage (page s - 1)) else mret ().

(** Lines 66-68. *)
Definition goToPage (s : state) (pageNumber : Z) : task unit :=
  if (pageNumber >=? 1) && (pageNumber <=? totalPages)
  then set (setPage pageNumber) else mret ().

(** Lines 73-78. *)
Definition payload (s : state) : jsval :=
  JObj [("name", customerName s); ("email", email s);
        ("phoneNumber", phoneNumber s); ("customerType", customerType s)].

(** Lines 80-82. *)
Definition submit_url (s : state) : string :=
  if truthy (customerEdit s)
  then record_url (get_field (customerEdit s) "id")
  else collection_url.

(** Line 83. *)
Definition submit_method (s : state) : http_method :=
  if truthy (customerEdit s) then PUT else POST.

(** Lines 70-107. *)
Definition handleSubmit (s : state) : task unit :=
  perform PreventDefault ;;
  try_catch
    (token ← perform (GetItem "userToken");
     response ← await (Fetch
       {| req_method := submit_method s;
          req_url := submit_url s;
          req_headers := [("Content-Type", "application/json");
                          ("Authorization", "Bearer " +:+ to_string token)];
          req_body := JSON_stringify (payload s);
          req_cache := None |});
     (if negb (ok response)
      then mthrow (Error ("HTTP error! status: " +:+ show_Z (status response)))
      else mret ()) ;;
     fetchCustomers s)
    (λ err, perform (ConsoleError [error_value err])) ;;
  set (setCustomerName (JStr "")) ;;
  set (setEmail (JStr "")) ;;
  set (setPhoneNumber (JStr "")) ;;
  set (setCustomerType (JStr "INDIVIDUAL")) ;;
  set (setCustomerEdit JNull).

(** Lines 109-122. *)
Definition handleDelete (s : state) (id : jsval) : task unit :=
  try_catch
    (token ← perform (GetItem "userToken");
     response ← await (Fetch
       {| req_method := DELETE;
          req_url := record_url id;
          req_headers := [("Authorization", "Bearer " +:+ to_string token)];
          req_body := None;
          req_cache := None |});
     (if negb (ok response)
      then mthrow (Error ("HTTP error! status: " +:+ show_Z (status response)))
      else mret ()) ;;
     fetchCustomers s)
    (λ err, perform (ConsoleError [error_value err])).

(** Lines 124-130. *)
Definition handleEdit (customer : jsval) : task unit :=
  set (setCustomerEdit customer) ;;
  name ← read customer "name"; set (setCustomerName name) ;;
  mail ← read customer "email"; set (setEmail mail) ;;
  phone ← read customer "phoneNumber"; set (setPhoneNumber phone) ;;
  type ← read customer "customerType"; set (setCustomerType type).

(** The [onChange] handlers of the inputs (lines 161, 185, 201, 217, 232):
    each stores [e.target.value], a string. *)
Definition onSearchChange (value : string) : task unit :=
  set (setSearchTerm value).
Definition onCustomerNameChange (value : string) : task unit :=
  set (setCustomerName (JStr value)).
Definition onEmailChange (value : string) : task unit :=
  set (setEmail (JStr value)).
Definition onPhoneNumberChange (value : string) : task unit :=
  set (setPhoneNumber (JStr value)).
Definition onCustomerTypeChange (value : string) : task unit :=
  set (setCustomerType (JStr value)).

End component.

(** ** Proof automation for the functions of the component *)

(** [wp_steps] runs a [wp] goal over a function of the component to its
    leaves: it computes the segments, introduces the answers and worlds of
    every suspension, and splits on how promises settle and on the tests
    of the source. *)
Ltac wp_steps :=
  repeat (simpl;
          match goal with
          | |- _ ∧ _ => split
          | |- ∀ _, _ => intro
          | H : eff_deliver _ _ = Some _ |- _ => simpl in H
          | H : match ?a with FetchSettled _ => _ | JsonSettled _ => _ end = Some _ |- _ =>
              destruct a; simplify_eq
          | |- context [settle ?r] => destruct r
          | |- context [if _ then _ else _] => case_test
          end).

(** ** What the theorems speak of *)

(** The form shows the empty record: the reset of lines 102-106. *)
Definition form_reset (s : state) : Prop :=
  customerName s = JStr "" ∧ email s = JStr "" ∧ phoneNumber s = JStr "" ∧
  customerType s = JStr "INDIVIDUAL" ∧ customerEdit s = JNull.

#[global] Instance form_reset_dec s : Decision (form_reset s).
Proof. unfold form_reset. apply _. Defined.

(** The page number is one of the pages the component offers. *)
Definition page_ok (s : state) : Prop := 1 ≤ page s ≤ totalPages.

#[global] Instance page_ok_dec s : Decision (page_ok s).
Proof. unfold page_ok. apply _. Defined.

(** The list a body stands for: its [content] member when the body is an
    object whose [content] is an array, the empty list otherwise. *)
Definition content_of (data : jsval) : list jsval :=
  match data with
  | JObj fs => match assoc "content" fs with Some (JArr l) => l | _ => [] end
  | _ => []
  end.

(** What a segment of any function of the component may do to the world:
    it leaves [localStorage] as it is, it only adds to the output, and it
    keeps a page number within the pages. *)
Definition guar (w w' : world) : Prop :=
  localStorage w' = localStorage w ∧ trace w `prefix_of` trace w' ∧
  (page_ok (ui w) → page_ok (ui w')).

#[global] Instance guar_preorder : PreOrder guar.
Proof.
  split.
  - by intros w.
  - intros w1 w2 w3 (? & ? & ?) (? & ? & ?). split_and!; [congruence| |auto].
    by etrans.
Qed.

(** [solve_guar] proves that the world computed by a segment is within
    [guar] of the world the segment started in. *)
Ltac solve_guar :=
  unfold guar, page_ok, totalPages in *; simpl in *;
  split_and?; try done;
  repeat first [reflexivity | apply prefix_app_r | lia | intros ?].

(** [run_eq] decides an equation between the result of a scripted run and
    the world written out: it computes the run and reassociates the
    traces. *)
Ltac run_eq :=
  simpl; cbv [set_ui emit]; simpl; rewrite <- ?app_assoc; simpl; try done.

(** The state after a call of [fetchCustomers] has ended: the list is
    [l], the error message [e], the loading flag is off. *)
Definition listed (l : list jsval) (e : option string) (s : state) : state :=
  State l (customerName s) (email s) (phoneNumber s) (customerType s)
        (customerEdit s) false e (page s) (searchTerm s).

(** The state with the form emptied (lines 102-106). *)
Definition cleared (s : state) : state :=
  State (customers s) (JStr "") (JStr "") (JStr "") (JStr "INDIVIDUAL") JNull
        (isLoading s) (error s) (page s) (searchTerm s).

(** The state with the form filled from [customer] (lines 125-129). *)
Definition editing (customer : jsval) (s : state) : state :=
  State (customers s) (get_field customer "name") (get_field customer "email")
        (get_field customer "phoneNumber") (get_field customer "customerType")
        customer (isLoading s) (error s) (page s) (searchTerm s).

(** The state while a call of [fetchCustomers] is under way. *)
Definition loading (s : state) : state :=
  State (customers s) (customerName s) (email s) (phoneNumber s)
        (customerType s) (customerEdit s) true None (page s) (searchTerm s).

(** The request a run is suspended on, if it awaits a [fetch]. *)
Definition awaited_request {A} (r : world * outcome eff js_error A)
    : option request :=
  match r.2 with
  | Blocked e _ =>
      match e with
      | Fetch req => Some req
      | _ => None
      end
  | _ => None
  end.

(** Whether a run has ended without an exception. *)
Definition ended {A} (r : world * outcome eff js_error A) : bool :=
  match r.2 with Done _ => true | _ => false end.

Section requests.
Context (API_URL : jsval).

Definition auth_header (w : world) : string * string :=
  ("Authorization", "Bearer " +:+ to_string (getItem "userToken" w)).

(** The request that [fetchCustomers] sends from closure [s] in world [w]. *)
Definition list_request (s : state) (w : world) : request :=
  {| req_method := GET;
     req_url := pagination_url API_URL (page s);
     req_headers := [("Content-Type", "application/json"); auth_header w];
     req_body := None;
     req_cache := Some "no-store" |}.

(** The request of [handleSubmit]. *)
Definition submit_request (s : state) (w : world) : request :=
  {| req_method := submit_method s;
     req_url := submit_url API_URL s;
     req_headers := [("Content-Type", "application/json"); auth_header w];
     req_body := JSON_stringify (payload s);
     req_cache := None |}.

(** The request of [handleDelete]. *)
Definition delete_request (id : jsval) (w : world) : request :=
  {| req_method := DELETE;
     req_url := record_url API_URL id;
     req_headers := [auth_header w];
     req_body := None;
     req_cache := None |}.

(** The console line of the [catch] block of [fetchCustomers]. *)
Definition fetch_error_line (x : js_error) : io :=
  IoConsoleError [JStr "Error during fetch operation:"; error_value x].

(** The world after [fetchCustomers], called from closure [s] in world [w],
    has failed with [x]: the message is shown, the list is as it was. *)
Definition fetch_failed (s : state) (w : world) (x : js_error) : world :=
  World (listed (customers (ui w)) (Some (err_message x)) (ui w))
        (localStorage w)
        (trace w ++ [IoRequest (list_request s w); fetch_error_line x]).

(** The world after it has succeeded with body [data]. *)
Definition fetch_succeeded (s : state) (w : world) (data : jsval) : world :=
  World (listed (content_of data) None (ui w)) (localStorage w)
        (trace w ++ [IoRequest (list_request s w)]).

End requests.

(** What a server reads from the body of a submit: the four members, in
    the order written, each a string. *)
Definition read_member (key s : string) : option (string * string) :=
  s1 ← expect (quote key +:+ ":") s; read_quoted s1.

Definition read_body (body : string)
    : option (string * string * string * string) :=
  s ← expect "{" body;
  '(name, s) ← read_member "name" s; s ← expect "," s;
  '(mail, s) ← read_member "email" s; s ← expect "," s;
  '(phone, s) ← read_member "phoneNumber" s; s ← expect "," s;
  '(type, s) ← read_member "customerType" s;
  s ← expect "}" s;
  if decide (s = "") then Some (name, mail, phone, type) else None.

(** ** Examples used by the witnesses *)

Definition example_url : jsval := JStr "https://farm.example".

Definition example_storage : gmap string string :=
  {[ "userToken" := "t0k3n" ]}.

Definition example_world : world := World init_state example_storage [].

Definition example_customer : jsval :=
  JObj [("id", JNum 1); ("name", JStr "A"); ("email", JStr "a@x.com");
        ("phoneNumber", JStr "555"); ("customerType", JStr "GROUP")].

(** A record as a server may send it when optional members are left out. *)
Definition partial_customer : jsval := JObj [("id", JNum 7); ("name", JStr "A")].

(** The list response of the specification's example. *)
Definition example_body : jsval := JObj [("content", JArr [example_customer])].

(** ** The functions of the component, branch by branch *)

Section component_facts.
Context (API_URL : jsval).
Implicit Types (s : state) (w : world) (R G : relation world)
  (x : js_error) (resp : response) (data : jsval).

Lemma content_of_spec data :
  (if truthy data && Array_isArray (get_field data "content")
   then array_items (get_field data "content") else []) = content_of data.
Proof.
  destruct data as [| |[]|n|str|l|fs]; simpl; try done.
  - by destruct (negb _).
  - by destruct (negb _).
  - rewrite get_field_obj. by destruct (assoc "content" fs) as [[]|].
Qed.

(** The list URLs of different pages differ. *)
Lemma pagination_url_inj p p' :
  pagination_url API_URL p = pagination_url API_URL p' → p = p'.
Proof.
  unfold pagination_url.
  intros Hp%append_inj_r%append_inj_r%append_inj_l. by apply show_Z_inj.
Qed.

(** *** [fetchCustomers] *)

(** C3: [fetchCustomers] clears the loading flag when it ends, whatever the
    environment answers and whatever other handlers did to the world while
    it was suspended, and it leaves no exception uncaught. *)
Theorem fetchCustomers_clears_loading s R w0 w :
  wp R (λ _ _, True) (fetchCustomers API_URL s)
     (λ _ _ w', isLoading (ui w') = false) (λ _ _ _, False) w0 w.
Proof. unfold fetchCustomers. wp_steps; done. Qed.

(** C4: when the list request is answered with a 2xx status and a body,
    [fetchCustomers] replaces the list by the body's [content] array, or by
    the empty list when the body has no such array, clears the error and
    the loading flag, and touches nothing else. *)
Theorem fetchCustomers_success s w resp data :
  ok resp = true →
  exec [FetchSettled (Fulfilled resp); JsonSettled (Fulfilled data)]
       (fetchCustomers API_URL s) w
  = (fetch_succeeded API_URL s w data, Done ()).
Proof.
  intros Hok. unfold fetchCustomers, fetch_succeeded. simpl. rewrite Hok. simpl.
  rewrite <- content_of_spec. by destruct (_ && _).
Qed.

(** C7: a response whose status is not 2xx makes [fetchCustomers] show the
    message [HTTP error! status:<n>] and log it; the body is never read and
    the list on screen stays as it was. *)
Theorem fetchCustomers_http_error s w resp :
  ok resp = false →
  exec [FetchSettled (Fulfilled resp)] (fetchCustomers API_URL s) w
  = (fetch_failed API_URL s w
       (Error ("HTTP error! status:" +:+ show_Z (status resp))), Done ()).
Proof. intros Hok. unfold fetchCustomers. simpl. rewrite Hok. run_eq. Qed.

(** C16: when [fetch] itself rejects (the network is down), the reason's
    message is shown and logged, and the list stays as it was. *)
Theorem fetchCustomers_network_failure s w x :
  exec [FetchSettled (Rejected x)] (fetchCustomers API_URL s) w
  = (fetch_failed API_URL s w x, Done ()).
Proof. unfold fetchCustomers. run_eq. Qed.

(** C17: when the body of a 2xx response is not JSON, the parse error's
    message is shown and logged, and the list stays as it was. *)
Theorem fetchCustomers_bad_json s w resp x :
  ok resp = true →
  exec [FetchSettled (Fulfilled resp); JsonSettled (Rejected x)]
       (fetchCustomers API_URL s) w
  = (fetch_failed API_URL s w x, Done ()).
Proof. intros Hok. unfold fetchCustomers. simpl. rewrite Hok. run_eq. Qed.

(** *** [handleSubmit] *)

(** C2: however the requests of a submit end, and whatever happened to the
    world while it was suspended, [handleSubmit] ends with the form reset
    to the empty record and the edit target [null], and it leaves no
    exception uncaught. *)
Theorem handleSubmit_resets_form s R w0 w :
  wp R (λ _ _, True) (handleSubmit API_URL s)
     (λ _ _ w', form_reset (ui w')) (λ _ _ _, False) w0 w.
Proof. unfold handleSubmit, fetchCustomers. wp_steps; done. Qed.

(** C6: [handleSubmit] first prevents the form's default action and sends
    one request, built from the closure's form fields: a POST to the
    collection when no record is under edit, a PUT to the record's URL when
    one is. *)
Theorem handleSubmit_request s w :
  let r := run (handleSubmit API_URL s) w in
  awaited_request r = Some (submit_request API_URL s w) ∧
  r.1 = emit (IoRequest (submit_request API_URL s w)) (emit IoPreventDefault w) ∧
  (customerEdit s = JNull →
   req_method (submit_request API_URL s w) = POST ∧
   req_url (submit_request API_URL s w) = collection_url API_URL) ∧
  (∀ fs, customerEdit s = JObj fs →
   req_method (submit_request API_URL s w) = PUT ∧
   req_url (submit_request API_URL s w)
   = record_url API_URL (default JUndefined (assoc "id" fs))).
Proof.
  split_and!; [done..| |].
  - unfold submit_request, submit_method, submit_url. simpl. by intros ->.
  - intros fs Hfs. unfold submit_request, submit_method, submit_url. simpl.
    by rewrite Hfs.
Qed.

(** C18: after a 2xx answer to its request, [handleSubmit] calls
    [fetchCustomers]: it sets the loading flag, clears the error and asks
    for the page of its closure [s], which need not be the page of the
    current state. *)
Theorem handleSubmit_refetches s w resp :
  ok resp = true →
  let r := exec [FetchSettled (Fulfilled resp)] (handleSubmit API_URL s) w in
  let w1 := emit (IoRequest (submit_request API_URL s w))
                 (emit IoPreventDefault w) in
  awaited_request r = Some (list_request API_URL s w1) ∧
  r.1 = emit (IoRequest (list_request API_URL s w1)) (set_ui loading w1).
Proof. intros Hok. unfold handleSubmit. simpl. by rewrite Hok. Qed.

(** C19: a submit whose request is answered with a status that is not 2xx
    ends at once: the error is logged to the console only, the error
    message on screen and the list stay as they were, and the form is
    emptied all the same. *)
Theorem handleSubmit_http_error s w resp :
  ok resp = false →
  exec [FetchSettled (Fulfilled resp)] (handleSubmit API_URL s) w
  = (World (cleared (ui w)) (localStorage w)
           (trace w ++ [IoPreventDefault;
                        IoRequest (submit_request API_URL s w);
                        IoConsoleError
                          [error_value
                             (Error ("HTTP error! status: " +:+
                                     show_Z (status resp)))]]),
     Done ()).
Proof.
  intros Hok. unfold handleSubmit. simpl. rewrite Hok. run_eq.
Qed.

(** C40: a submit whose request and whose list request both succeed ends
    with the list replaced by the new page content, the flags cleared and
    the form emptied. *)
Theorem handleSubmit_success s w resp resp' data :
  ok resp = true → ok resp' = true →
  let r := exec [FetchSettled (Fulfilled resp); FetchSettled (Fulfilled resp');
                 JsonSettled (Fulfilled data)] (handleSubmit API_URL s) w in
  ended r = true ∧ ui r.1 = cleared (listed (content_of data) None (ui w)).
Proof.
  intros Hok Hok'. unfold handleSubmit, fetchCustomers. simpl.
  rewrite Hok. simpl. rewrite Hok'. simpl.
  rewrite <- content_of_spec. by destruct (_ && _).
Qed.

Lemma read_member_app key v rest :
  read_member key (quote key +:+ ":" +:+ quote v +:+ rest) = Some (v, rest).
Proof.
  unfold read_member. rewrite <- (append_assoc (quote key) ":").
  rewrite expect_app. simpl. apply read_quoted_quote.
Qed.

(** The body written for four strings is read back as these strings. *)
Lemma payload_reads s w name mail phone type :
  customerName s = JStr name → email s = JStr mail →
  phoneNumber s = JStr phone → customerType s = JStr type →
  req_body (submit_request API_URL s w) ≫= read_body
  = Some (name, mail, phone, type).
Proof.
  intros Hn He Hp Ht. unfold submit_request, payload. simpl.
  rewrite Hn, He, Hp, Ht.
  rewrite !JSON_stringify_str. simpl. unfold read_body.
  rewrite expect_app. simpl. rewrite !append_assoc.
  by repeat (rewrite read_member_app; simpl; change ("" +:+ ?x) with x).
Qed.

(** C20: when the four form fields hold strings, the body of the request
    of a submit is a JSON object from which exactly these four strings are
    read back, whatever characters they contain. *)
Theorem payload_read_back s w name mail phone type :
  customerName s = JStr name → email s = JStr mail →
  phoneNumber s = JStr phone → customerType s = JStr type →
  req_body (submit_request API_URL s w) ≫= read_body
  = Some (name, mail, phone, type).
Proof. apply payload_reads. Qed.

(** *** [handleDelete] *)

(** C21: [handleDelete] sends a DELETE for the record's URL; after a 2xx
    answer it asks for the list again, for the page of its closure; after
    any other answer it logs the error and changes nothing on screen. *)
Theorem handleDelete_spec s w id resp :
  let w1 := emit (IoRequest (delete_request API_URL id w)) w in
  awaited_request (run (handleDelete API_URL s id) w)
  = Some (delete_request API_URL id w) ∧
  (run (handleDelete API_URL s id) w).1 = w1 ∧
  (ok resp = true →
   awaited_request
     (exec [FetchSettled (Fulfilled resp)] (handleDelete API_URL s id) w)
   = Some (list_request API_URL s w1)) ∧
  (ok resp = false →
   exec [FetchSettled (Fulfilled resp)] (handleDelete API_URL s id) w
   = (emit (IoConsoleError
              [error_value
                 (Error ("HTTP error! status: " +:+ show_Z (status resp)))])
           w1, Done ())).
Proof.
  unfold handleDelete. simpl.
  split_and!; [done..| |]; intros Hok; by rewrite Hok.
Qed.

(** *** [handleEdit] *)

(** C22: [handleEdit] of a record makes it the edit target and copies its
    name, email, phone number and type into the form (absent members as
    [undefined]); called with [null] or [undefined] it sets the edit
    target and then throws a [TypeError]. *)
Theorem handleEdit_spec customer w :
  run (handleEdit customer) w
  = if nullish customer
    then (set_ui (apply_setter (setCustomerEdit customer)) w,
          Failed (TypeError_read customer "name"))
    else (set_ui (editing customer) w, Done ()).
Proof. by destruct customer. Qed.

(** *** [handleEdit], then [handleSubmit] *)

(** The form after an edit of any value but [null] and [undefined]. *)
Lemma handleEdit_run customer w :
  nullish customer = false →
  run (handleEdit customer) w = (set_ui (editing customer) w, Done ()).
Proof. by destruct customer. Qed.

(** C35: a record opened for edit and submitted unchanged is sent back as
    it came: to the URL of its [id], with the members among [name],
    [email], [phoneNumber] and [customerType] that the record has.  A
    member the record lacks is [undefined] in the form, and
    [JSON.stringify] leaves it out of the body, so the body need not hold
    the four members.  A value that is falsy without being [null] or
    [undefined] is sent as a new record. *)
Theorem edit_then_submit customer w :
  nullish customer = false →
  let w1 := (run (handleEdit customer) w).1 in
  awaited_request (run (handleSubmit API_URL (ui w1)) w1)
  = Some {| req_method := if truthy customer then PUT else POST;
            req_url := if truthy customer
                       then record_url API_URL (get_field customer "id")
                       else collection_url API_URL;
            req_headers := [("Content-Type", "application/json");
                            auth_header w];
            req_body :=
              JSON_stringify
                (JObj (filter (λ kv, kv.2 ≠ JUndefined)
                         ((λ k, (k, get_field customer k)) <$>
                          ["name"; "email"; "phoneNumber"; "customerType"])));
            req_cache := None |}.
Proof.
  intros Hc. rewrite handleEdit_run by done. cbv zeta. simpl.
  rewrite <- JSON_stringify_defined. unfold submit_method, submit_url. simpl.
  by destruct (truthy customer).
Qed.

(** *** Pagination *)

(** C23: from a page within the pages, "next" moves to the following page
    but not past the last, "previous" to the preceding page but not before
    the first, and "go to" moves to the page asked for exactly when it is
    one of the pages. *)
Theorem pagination_clamped w n :
  page_ok (ui w) →
  page (ui (run (handleNext (ui w)) w).1) = Z.min (page (ui w) + 1) totalPages ∧
  page (ui (run (handlePrevious (ui w)) w).1) = Z.max (page (ui w) - 1) 1 ∧
  page (ui (run (goToPage (ui w) n) w).1)
  = (if decide (1 ≤ n ≤ totalPages) then n else page (ui w)).
Proof.
  unfold page_ok, handleNext, handlePrevious, goToPage, totalPages.
  intros Hp. split_and!.
  - case_test; simpl; lia.
  - case_test; simpl; lia.
  - rewrite Z.geb_leb. case_decide; case_test; simpl; lia.
Qed.

(** *** Suspensions *)

(** [fetchCustomers] suspends at most twice, [handleSubmit] and
    [handleDelete] at most three times, whatever the answers: every call
    ends once its promises have settled. *)
Theorem awaits_bounds s id :
  awaits_le 2 (fetchCustomers API_URL s) ∧
  awaits_le 3 (handleSubmit API_URL s) ∧
  awaits_le 3 (handleDelete API_URL s id).
Proof.
  unfold handleSubmit, handleDelete, fetchCustomers. wp_steps; done.
Qed.

End component_facts.

(** ** Witnesses *)

Lemma fetchCustomers_success_witness :
  exec [FetchSettled (Fulfilled (Response 200));
        JsonSettled (Fulfilled example_body)]
       (fetchCustomers example_url init_state) example_world
  = (fetch_succeeded example_url init_state example_world example_body, Done ()).
Proof.
  exact (fetchCustomers_success example_url init_state example_world
           (Response 200) example_body eq_refl).
Defined.

Lemma fetchCustomers_http_error_witness :
  exec [FetchSettled (Fulfilled (Response 500))]
       (fetchCustomers example_url init_state) example_world
  = (fetch_failed example_url init_state example_world
       (Error ("HTTP error! status:" +:+ show_Z 500)), Done ()).
Proof.
  exact (fetchCustomers_http_error example_url init_state example_world
           (Response 500) eq_refl).
Defined.

Lemma fetchCustomers_bad_json_witness :
  exec [FetchSettled (Fulfilled (Response 200));
        JsonSettled (Rejected (JsError "SyntaxError" "Unexpected token <"))]
       (fetchCustomers example_url init_state) example_world
  = (fetch_failed example_url init_state example_world
       (JsError "SyntaxError" "Unexpected token <"), Done ()).
Proof.
  exact (fetchCustomers_bad_json example_url init_state example_world
           (Response 200) _ eq_refl).
Defined.

Lemma handleSubmit_refetches_witness :
  awaited_request
    (exec [FetchSettled (Fulfilled (Response 201))]
          (handleSubmit example_url init_state) example_world)
  = Some (list_request example_url init_state example_world).
Proof.
  exact (proj1 (handleSubmit_refetches example_url init_state example_world
                  (Response 201) eq_refl)).
Defined.

Lemma handleSubmit_http_error_witness :
  ui (exec [FetchSettled (Fulfilled (Response 409))]
           (handleSubmit example_url init_state) example_world).1
  = cleared init_state.
Proof.
  exact (f_equal (ui ∘ fst)
           (handleSubmit_http_error example_url init_state example_world
              (Response 409) eq_refl)).
Defined.

Lemma handleSubmit_success_witness :
  ui (exec [FetchSettled (Fulfilled (Response 201));
            FetchSettled (Fulfilled (Response 200));
            JsonSettled (Fulfilled example_body)]
           (handleSubmit example_url init_state) example_world).1
  = cleared (listed [example_customer] None init_state).
Proof.
  exact (proj2 (handleSubmit_success example_url init_state example_world
                  (Response 201) (Response 200) example_body eq_refl eq_refl)).
Defined.

Lemma payload_read_back_witness :
  req_body (submit_request example_url
              (apply_setter (setCustomerName (JStr "Ann \ O'Hara")) init_state)
              example_world) ≫= read_body
  = Some ("Ann \ O'Hara", "", "", "INDIVIDUAL").
Proof.
  exact (payload_read_back example_url
           (apply_setter (setCustomerName (JStr "Ann \ O'Hara")) init_state)
           example_world "Ann \ O'Hara" "" "" "INDIVIDUAL"
           eq_refl eq_refl eq_refl eq_refl).
Defined.

Lemma pagination_clamped_witness :
  page (ui (run (handleNext init_state) example_world).1) = 2 ∧
  page (ui (run (handlePrevious init_state) example_world).1) = 1 ∧
  page (ui (run (goToPage init_state 6) example_world).1) = 1.
Proof.
  apply (pagination_clamped example_world 6). unfold page_ok, totalPages.
  simpl. lia.
Defined.

Lemma edit_then_submit_witness :
  let w1 := (run (handleEdit partial_customer) example_world).1 in
  awaited_request (run (handleSubmit example_url (ui w1)) w1)
  = Some {| req_method := PUT;
            req_url := record_url example_url (JNum 7);
            req_headers := [("Content-Type", "application/json");
                            ("Authorization", "Bearer t0k3n")];
            req_body := Some ("{" +:+ quote "name" +:+ ":" +:+ quote "A" +:+ "}");
            req_cache := None |}.
Proof.
  exact (edit_then_submit example_url partial_customer example_world eq_refl).
Defined.
