(* ===== verification/EventLoop.v ===== *)
(** * The component [Customers] at run time

    A configuration holds the table of tasks (with the world: React state,
    [localStorage], output trace) and the value of [page] that the
    [useEffect] of lines 56-58 saw last.  One step is one turn of the
    browser's event loop:

    - a user event calls the handler that the last render created, that is,
      the handler applied to the current state, and runs it up to its first
      suspension;
    - a settled promise resumes the task that awaits it, up to its next
      suspension or its end;

    and after either, React renders and runs the effect when [page] differs
    from the value the effect saw last: a new call of [fetchCustomers],
    closed over the state just rendered.

    [mount] is the configuration after the first render and its effect.
    [reachable] closes it under steps; the user may trigger any handler with
    any argument, and the environment may settle any awaited promise in any
    order with any answer.  An environment that keeps doing so
    ([loop_responsive]) is given as a function of the configuration;
    [settle_all] runs its choices.

    The invariants follow from the soundness of the task logic ([Tasks]):
    every function of the component satisfies [task_wp] for the rely and
    guarantee [guar] (no task writes [localStorage], output is only added,
    a page number within the pages stays within them). *)

From stdpp Require Import gmap.
From S2P Require Import Prelude JsValue Json Proc Tasks Http Customers.

(** ** Events *)

Inductive user_event : Type :=
| ClickNext
| ClickPrevious
| ClickPage (pageNumber : Z)
| SubmitForm
| ClickDelete (id : jsval)
| ClickEdit (customer : jsval)
| ChangeSearch (value : string)
| ChangeCustomerName (value : string)
| ChangeEmail (value : string)
| ChangePhoneNumber (value : string)
| ChangeCustomerType (value : string).

#[global] Instance user_event_eq_dec : EqDecision user_event.
Proof. solve_decision. Defined.

(** What started a task: the effect, or a user event. *)
Inductive origin : Type :=
| FromEffect
| FromUser (ev : user_event).

#[global] Instance origin_eq_dec : EqDecision origin.
Proof. solve_decision. Defined.

Inductive event : Type :=
| User (ev : user_event)
| Settle (id : nat) (ans : answer).

Record config : Type := Config {
  tasks_of : pool eff js_error world origin;
  seen_page : Z;
}.

Definition world_now (c : config) : world := world_of (tasks_of c).
Definition state_now (c : config) : state := ui (world_now c).

Section loop.
Context (API_URL : jsval).

(** The handler a render with state [s] attaches to each event. *)
Definition handler (s : state) (ev : user_event) : task unit :=
  match ev with
  | ClickNext => handleNext s
  | ClickPrevious => handlePrevious s
  | ClickPage n => goToPage s n
  | SubmitForm => handleSubmit API_URL s
  | ClickDelete id => handleDelete API_URL s id
  | ClickEdit customer => handleEdit customer
  | ChangeSearch v => onSearchChange v
  | ChangeCustomerName v => onCustomerNameChange v
  | ChangeEmail v => onEmailChange v
  | ChangePhoneNumber v => onPhoneNumberChange v
  | ChangeCustomerType v => onCustomerTypeChange v
  end.

(** Lines 56-58: [useEffect(() => { fetchCustomers(); }, [page])]. *)
Definition useEffect_page (c : config) : config :=
  if decide (page (state_now c) = seen_page c) then c
  else Config (start FromEffect (fetchCustomers API_URL (state_now c))
                     (tasks_of c))
              (page (state_now c)).

(** The first render, with the stored key-value pairs [storage], and its
    effect. *)
Definition mount (storage : gmap string string) : config :=
  Config (start FromEffect (fetchCustomers API_URL init_state)
                (Pool (World init_state storage []) ∅ 0%nat []))
         (page init_state).

Definition step (c : config) (ev : event) : option config :=
  match ev with
  | User u =>
      Some (useEffect_page
              (Config (start (FromUser u) (handler (state_now c) u) (tasks_of c))
                      (seen_page c)))
  | Settle id ans =>
      pool' ← resume id ans (tasks_of c);
      Some (useEffect_page (Config pool' (seen_page c)))
  end.

Fixpoint steps (c : config) (evs : list event) : option config :=
  match evs with
  | [] => Some c
  | ev :: evs' => c' ← step c ev; steps c' evs'
  end.

Inductive reachable (storage : gmap string string) : config → Prop :=
| reachable_mount : reachable storage (mount storage)
| reachable_step c ev c' :
    reachable storage c → step c ev = Some c' → reachable storage c'.

(** The environment chooses which promise settles next and how, from
    what it sees of the configuration.  It is responsive when, in every
    configuration the component reaches with a task suspended, it settles
    the promise of one of them, with an answer of the kind awaited. *)
Definition loop_responsive (storage : gmap string string)
    (env : config → nat * answer) : Prop :=
  ∀ c, reachable storage c → tasks (tasks_of c) ≠ ∅ →
    ∃ t, tasks (tasks_of c) !! (env c).1 = Some t ∧
         is_Some (deliver (awaited t) (env c).2).

(** The configuration after [n] settlements chosen by [env], or fewer when
    one of them is not taken. *)
Fixpoint settle_all (n : nat) (env : config → nat * answer) (c : config)
    : config :=
  match n with
  | O => c
  | S n' =>
      match step c (Settle (env c).1 (env c).2) with
      | Some c' => settle_all n' env c'
      | None => c
      end
  end.

End loop.

(** The environment in which nothing succeeds: the promise of the
    suspended task with the least number is rejected with [x]. *)
Definition rejecting (x : js_error) (c : config) : nat * answer :=
  match map_to_list (tasks (tasks_of c)) with
  | (id, t) :: _ =>
      (id, match deliver (awaited t) (FetchSettled (Rejected x)) with
           | Some _ => FetchSettled (Rejected x)
           | None => JsonSettled (Rejected x)
           end)
  | [] => (0%nat, FetchSettled (Rejected x))
  end.

(** ** What each task achieves

    - the task of the effect ends with the loading flag cleared;
    - a submit ends with the form reset;
    - an edit ends with the form showing the record;
    - the only exception that escapes a task is the [TypeError] of an edit
      of [null] or [undefined]. *)

Definition mirrors (customer : jsval) (s : state) : Prop :=
  customerEdit s = customer ∧
  customerName s = get_field customer "name" ∧
  email s = get_field customer "email" ∧
  phoneNumber s = get_field customer "phoneNumber" ∧
  customerType s = get_field customer "customerType".

Definition Post (tg : origin) (w : world) : Prop :=
  match tg with
  | FromEffect => isLoading (ui w) = false
  | FromUser SubmitForm => form_reset (ui w)
  | FromUser (ClickEdit customer) => mirrors customer (ui w)
  | FromUser _ => True
  end.

Definition Fail (tg : origin) (x : js_error) : Prop :=
  match tg with
  | FromUser (ClickEdit customer) =>
      nullish customer = true ∧ x = TypeError_read customer "name"
  | _ => False
  end.

(** Every task of the table keeps the guarantee [G] under interference
    within [G] and achieves [Post], and every exception that escaped was
    allowed by [Fail]. *)
Definition sound (G : relation world) (Post : origin → world → Prop)
    (Fail : origin → js_error → Prop) (c : config) : Prop :=
  obliged G G Post Fail (tasks_of c) ∧ failures_allowed Fail (tasks_of c).

(** The invariant of the event loop. *)
Definition inv (storage : gmap string string) (c : config) : Prop :=
  sound guar Post Fail c ∧
  fresh_ids (tasks_of c) ∧
  page_ok (state_now c) ∧
  seen_page c = page (state_now c) ∧
  localStorage (world_now c) = storage.

(** How often the events [evs] resume task [id]. *)
Fixpoint settles (id : nat) (evs : list event) : nat :=
  match evs with
  | [] => 0
  | Settle id' _ :: evs' => (if decide (id' = id) then 1 else 0) + settles id evs'
  | User _ :: evs' => settles id evs'
  end.

(** ** Concrete runs: definitions *)

(** Five clicks on "next" from the first page. *)
Definition five_nexts : option config :=
  steps example_url (mount example_url example_storage)
        (replicate 5 (User ClickNext)).

(** The configuration after the events [evs] from the mount (the mount
    itself when some event does not apply). *)
Definition after (evs : list event) : config :=
  default (mount example_url example_storage)
          (steps example_url (mount example_url example_storage) evs).

Definition other_customer : jsval :=
  JObj [("id", JNum 11); ("name", JStr "B"); ("email", JStr "b@x.com");
        ("phoneNumber", JStr "556"); ("customerType", JStr "INDIVIDUAL")].

Definition page_1_body : jsval := example_body.
Definition page_2_body : jsval := JObj [("content", JArr [other_customer])].

Definition settle_list (id : nat) (body : jsval) : list event :=
  [Settle id (FetchSettled (Fulfilled (Response 200)));
   Settle id (JsonSettled (Fulfilled body))].

(** ** Soundness of a step, for any guarantee

    If [fetchCustomers] and the handler called keep the guarantee [G] under
    interference within [G] and achieve [Post], then a step keeps every
    task of the table obliged to do so, and changes the world within
    [G]. *)

Section soundness.
Context (API_URL : jsval) (G : relation world) `{!PreOrder G}.
Context (Post : origin → world → Prop) (Fail : origin → js_error → Prop).
Context (Heffect : ∀ s w,
  task_wp G G Post Fail FromEffect (fetchCustomers API_URL s) w).
Implicit Types (c : config) (w : world) (s : state).

#[local] Abbreviation Sound := (sound G Post Fail).

Lemma start_step tg p c :
  Sound c → task_wp G G Post Fail tg p (world_now c) →
  Sound (Config (start tg p (tasks_of c)) (seen_page c)) ∧
  G (world_now c) (world_of (start tg p (tasks_of c))).
Proof.
  intros [Hob Hfail] Hwp.
  destruct (start_sound G G (λ _ _ H, H) Post Fail tg p (tasks_of c))
    as (? & ? & ?); done.
Qed.

Lemma useEffect_page_sound c :
  Sound c →
  Sound (useEffect_page API_URL c) ∧
  G (world_now c) (world_now (useEffect_page API_URL c)).
Proof.
  intros Hc. unfold useEffect_page. case_decide; [done|].
  by destruct (start_step FromEffect (fetchCustomers API_URL (state_now c)) c).
Qed.

Lemma mount_sound storage :
  Sound (mount API_URL storage) ∧
  G (World init_state storage []) (world_now (mount API_URL storage)).
Proof.
  apply (start_step FromEffect (fetchCustomers API_URL init_state)
           (Config (Pool (World init_state storage []) ∅ 0%nat []) 1));
    [|apply Heffect].
  split; [|by constructor].
  intros id t Ht. simpl in Ht. by rewrite lookup_empty in Ht.
Qed.

Lemma step_sound c ev c' :
  Sound c →
  (∀ u, ev = User u →
        task_wp G G Post Fail (FromUser u)
                (handler API_URL (state_now c) u) (world_now c)) →
  step API_URL c ev = Some c' →
  Sound c' ∧ G (world_now c) (world_now c').
Proof.
  intros Hc Hu. destruct ev as [u|id ans]; simpl.
  - intros [= <-].
    destruct (start_step (FromUser u) (handler API_URL (state_now c) u) c)
      as [Hc1 HG1]; [by auto..|].
    destruct (useEffect_page_sound _ Hc1) as [? HG2].
    split; [done|]. by etrans.
  - destruct (resume id ans (tasks_of c)) as [p'|] eqn:Hres; [|done].
    intros [= <-]. destruct Hc as [Hob Hfail].
    destruct (resume_sound G G (λ _ _ H, H) Post Fail _ _ _ _ Hob Hfail Hres)
      as (Hob' & Hfail' & HG1).
    destruct (useEffect_page_sound (Config p' (seen_page c))) as [? HG2];
      [done|].
    split; [done|]. by etrans.
Qed.

End soundness.

(** ** Bookkeeping of a step *)

Section bookkeeping.
Context (API_URL : jsval).
Implicit Types (c : config).

(** The first segment of [fetchCustomers]: the flags are set and the
    request for the closure's page is sent with the stored token. *)
Lemma start_fetchCustomers_world tg s (p : pool eff js_error world origin) :
  world_of (start tg (fetchCustomers API_URL s) p)
  = emit (IoRequest (list_request API_URL s (world_of p)))
         (set_ui loading (world_of p)).
Proof. done. Qed.

(** After the effect, the page it has seen is the page of the state. *)
Lemma useEffect_page_seen c :
  seen_page (useEffect_page API_URL c)
  = page (state_now (useEffect_page API_URL c)).
Proof. unfold useEffect_page. by case_decide. Qed.

(** The effect leaves the page as it is, and does nothing when it has seen
    the page of the state. *)
Lemma useEffect_page_page c :
  page (state_now (useEffect_page API_URL c)) = page (state_now c).
Proof. unfold useEffect_page. by case_decide. Qed.

Lemma useEffect_page_idle c :
  page (state_now c) = seen_page c → useEffect_page API_URL c = c.
Proof. intros Hp. unfold useEffect_page. by rewrite decide_True. Qed.

Lemma step_seen c ev c' :
  step API_URL c ev = Some c' → seen_page c' = page (state_now c').
Proof.
  destruct ev as [u|id ans]; simpl.
  - intros [= <-]. apply useEffect_page_seen.
  - destruct (resume _ _ _); intros [= <-]. apply useEffect_page_seen.
Qed.

Lemma useEffect_page_fresh c :
  fresh_ids (tasks_of c) → fresh_ids (tasks_of (useEffect_page API_URL c)).
Proof. unfold useEffect_page. case_decide; [done|]. apply start_fresh. Qed.

Lemma step_fresh c ev c' :
  fresh_ids (tasks_of c) → step API_URL c ev = Some c' →
  fresh_ids (tasks_of c').
Proof.
  intros Hc. destruct ev as [u|id ans]; simpl.
  - intros [= <-]. by apply useEffect_page_fresh, start_fresh.
  - destruct (resume _ _ _) eqn:Hres; intros [= <-].
    apply useEffect_page_fresh. by eapply resume_fresh.
Qed.

End bookkeeping.

(** ** Every call ends

    No function of the component suspends more than three times, so no
    task is resumed more than three times, in any interleaving. *)

Section budget.
Context (API_URL : jsval).
Implicit Types (c : config) (k : nat → nat).

Lemma handler_awaits s u : awaits_le 3 (handler API_URL s u).
Proof.
  destruct u; simpl;
    unfold handleNext, handlePrevious, goToPage, handleSubmit, handleDelete,
      handleEdit, fetchCustomers;
    try destruct customer; wp_steps; done.
Qed.

Lemma fetchCustomers_awaits s : awaits_le 3 (fetchCustomers API_URL s).
Proof. unfold fetchCustomers. wp_steps; done. Qed.

Lemma useEffect_page_budget k c :
  fresh_ids (tasks_of c) → within_budget 3 k (tasks_of c) →
  within_budget 3 k (tasks_of (useEffect_page API_URL c)).
Proof.
  intros Hf Hk. unfold useEffect_page. case_decide; [done|].
  by apply start_budget; [apply fetchCustomers_awaits|..].
Qed.

Lemma step_budget k c ev c' :
  fresh_ids (tasks_of c) → within_budget 3 k (tasks_of c) →
  step API_URL c ev = Some c' →
  within_budget 3 (λ id, k id + settles id [ev])%nat (tasks_of c').
Proof.
  intros Hf Hk. destruct ev as [u|id ans]; simpl.
  - intros [= <-]. apply (within_budget_ext 3 k); [intros; lia|].
    apply useEffect_page_budget; [by apply start_fresh|].
    by apply start_budget; [apply handler_awaits|..].
  - destruct (resume id ans (tasks_of c)) as [p'|] eqn:Hres; [|done].
    intros [= <-]. apply (within_budget_ext 3 (bump id k)).
    { intros id'. unfold bump. repeat case_decide; subst; lia. }
    apply useEffect_page_budget; [by eapply resume_fresh|].
    by eapply resume_budget.
Qed.

Lemma steps_budget evs k c c' :
  fresh_ids (tasks_of c) → within_budget 3 k (tasks_of c) →
  steps API_URL c evs = Some c' →
  within_budget 3 (λ id, k id + settles id evs)%nat (tasks_of c').
Proof.
  revert k c. induction evs as [|ev evs IH]; intros k c Hf Hk; simpl.
  { intros [= <-]. apply (within_budget_ext 3 k); [intros; lia|done]. }
  destruct (step API_URL c ev) as [c1|] eqn:Hstep; [|done]. simpl.
  intros Hsteps.
  apply (within_budget_ext 3
           (λ id, (k id + settles id [ev]) + settles id evs)%nat).
  { intros id. destruct ev; simpl; lia. }
  apply (IH _ c1); [by eapply step_fresh|by apply (step_budget k c)|done].
Qed.

Lemma mount_budget storage :
  fresh_ids (tasks_of (mount API_URL storage)) ∧
  within_budget 3 (λ _, 0%nat) (tasks_of (mount API_URL storage)).
Proof.
  assert (fresh_ids (Pool (World init_state storage []) ∅ 0%nat []
                       : pool eff js_error world origin)) as Hf.
  { intros id [t Ht]. simpl in Ht. by rewrite lookup_empty in Ht. }
  unfold mount. simpl. split; [by apply start_fresh|].
  apply start_budget; [apply fetchCustomers_awaits|done|].
  intros id. split_and!; [lia|done|].
  intros [t Ht]. simpl in Ht. by rewrite lookup_empty in Ht.
Qed.

(** C34: in no run of the component is a task resumed more than three
    times: every call of a function of the component ends once at most
    three promises have settled, whatever else happens in between. *)
Theorem settles_bound storage evs c id :
  steps API_URL (mount API_URL storage) evs = Some c →
  (settles id evs ≤ 3)%nat.
Proof.
  intros Hsteps. destruct (mount_budget storage) as [Hf Hk].
  by destruct (steps_budget evs _ _ _ Hf Hk Hsteps id) as [? _].
Qed.

End budget.

(** ** Invariants of the reachable configurations *)

Section invariants.
Context (API_URL : jsval).
Implicit Types (c : config) (w : world) (s : state).

#[local] Abbreviation Twp := (task_wp guar guar Post Fail).

Lemma fetchCustomers_task s w : Twp FromEffect (fetchCustomers API_URL s) w.
Proof. unfold task_wp, fetchCustomers. wp_steps; solve_guar. Qed.

Lemma handleEdit_task customer w :
  Twp (FromUser (ClickEdit customer)) (handleEdit customer) w.
Proof.
  unfold task_wp, handleEdit, mirrors.
  destruct customer; wp_steps; solve_guar.
Qed.

(** Every handler, called from a render whose page number is within the
    pages, achieves what [Post] says of its event. *)
Lemma handler_task u w :
  page_ok (ui w) → Twp (FromUser u) (handler API_URL (ui w) u) w.
Proof.
  intros Hpage. destruct u; simpl; try apply handleEdit_task.
  all: unfold task_wp, handleNext, handlePrevious, goToPage, handleSubmit,
         handleDelete, fetchCustomers, form_reset.
  all: wp_steps; solve_guar.
Qed.

Lemma mount_inv storage : inv storage (mount API_URL storage).
Proof.
  destruct (mount_sound API_URL guar Post Fail fetchCustomers_task storage)
    as [Hs (HLS & _ & Hpage)].
  split_and!; [done| |by apply Hpage|done|done].
  apply start_fresh. intros id [t Ht]. simpl in Ht.
  by rewrite lookup_empty in Ht.
Qed.

Lemma step_inv storage c ev c' :
  inv storage c → step API_URL c ev = Some c' → inv storage c'.
Proof.
  intros (Hs & Hfresh & Hpage & Hseen & Hst) Hstep.
  destruct (step_sound API_URL guar Post Fail fetchCustomers_task c ev c')
    as [Hs' (HLS & _ & Hpage')]; [done|by intros; apply handler_task|done|].
  split_and!; [done|by eapply step_fresh|by auto|by eapply step_seen|].
  by rewrite HLS.
Qed.

Lemma reachable_inv storage c : reachable API_URL storage c → inv storage c.
Proof. induction 1; eauto using mount_inv, step_inv. Qed.

(** C1: in every configuration the component can reach, whatever the user
    clicks and however the network answers, the page number is one of the
    pages 1 to [totalPages]. *)
Theorem reachable_page_ok storage c :
  reachable API_URL storage c → 1 ≤ page (state_now c) ≤ totalPages.
Proof. intros Hc. by apply (reachable_inv storage c). Qed.

(** C39: the only exceptions that escape a task of the component are the
    [TypeError]s of an edit called with [null] or [undefined]; every other
    failure is caught by the function in which it arises. *)
Theorem reachable_uncaught storage c tg x :
  reachable API_URL storage c →
  (tg, x) ∈ uncaught (tasks_of c) →
  ∃ customer, tg = FromUser (ClickEdit customer) ∧ nullish customer = true ∧
              x = TypeError_read customer "name".
Proof.
  intros ([_ Hfail] & _)%reachable_inv Hin.
  apply (proj1 (Forall_forall _ _) Hfail) in Hin. simpl in Hin.
  destruct tg as [|[]]; try done. destruct Hin; eauto.
Qed.

(** The component never writes the persisted store: in every
    reachable configuration it holds what it held at mount, so every
    request carries the token that was stored then. *)
Theorem reachable_localStorage storage c :
  reachable API_URL storage c → localStorage (world_now c) = storage.
Proof. intros Hc. by apply (reachable_inv storage c). Qed.

End invariants.

(** ** Concrete runs *)

Lemma steps_reachable url storage evs c c' :
  reachable url storage c → steps url c evs = Some c' → reachable url storage c'.
Proof.
  revert c. induction evs as [|ev evs IH]; simpl; intros c Hc; [by intros [= <-]|].
  destruct (step url c ev) as [c1|] eqn:Hstep; [|done].
  simpl. eauto using reachable_step.
Qed.

Lemma after_reachable evs : reachable example_url example_storage (after evs).
Proof.
  unfold after. destruct (steps _ _ evs) as [c|] eqn:Hc; simpl.
  - eapply steps_reachable; [apply reachable_mount|exact Hc].
  - apply reachable_mount.
Qed.

Lemma steps_app url c evs evs' :
  steps url c (evs ++ evs') = steps url c evs ≫= λ c', steps url c' evs'.
Proof.
  revert c. induction evs as [|ev evs IH]; intros c; [done|]. simpl.
  destruct (step url c ev) as [c1|]; [|done]. apply IH.
Qed.

Lemma steps_after evs :
  is_Some (steps example_url (mount example_url example_storage) evs) →
  steps example_url (mount example_url example_storage) evs = Some (after evs).
Proof. unfold after. by intros [c ->]. Qed.

(** A run that is taken, in two parts. *)
Lemma steps_after_app evs evs' :
  is_Some (steps example_url (mount example_url example_storage)
                 (evs ++ evs')) →
  steps example_url (after evs) evs' = Some (after (evs ++ evs')).
Proof.
  unfold after. rewrite steps_app. intros [c Hc]. rewrite Hc.
  by destruct (steps _ _ evs).
Qed.

Lemma step_after evs ev :
  is_Some (steps example_url (mount example_url example_storage)
                 (evs ++ [ev])) →
  step example_url (after evs) ev = Some (after (evs ++ [ev])).
Proof.
  intros Hs%steps_after_app. cbn [steps] in Hs.
  by destruct (step _ (after evs) ev).
Qed.

Lemma reachable_page_ok_witness :
  1 ≤ page (state_now (after (replicate 5 (User ClickNext)))) ≤ totalPages.
Proof.
  apply (reachable_page_ok example_url example_storage), after_reachable.
Defined.

Lemma settles_bound_witness :
  (settles 2 ([User ClickNext] ++ settle_list 2 page_2_body
                               ++ settle_list 0 page_1_body) ≤ 3)%nat.
Proof.
  eapply (settles_bound example_url example_storage), steps_after.
  apply (bool_decide_unpack _). vm_compute. exact I.
Defined.

Lemma reachable_uncaught_witness :
  ∃ customer,
    FromUser (ClickEdit JNull) = FromUser (ClickEdit customer) ∧
    nullish customer = true ∧
    TypeError_read JNull "name" = TypeError_read customer "name".
Proof.
  apply (reachable_uncaught example_url example_storage
           (after [User (ClickEdit JNull)])).
  - apply after_reachable.
  - vm_compute. apply list_elem_of_here.
Defined.

Lemma reachable_localStorage_witness :
  localStorage (world_now (after (replicate 5 (User ClickNext))))
  = example_storage.
Proof. apply (reachable_localStorage example_url), after_reachable. Defined.

(** After five clicks the page is the last one and five requests for the
    list have been sent: one on mount and one for each of the pages 2 to 5;
    the fifth click changes nothing. *)
Example five_nexts_page :
  (λ c, (page (state_now c), length (trace (world_now c)))) <$> five_nexts
  = Some (5, 5%nat).
Proof. vm_compute. reflexivity. Qed.
