(* ===== verification/Machine.v ===== *)
(** * The component [Customers] as a first-order state machine

    In [EventLoop] a suspended function is a closure: the rest of the
    JavaScript function, as a tree.  A function of [Customers.js] can only be
    suspended at one of three [await]s, so the closures that occur are
    described by a [phase]:

    - [Sending m s]: [handleSubmit] (line 84) or [handleDelete] (line 112),
      called from a render with state [s], awaits the answer to its
      request;
    - [Listing who s]: [fetchCustomers], called from a render with state
      [s], awaits the answer to the list request (line 28);
    - [Parsing who]: [fetchCustomers] awaits the body (line 41);

    where [who] says who called [fetchCustomers] and so what is left to do
    when it returns: nothing for the effect and for [handleDelete], the
    reset of the form (lines 102-106) for [handleSubmit].

    A [machine] is the configuration of the event loop with a phase in
    place of each closure.  [begin] says what a handler does up to its
    first [await], [advance] what a suspended function does when its
    promise settles, [machine_step] is one turn of the event loop.  All of
    it is first-order and decidable; [Refine] proves that the event loop of
    [EventLoop] and this machine move in lock step.

    On the machine:

    - [loading_inv]: when no call of [fetchCustomers] is under way, the
      loading flag is off;
    - [weight] bounds the settlements that the machine can still take:
      an environment that keeps settling pending promises, in any order and
      with any outcome ([responsive]), empties the table within [weight]
      turns ([drain]). *)

From stdpp Require Import gmap.
From S2P Require Import Prelude JsValue Json Proc Tasks Http Customers.
From S2P Require Import EventLoop.

(** ** Phases *)

(** The two handlers that send a request of their own: [handleSubmit],
    and [handleDelete] with its argument. *)
Inductive mutation : Type := Submit | Delete (id : jsval).

(** Who called [fetchCustomers]. *)
Inductive caller : Type := Effect | After (m : mutation).

Inductive phase : Type :=
| Sending (m : mutation) (s : state)
| Listing (who : caller) (s : state)
| Parsing (who : caller).

#[global] Instance mutation_eq_dec : EqDecision mutation.
Proof. solve_decision. Defined.
#[global] Instance caller_eq_dec : EqDecision caller.
Proof. solve_decision. Defined.
#[global] Instance phase_eq_dec : EqDecision phase.
Proof. solve_decision. Defined.

(** How a handler's first segment ends. *)
Inductive started : Type :=
| Finished
| Threw (x : js_error)
| Parked (ph : phase).

(** The await-s a function in phase [ph] has still to pass, this one
    included. *)
Definition rank (ph : phase) : nat :=
  match ph with
  | Sending _ _ => 3
  | Listing _ _ => 2
  | Parsing _ => 1
  end.

(** A call of [fetchCustomers] is under way. *)
Definition lists (ph : phase) : bool :=
  match ph with Sending _ _ => false | Listing _ _ | Parsing _ => true end.

(** The answer is one to the promise that phase [ph] awaits. *)
Definition fits (ph : phase) (ans : answer) : bool :=
  match ph, ans with
  | (Sending _ _ | Listing _ _), FetchSettled _ => true
  | Parsing _, JsonSettled _ => true
  | _, _ => false
  end.

Record machine : Type := Machine {
  now : world;
  pending : gmap nat phase;
  fresh : nat;
  escaped : list (origin * js_error);
  effect_page : Z;
}.

Section machine.
Context (API_URL : jsval).

(** ** Segments of [fetchCustomers] *)

(** Lines 22-36: the flags are set and the list request is sent. *)
Definition begin_list (s : state) (w : world) : world :=
  World (loading (ui w)) (localStorage w)
        (trace w ++ [IoRequest (list_request API_URL s w)]).

(** Lines 48-53: the [catch] and [finally] blocks. *)
Definition list_failed (x : js_error) (w : world) : world :=
  World (listed (customers (ui w)) (Some (err_message x)) (ui w))
        (localStorage w) (trace w ++ [fetch_error_line x]).

(** Lines 43-47 and 52: the list is replaced and the flag cleared. *)
Definition list_arrived (data : jsval) (w : world) : world :=
  set_ui (listed (content_of data) (error (ui w))) w.

(** What the caller does when [fetchCustomers] has returned: lines
    102-106 in [handleSubmit]. *)
Definition returned (who : caller) (w : world) : world :=
  match who with
  | After Submit => set_ui cleared w
  | After (Delete _) | Effect => w
  end.

(** Lines 37-41. *)
Definition after_list_fetch (who : caller) (r : settled js_error response)
    (w : world) : world * option phase :=
  match r with
  | Fulfilled resp =>
      if ok resp then (w, Some (Parsing who))
      else (returned who
              (list_failed
                 (Error ("HTTP error! status:" +:+ show_Z (status resp))) w),
            None)
  | Rejected x => (returned who (list_failed x w), None)
  end.

(** Lines 41-53. *)
Definition after_list_json (who : caller) (r : settled js_error jsval)
    (w : world) : world * option phase :=
  match r with
  | Fulfilled data => (returned who (list_arrived data w), None)
  | Rejected x => (returned who (list_failed x w), None)
  end.

(** ** Segments of [handleSubmit] and [handleDelete] *)

(** Lines 71-93. *)
Definition begin_submit (s : state) (w : world) : world :=
  World (ui w) (localStorage w)
        (trace w ++ [IoPreventDefault; IoRequest (submit_request API_URL s w)]).

(** Lines 110-115. *)
Definition begin_delete (id : jsval) (w : world) : world :=
  emit (IoRequest (delete_request API_URL id w)) w.

(** Lines 98-100 and 118-120: the [catch] blocks. *)
Definition mutation_failed (x : js_error) (w : world) : world :=
  emit (IoConsoleError [error_value x]) w.

(** Lines 94-106 and 116-121. *)
Definition after_mutation (m : mutation) (s : state)
    (r : settled js_error response) (w : world) : world * option phase :=
  match r with
  | Fulfilled resp =>
      if ok resp then (begin_list s w, Some (Listing (After m) s))
      else (returned (After m)
              (mutation_failed
                 (Error ("HTTP error! status: " +:+ show_Z (status resp))) w),
            None)
  | Rejected x => (returned (After m) (mutation_failed x w), None)
  end.

(** The request whose answer a function in phase [ph] awaits, built in
    world [w]. *)
Definition request_of (ph : phase) (w : world) : option request :=
  match ph with
  | Sending Submit s => Some (submit_request API_URL s w)
  | Sending (Delete id) s => Some (delete_request API_URL id w)
  | Listing _ s => Some (list_request API_URL s w)
  | Parsing _ => None
  end.

(** ** The two moves of a function *)

(** The first segment of the handler of [u], called from the render of
    the current state. *)
Definition begin (u : user_event) (w : world) : world * started :=
  let s := ui w in
  match u with
  | ClickNext =>
      (if page s <? totalPages
       then set_ui (apply_setter (setPage (page s + 1))) w else w, Finished)
  | ClickPrevious =>
      (if page s >? 1
       then set_ui (apply_setter (setPage (page s - 1))) w else w, Finished)
  | ClickPage n =>
      (if (n >=? 1) && (n <=? totalPages)
       then set_ui (apply_setter (setPage n)) w else w, Finished)
  | SubmitForm => (begin_submit s w, Parked (Sending Submit s))
  | ClickDelete id => (begin_delete id w, Parked (Sending (Delete id) s))
  | ClickEdit customer =>
      if nullish customer
      then (set_ui (apply_setter (setCustomerEdit customer)) w,
            Threw (TypeError_read customer "name"))
      else (set_ui (editing customer) w, Finished)
  | ChangeSearch v => (set_ui (apply_setter (setSearchTerm v)) w, Finished)
  | ChangeCustomerName v =>
      (set_ui (apply_setter (setCustomerName (JStr v))) w, Finished)
  | ChangeEmail v => (set_ui (apply_setter (setEmail (JStr v))) w, Finished)
  | ChangePhoneNumber v =>
      (set_ui (apply_setter (setPhoneNumber (JStr v))) w, Finished)
  | ChangeCustomerType v =>
      (set_ui (apply_setter (setCustomerType (JStr v))) w, Finished)
  end.

(** The segment that follows the settlement [ans] in phase [ph]: the new
    world and the next phase, if the function suspends again.  [None] when
    [ans] is no answer to what [ph] awaits. *)
Definition advance (ph : phase) (ans : answer) (w : world)
    : option (world * option phase) :=
  match ph, ans with
  | Sending m s, FetchSettled r => Some (after_mutation m s r w)
  | Listing who _, FetchSettled r => Some (after_list_fetch who r w)
  | Parsing who, JsonSettled r => Some (after_list_json who r w)
  | _, _ => None
  end.

(** ** The event loop over phases *)

(** The table after task [id] ran a segment. *)
Definition settle_in (id : nat) (m : machine) (w : world)
    (next : option phase) : machine :=
  Machine w
    (match next with
     | Some ph => <[id := ph]> (pending m)
     | None => delete id (pending m)
     end)
    (fresh m) (escaped m) (effect_page m).

(** A call: the handler's first segment under a fresh number. *)
Definition call (tg : origin) (r : world * started) (m : machine) : machine :=
  match r.2 with
  | Finished =>
      Machine r.1 (delete (fresh m) (pending m)) (S (fresh m)) (escaped m)
              (effect_page m)
  | Threw x =>
      Machine r.1 (delete (fresh m) (pending m)) (S (fresh m))
              (escaped m ++ [(tg, x)]) (effect_page m)
  | Parked ph =>
      Machine r.1 (<[fresh m := ph]> (pending m)) (S (fresh m)) (escaped m)
              (effect_page m)
  end.

(** The effect has run for page [p]. *)
Definition saw (p : Z) (m : machine) : machine :=
  Machine (now m) (pending m) (fresh m) (escaped m) p.

(** Lines 56-58. *)
Definition effect (m : machine) : machine :=
  if decide (page (ui (now m)) = effect_page m) then m
  else saw (page (ui (now m)))
           (call FromEffect
              (begin_list (ui (now m)) (now m),
               Parked (Listing Effect (ui (now m)))) m).

Definition machine_mount (storage : gmap string string) : machine :=
  call FromEffect
    (begin_list init_state (World init_state storage []),
     Parked (Listing Effect init_state))
    (Machine (World init_state storage []) ∅ 0%nat [] (page init_state)).

(** A settlement: the next segment of task [id]. *)
Definition settle_task (id : nat) (ans : answer) (m : machine)
    : option machine :=
  ph ← pending m !! id;
  r ← advance ph ans (now m);
  Some (settle_in id m r.1 r.2).

Definition machine_step (m : machine) (ev : event) : option machine :=
  match ev with
  | User u => Some (effect (call (FromUser u) (begin u (now m)) m))
  | Settle id ans => effect <$> settle_task id ans m
  end.

Fixpoint machine_steps (m : machine) (evs : list event) : option machine :=
  match evs with
  | [] => Some m
  | ev :: evs' => m' ← machine_step m ev; machine_steps m' evs'
  end.

Inductive machine_reachable (storage : gmap string string)
    : machine → Prop :=
| machine_reachable_mount : machine_reachable storage (machine_mount storage)
| machine_reachable_step m ev m' :
    machine_reachable storage m → machine_step m ev = Some m' →
    machine_reachable storage m'.

(** ** Invariants *)

(** The task numbers in use are below the next fresh one. *)
Definition ids_fresh (m : machine) : Prop :=
  ∀ id, is_Some (pending m !! id) → (id < fresh m)%nat.

(** The effect has run for the current page. *)
Definition settled_page (m : machine) : Prop :=
  effect_page m = page (ui (now m)).

(** No call of [fetchCustomers] is under way. *)
Definition quiet (m : machine) : Prop :=
  map_Forall (λ _ ph, lists ph = false) (pending m).

(** When no call of [fetchCustomers] is under way the loading flag is
    off. *)
Definition loading_inv (m : machine) : Prop :=
  quiet m → isLoading (ui (now m)) = false.

Definition machine_inv (m : machine) : Prop :=
  ids_fresh m ∧ settled_page m ∧ loading_inv m.

(** ** Quiescence *)

(** The settlements a table can still take. *)
Definition total (p : gmap nat phase) : nat :=
  map_fold (λ _ ph n, (rank ph + n)%nat) 0%nat p.

Definition weight (m : machine) : nat := total (pending m).

(** An environment chooses which promise settles next and how.  It is
    responsive when, as long as some promise is pending, it settles one of
    them with an answer that fits. *)
Definition responsive (env : machine → nat * answer) : Prop :=
  ∀ m, pending m ≠ ∅ →
    ∃ ph, pending m !! (env m).1 = Some ph ∧ fits ph (env m).2 = true.

(** The events of [n] turns with the environment [env], from [m]. *)
Fixpoint drain_events (n : nat) (env : machine → nat * answer) (m : machine)
    : list event :=
  match n with
  | O => []
  | S n' =>
      if decide (pending m = ∅) then []
      else
        let ev := Settle (env m).1 (env m).2 in
        match machine_step m ev with
        | Some m' => ev :: drain_events n' env m'
        | None => []
        end
  end.

(** The machine after them. *)
Definition drain (n : nat) (env : machine → nat * answer) (m : machine)
    : machine :=
  default m (machine_steps m (drain_events n env m)).

End machine.

(** The environment in which every request fails: it rejects the promise
    of the least pending task. *)
Definition failing (x : js_error) (m : machine) : nat * answer :=
  match map_to_list (pending m) with
  | (id, Parsing _) :: _ => (id, JsonSettled (Rejected x))
  | (id, _) :: _ => (id, FetchSettled (Rejected x))
  | [] => (0%nat, FetchSettled (Rejected x))
  end.

(** The machine after the events [evs] from the mount of the example (the
    mount itself when some event does not apply). *)
Definition machine_after (evs : list event) : machine :=
  default (machine_mount example_url example_storage)
    (machine_steps example_url (machine_mount example_url example_storage) evs).

(** ** Facts about segments *)

Section segment_facts.
Context (API_URL : jsval).
Implicit Types (m : machine) (w : world) (ph : phase) (ans : answer).

(** An answer is taken exactly when it fits the phase. *)
Lemma advance_fits ph ans w :
  is_Some (advance API_URL ph ans w) ↔ fits ph ans = true.
Proof.
  destruct ph, ans; simpl; split; try done; by first [intros []|eauto].
Qed.

(** Each segment brings the function one [await] closer to its end. *)
Lemma advance_rank ph ans w w' ph' :
  advance API_URL ph ans w = Some (w', Some ph') → rank ph = S (rank ph').
Proof.
  destruct ph, ans as [[resp|x]|[data|x]]; simpl; try done;
    try destruct (ok resp); simpl; by intros [= <- <-].
Qed.

(** No segment after an [await] changes the page or the store. *)
Lemma advance_page ph ans w w' next :
  advance API_URL ph ans w = Some (w', next) →
  page (ui w') = page (ui w) ∧ localStorage w' = localStorage w.
Proof.
  destruct ph as [[|?] s|[|[|?]] ?|[|[|?]]], ans as [[resp|x]|[data|x]]; simpl;
    try done; try destruct (ok resp); simpl; by intros [= <- <-].
Qed.

(** What a segment does to the loading flag: a function that suspends
    again is inside [fetchCustomers]; one that ends clears the flag when it
    was inside [fetchCustomers] and leaves it alone otherwise. *)
Lemma advance_loading ph ans w w' next :
  advance API_URL ph ans w = Some (w', next) →
  match next with
  | Some ph' => lists ph' = true
  | None =>
      if lists ph then isLoading (ui w') = false
      else isLoading (ui w') = isLoading (ui w)
  end.
Proof.
  destruct ph as [[|?] s|[|[|?]] ?|[|[|?]]], ans as [[resp|x]|[data|x]]; simpl;
    try done; try destruct (ok resp); simpl; by intros [= <- <-].
Qed.

(** A handler's first segment leaves the loading flag alone and parks
    outside [fetchCustomers]. *)
Lemma begin_loading u w :
  isLoading (ui (begin API_URL u w).1) = isLoading (ui w) ∧
  match (begin API_URL u w).2 with
  | Parked ph => lists ph = false
  | _ => True
  end.
Proof. destruct u; simpl; repeat case_match; done. Qed.

End segment_facts.

(** ** Facts about the table *)

Section table_facts.
Implicit Types (p : gmap nat phase) (ph : phase).

Lemma rank_pos ph : (1 ≤ rank ph)%nat.
Proof. destruct ph; simpl; lia. Qed.

Lemma total_delete p id ph :
  p !! id = Some ph → total p = (rank ph + total (delete id p))%nat.
Proof.
  intros. by apply (map_fold_delete_L (λ _ ph n, (rank ph + n)%nat));
    [intros; lia|].
Qed.

Lemma total_insert p id ph :
  total (<[id:=ph]> p) = (rank ph + total (delete id p))%nat.
Proof.
  rewrite <- insert_delete_eq.
  apply (map_fold_insert_L (λ _ ph n, (rank ph + n)%nat));
    [intros; lia|apply lookup_delete_eq].
Qed.

(** A table of weight 0 is empty. *)
Lemma total_0 p : total p = 0%nat → p = ∅.
Proof.
  destruct (map_choose_or_empty p) as [(id & ph & Hid)|]; [|done].
  rewrite (total_delete _ _ _ Hid). pose proof (rank_pos ph). lia.
Qed.

(** No function awaits more than three promises. *)
Lemma total_bound p : (total p ≤ 3 * size p)%nat.
Proof.
  induction p as [|id ph p Hid _ IH] using map_first_key_ind.
  { done. }
  rewrite total_insert, map_size_insert_None, delete_id by done.
  destruct ph; simpl; lia.
Qed.

End table_facts.

(** ** Invariants of the machine *)

Section machine_facts.
Context (API_URL : jsval).
Implicit Types (m : machine) (w : world) (ph : phase) (ans : answer)
  (ev : event).

Lemma call_next tg r m : fresh (call tg r m) = S (fresh m).
Proof. by destruct r as [w [|x|ph]]. Qed.

Lemma call_lookup tg r m id :
  is_Some (pending (call tg r m) !! id) →
  id = fresh m ∨ is_Some (pending m !! id).
Proof.
  destruct r as [w [|x|ph]]; unfold call; simpl;
    rewrite ?lookup_delete_is_Some, ?lookup_insert_is_Some;
    intros; destruct_or?; destruct_and?; auto.
Qed.

Lemma call_fresh tg r m : ids_fresh m → ids_fresh (call tg r m).
Proof.
  intros Hm id [->|?%Hm]%call_lookup; rewrite call_next; lia.
Qed.

(** A call that is over or parked outside [fetchCustomers] keeps the
    invariant of the loading flag. *)
Lemma call_loading tg r m :
  ids_fresh m → loading_inv m →
  isLoading (ui r.1) = isLoading (ui (now m)) →
  match r.2 with Parked ph => lists ph = false | _ => True end →
  loading_inv (call tg r m).
Proof.
  intros Hfresh Hm Hw Hr. unfold loading_inv, quiet, call.
  assert (pending m !! fresh m = None) as Hnone.
  { apply eq_None_not_Some. intros ?%Hfresh. lia. }
  destruct r as [w [|x|ph]]; simpl in *; rewrite ?delete_id by done;
    rewrite Hw; [done..|].
  intros ?%map_Forall_insert_1_2; auto.
Qed.

Lemma effect_inv m :
  ids_fresh m → loading_inv m → machine_inv (effect API_URL m).
Proof.
  intros Hfresh Hm. unfold effect. case_decide as Hp; [done|].
  split_and!; [by apply call_fresh|done|].
  unfold loading_inv, quiet. simpl. by intros ?%map_Forall_insert_1_1.
Qed.

Lemma machine_mount_inv storage : machine_inv (machine_mount API_URL storage).
Proof.
  split_and!; [|done|].
  2: { unfold loading_inv, quiet. simpl. by intros ?%map_Forall_insert_1_1. }
  apply call_fresh. intros id. simpl. rewrite lookup_empty. by intros [].
Qed.

(** The body of a list response is taken by a call of [fetchCustomers]
    that awaits it, and no other, and the call ends with it. *)
Lemma settle_task_json m id r m' :
  settle_task API_URL id (JsonSettled r) m = Some m' →
  ∃ who, pending m !! id = Some (Parsing who) ∧
         m' = settle_in id m (after_list_json who r (now m)).1 None.
Proof.
  unfold settle_task.
  destruct (pending m !! id) as [[mu s|who s|who]|]; simpl; try done.
  intros [= <-]. exists who. split; [done|]. by destruct r.
Qed.

(** A settlement keeps the numbers and the invariant of the flag. *)
Lemma settle_task_inv m id ans m' :
  machine_inv m → settle_task API_URL id ans m = Some m' →
  ids_fresh m' ∧ loading_inv m' ∧ page (ui (now m')) = page (ui (now m)) ∧
  effect_page m' = effect_page m.
Proof.
  intros (Hfresh & Hpage & Hm). unfold settle_task.
  destruct (pending m !! id) as [ph|] eqn:Hid; [|done]. simpl.
  destruct (advance _ ph ans (now m)) as [[w next]|] eqn:Hadv; [|done].
  intros [= <-]. pose proof (advance_loading _ _ _ _ _ _ Hadv) as Hl.
  apply advance_page in Hadv as [Hp _]. split_and!; [| |done..].
  - intros id'. destruct next; simpl;
      rewrite ?lookup_delete_is_Some, ?lookup_insert_is_Some;
      intros Hid'; destruct_or?; destruct_and?; subst; apply Hfresh; eauto.
  - unfold loading_inv, quiet. destruct next as [ph'|]; simpl in *.
    { intros ?%map_Forall_insert_1_1. congruence. }
    destruct (lists ph) eqn:Hph; [done|]. rewrite Hl. intros Hq. apply Hm.
    intros id' ph' Hid'. destruct (decide (id' = id)) as [->|Hne];
      [congruence|]. apply (Hq id'). by rewrite lookup_delete_ne.
Qed.

Lemma machine_step_inv m ev m' :
  machine_inv m → machine_step API_URL m ev = Some m' → machine_inv m'.
Proof.
  intros Hm. pose proof Hm as (Hfresh & Hpage & Hl).
  destruct ev as [u|id ans]; simpl.
  - intros [= <-]. destruct (begin_loading API_URL u (now m)).
    apply effect_inv; [by apply call_fresh|by apply call_loading].
  - destruct (settle_task _ id ans m) as [m1|] eqn:Hs; [|done].
    intros [= <-]. apply settle_task_inv in Hs as (? & ? & _); [|done].
    by apply effect_inv.
Qed.

Lemma machine_steps_inv evs m m' :
  machine_inv m → machine_steps API_URL m evs = Some m' → machine_inv m'.
Proof.
  revert m. induction evs as [|ev evs IH]; simpl; intros m Hm.
  { by intros [= <-]. }
  destruct (machine_step _ m ev) as [m1|] eqn:Hstep; [|done].
  simpl. eauto using machine_step_inv.
Qed.

Lemma machine_reachable_inv storage m :
  machine_reachable API_URL storage m → machine_inv m.
Proof.
  induction 1; eauto using machine_mount_inv, machine_step_inv.
Qed.

(** ** Progress and the measure *)

(** A settlement that fits is taken. *)
Lemma settle_progress m id ph ans :
  pending m !! id = Some ph → fits ph ans = true →
  is_Some (machine_step API_URL m (Settle id ans)).
Proof.
  intros Hid [r Hr]%(advance_fits API_URL _ _ (now m)).
  simpl. unfold settle_task. rewrite Hid. simpl. rewrite Hr. by eexists.
Qed.

(** A settlement starts no task and takes at least one unit of weight. *)
Lemma settle_weight m id ans m' :
  machine_inv m → machine_step API_URL m (Settle id ans) = Some m' →
  (weight m' < weight m)%nat ∧ fresh m' = fresh m.
Proof.
  intros Hm. pose proof Hm as (_ & Hpage & _). simpl.
  destruct (settle_task _ id ans m) as [m1|] eqn:Hs; [|done].
  intros [= <-].
  pose proof (settle_task_inv _ _ _ _ Hm Hs) as (_ & _ & Hp & Hseen).
  unfold effect. rewrite decide_True by (unfold settled_page in *; congruence).
  revert Hs. unfold settle_task, weight.
  destruct (pending m !! id) as [ph|] eqn:Hid; [|done]. simpl.
  destruct (advance _ ph ans (now m)) as [[w [ph'|]]|] eqn:Hadv; [| |done];
    intros [= <-]; simpl; rewrite (total_delete _ _ _ Hid).
  - apply advance_rank in Hadv. rewrite total_insert. lia.
  - pose proof (rank_pos ph). lia.
Qed.

End machine_facts.

(** ** Quiescence *)

Section quiescence.
Context (API_URL : jsval).
Implicit Types (m : machine) (env : machine → nat * answer).

(** The environment in which every request fails settles a pending
    promise with an answer that fits. *)
Lemma failing_responsive x : responsive (failing x).
Proof.
  intros m Hne. unfold failing.
  destruct (map_to_list (pending m)) as [|[id ph] l] eqn:Hl.
  { by apply map_to_list_empty_iff in Hl. }
  exists ph. split; [|by destruct ph].
  assert ((id, ph) ∈ map_to_list (pending m)) as Hin by (rewrite Hl; left).
  apply elem_of_map_to_list in Hin. by destruct ph.
Qed.

Lemma drain_events_S n env m :
  drain_events API_URL (S n) env m
  = if decide (pending m = ∅) then []
    else match machine_step API_URL m (Settle (env m).1 (env m).2) with
         | Some m' => Settle (env m).1 (env m).2 :: drain_events API_URL n env m'
         | None => []
         end.
Proof. done. Qed.

Lemma machine_steps_cons m ev evs :
  machine_steps API_URL m (ev :: evs)
  = machine_step API_URL m ev ≫= λ m', machine_steps API_URL m' evs.
Proof. done. Qed.

(** Within its weight in turns, a machine whose promises keep being
    settled has none left. *)
Lemma drain_events_spec n env m :
  machine_inv m → responsive env → (weight m ≤ n)%nat →
  ∃ m', machine_steps API_URL m (drain_events API_URL n env m) = Some m' ∧
        pending m' = ∅ ∧ machine_inv m' ∧ fresh m' = fresh m ∧
        (length (drain_events API_URL n env m) ≤ weight m)%nat.
Proof.
  intros Hm Henv. revert m Hm.
  induction n as [|n IH]; intros m Hm Hn.
  { exists m. simpl.
    split_and!; [done|apply total_0; unfold weight in Hn|done..|]; lia. }
  rewrite drain_events_S.
  case_decide as Hp; [exists m; simpl; split_and!; try done; lia|].
  destruct (Henv m Hp) as (ph & Hid & Hfit).
  destruct (settle_progress API_URL m _ ph _ Hid Hfit) as [m1 Hstep].
  rewrite Hstep, machine_steps_cons, Hstep. cbn [mbind option_bind length].
  destruct (settle_weight _ _ _ _ _ Hm Hstep) as [Hlt Hfresh].
  destruct (IH m1) as (m' & ? & ? & ? & ? & ?);
    [by eapply machine_step_inv|lia|].
  exists m'. split_and!; [done..|congruence|lia].
Qed.

(** C11: when no call of [fetchCustomers] is under way, the loading flag
    is off: in every configuration the machine reaches, whatever the user
    does and however the promises settle, the spinner never stays on after
    the last list request has ended. *)
Theorem quiet_not_loading storage m :
  machine_reachable API_URL storage m → quiet m →
  isLoading (ui (now m)) = false.
Proof. intros (_ & _ & Hl)%machine_reachable_inv. apply Hl. Qed.

(** Every reachable machine becomes quiescent when its promises keep
    being settled: whichever pending promise the environment settles next
    and with whatever outcome, after at most three turns per pending task
    no task is left, no new task was started, and the loading flag is
    off. *)
Lemma drain_quiesces storage env m :
  machine_reachable API_URL storage m → responsive env →
  ∃ m', machine_steps API_URL m (drain_events API_URL (weight m) env m)
          = Some m' ∧
        pending m' = ∅ ∧ isLoading (ui (now m')) = false ∧
        fresh m' = fresh m ∧
        (length (drain_events API_URL (weight m) env m)
           ≤ 3 * size (pending m))%nat.
Proof.
  intros Hm%machine_reachable_inv Henv.
  destruct (drain_events_spec (weight m) env m) as (m' & ? & Hp & Hm' & ? & ?);
    [done..|].
  exists m'. pose proof (total_bound (pending m)). unfold weight in *.
  split_and!; [done..| |done|lia].
  apply Hm'. unfold quiet. rewrite Hp. apply map_Forall_empty.
Qed.

End quiescence.

(** ** The machine on an example *)

Lemma machine_steps_reachable url storage evs m m' :
  machine_reachable url storage m → machine_steps url m evs = Some m' →
  machine_reachable url storage m'.
Proof.
  revert m. induction evs as [|ev evs IH]; simpl; intros m Hm.
  { by intros [= <-]. }
  destruct (machine_step url m ev) as [m1|] eqn:Hstep; [|done].
  simpl. eauto using machine_reachable_step.
Qed.

Lemma machine_after_reachable evs :
  machine_reachable example_url example_storage (machine_after evs).
Proof.
  unfold machine_after. destruct (machine_steps _ _ evs) as [m|] eqn:Hm; simpl.
  - eapply machine_steps_reachable; [apply machine_reachable_mount|exact Hm].
  - apply machine_reachable_mount.
Qed.

(** After the list has arrived and while a submit awaits its answer, no
    call of [fetchCustomers] is under way. *)
Lemma quiet_not_loading_witness :
  isLoading (ui (now (machine_after
     (settle_list 0 example_body ++ [User SubmitForm])))) = false.
Proof.
  apply (quiet_not_loading example_url example_storage).
  - apply machine_after_reachable.
  - apply (bool_decide_unpack _). vm_compute. exact I.
Defined.

(** The user submits and pages on; then the network goes down. *)

(** In that run three promises are pending and each fails in one turn. *)
Example drain_example :
  (λ m, (size (pending m), weight m,
         length (drain_events example_url (weight m)
                   (failing (Error "offline")) m)))
    (machine_after [User SubmitForm; User ClickNext])
  = (3%nat, 7%nat, 3%nat).
Proof. vm_compute. reflexivity. Qed.
