(* ===== verification/Refine.v ===== *)
(** * The event loop and the state machine move in lock step

    [EventLoop] runs the functions of [Customers.js] as trees and keeps
    closures in its table; [Machine] keeps a phase for each suspended
    function and says by cases what each segment does.  Here the two are
    related:

    - a closure [implements] a phase when it takes the same answers and,
      for each of them and from every world, runs to the same world and
      either ends with the phase or suspends in a closure that implements
      the next phase;
    - a configuration is represented by a machine ([represents]) when they
      agree on the world, the task numbers, the exceptions that escaped
      and the page the effect saw, and each parked closure implements the
      phase under its number.

    [step_refines] is the simulation: from related configurations, an
    event is taken by both or by neither, and the results are related.
    It follows that both produce the same worlds for every sequence of
    events ([loop_machine_equiv]), and the invariants and the quiescence
    of the machine hold of the event loop. *)

From stdpp Require Import gmap.
From S2P Require Import Prelude JsValue Json Proc Tasks Http Customers.
From S2P Require Import EventLoop Machine.

Section refine.
Context (API_URL : jsval).

(** The closure [t] behaves as phase [ph] says, for [n] awaits. *)
Fixpoint implements (n : nat) (t : suspended eff js_error origin) (ph : phase)
    : Prop :=
  match n with
  | O => False
  | S n' =>
      ∀ ans w,
        match deliver (awaited t) ans, advance API_URL ph ans w with
        | Some v, Some (w', next) =>
            match run (resumption t v) w, next with
            | (w1, Done _), None => w1 = w'
            | (w1, Blocked e k), Some ph' =>
                w1 = w' ∧ implements n' (Suspended (Tasks.origin t) e k) ph'
            | _, _ => False
            end
        | None, None => True
        | _, _ => False
        end
  end.

(** The first segment [r] of a function behaves as [r'] says. *)
Definition started_by (tg : origin) (r : world * outcome eff js_error unit)
    (r' : world * started) : Prop :=
  r.1 = r'.1 ∧
  match r.2, r'.2 with
  | Done _, Finished => True
  | Failed x, Threw x' => x = x'
  | Blocked e k, Parked ph => implements (rank ph) (Suspended tg e k) ph
  | _, _ => False
  end.

Definition represents (c : config) (m : machine) : Prop :=
  world_now c = now m ∧ next_id (tasks_of c) = fresh m ∧
  uncaught (tasks_of c) = escaped m ∧ seen_page c = effect_page m ∧
  related (λ t ph, implements (rank ph) t ph)
          (tasks (tasks_of c)) (pending m).

End refine.

(** [phase_steps] compares the segments of a function of the component
    with the machine's, through every settlement and test. *)
Ltac phase_steps :=
  unfold started_by;
  repeat (simpl;
          match goal with
          | |- _ ∧ _ => split
          | |- ∀ _ : answer, _ => intros [[?|?]|[?|?]]
          | |- ∀ _, _ => intro
          | |- context [ok ?r] => destruct (ok r) eqn:?
          | |- context [if ?b then _ else _] => destruct b eqn:?
          end);
  run_eq;
  try match goal with
      | H : truthy ?d && _ = _ |- _ =>
          unfold list_arrived; simpl; by rewrite <- (content_of_spec d), H
      end.

Section refine_facts.
Context (API_URL : jsval).
Implicit Types (c : config) (m : machine) (w : world) (ev : event).

#[local] Abbreviation Represents := (represents API_URL).
#[local] Abbreviation Started := (started_by API_URL).

(** ** The functions of the component against the machine *)

Lemma fetchCustomers_begin tg s w :
  Started tg (run (fetchCustomers API_URL s) w)
          (begin_list API_URL s w, Parked (Listing Effect s)).
Proof. phase_steps. Qed.

Lemma handler_begin u w :
  Started (FromUser u) (run (handler API_URL (ui w) u) w) (begin API_URL u w).
Proof.
  destruct u as [| | | | |[]| | | | |];
    unfold handler, handleNext, handlePrevious, goToPage; phase_steps.
Qed.

(** ** The table *)

Lemma park_represents id tg (p : pool eff js_error world origin) m sp r w' next :
  Represents (Config p sp) m →
  match r, next with
  | (w, Done _), None => w = w'
  | (w, Blocked e k), Some ph =>
      w = w' ∧ implements API_URL (rank ph) (Suspended tg e k) ph
  | _, _ => False
  end →
  Represents (Config (park id tg p r) sp) (settle_in id m w' next).
Proof.
  intros (Hw & Hn & Hu & Hs & Ht) Hr.
  destruct r as [w [[]|x|T e k]], next as [ph|]; try done; simpl in *.
  - subst. split_and!; try done. by apply related_delete.
  - destruct Hr as [-> Hph]. split_and!; try done. by apply related_insert.
Qed.

Lemma start_represents tg q (p : pool eff js_error world origin) m sp r :
  Represents (Config p sp) m →
  Started tg (run q (world_of p)) r →
  Represents (Config (start tg q p) sp) (call tg r m).
Proof.
  intros (Hw & Hn & Hu & Hs & Ht) [Hr1 Hr2]. unfold start, call.
  simpl in *. rewrite <- Hn.
  destruct (run q (world_of p)) as [w [[]|x|T e k]], r as [w' [|x'|ph]];
    try done; simpl in *; subst;
    split_and!; try done; try (simpl; congruence);
    by (apply related_insert || apply related_delete).
Qed.

Lemma resume_represents id ans (p : pool eff js_error world origin) m sp :
  Represents (Config p sp) m →
  option_Forall2 (λ p' m', Represents (Config p' sp) m')
                 (resume id ans p) (settle_task API_URL id ans m).
Proof.
  intros Hc. pose proof Hc as (Hw & _ & _ & _ & Ht).
  unfold resume, settle_task. change (world_of p = now m) in Hw.
  rewrite <- Hw. simpl in Ht.
  destruct (Ht id) as [t ph Hph|]; simpl; [|constructor].
  destruct (rank ph) as [|n] eqn:Hrank; [done|].
  specialize (Hph ans (world_of p)). simpl in Hph.
  destruct (eff_deliver (awaited t) ans) as [v|],
           (advance API_URL ph ans (world_of p)) as [[w' next]|] eqn:Hadv;
    simpl; try done; constructor.
  apply park_represents; [done|].
  destruct (run (resumption t v) (world_of p)) as [w [[]|x|T e k]],
           next as [ph'|]; try done.
  apply advance_rank in Hadv. by replace (rank ph') with n by congruence.
Qed.

Lemma useEffect_page_represents c m :
  Represents c m → Represents (useEffect_page API_URL c) (effect API_URL m).
Proof.
  intros Hc. pose proof Hc as (Hw & _ & _ & Hs & _).
  unfold useEffect_page, effect, state_now. rewrite Hw, Hs.
  case_decide; [done|]. destruct c as [p sp].
  change (world_of p = now m) in Hw.
  pose proof (fetchCustomers_begin FromEffect (ui (now m)) (world_of p)) as Hb.
  apply (start_represents _ _ _ _ _ _ Hc) in Hb as (? & ? & ? & _ & ?).
  rewrite Hw in *. by split_and!.
Qed.

Lemma mount_represents storage :
  Represents (mount API_URL storage) (machine_mount API_URL storage).
Proof.
  apply (start_represents FromEffect _ (Pool _ _ _ _) (Machine _ _ _ _ _));
    [|apply fetchCustomers_begin].
  split_and!; try done. apply related_empty.
Qed.

(** ** The simulation *)

(** From a configuration and a machine that represents it, every event
    is taken by both or refused by both, and the machine after the step
    represents the configuration after it. *)
Lemma step_represents c m ev :
  Represents c m →
  option_Forall2 Represents (step API_URL c ev) (machine_step API_URL m ev).
Proof.
  intros Hc. pose proof Hc as (Hw & _). destruct c as [p sp].
  change (world_of p = now m) in Hw. destruct ev as [u|id ans]; simpl.
  - constructor. apply useEffect_page_represents, start_represents; [done|].
    unfold state_now. simpl. rewrite <- Hw. apply handler_begin.
  - destruct (resume_represents id ans p m sp Hc) as [p' m' Hc'|]; simpl;
      constructor. by apply useEffect_page_represents.
Qed.

Lemma steps_refines evs c m :
  Represents c m →
  option_Forall2 Represents (steps API_URL c evs)
                 (machine_steps API_URL m evs).
Proof.
  revert c m. induction evs as [|ev evs IH]; simpl; intros c m Hc.
  { by constructor. }
  destruct (step_represents c m ev Hc) as [c' m' Hc'|]; simpl; [|constructor].
  by apply IH.
Qed.

(** C5: the event loop refines the machine and the machine the event
    loop, step by step: from a configuration and a machine that represents
    it, every step of the one is matched by a step of the other on the
    same event, and the results are again related. *)
Theorem step_refines c m ev :
  Represents c m →
  (∀ c', step API_URL c ev = Some c' →
         ∃ m', machine_step API_URL m ev = Some m' ∧ Represents c' m') ∧
  (∀ m', machine_step API_URL m ev = Some m' →
         ∃ c', step API_URL c ev = Some c' ∧ Represents c' m').
Proof.
  intros Hr%(step_represents _ _ ev).
  split; intros x Hx; rewrite Hx in Hr; inversion Hr; eauto.
Qed.

(** C15: the event loop and the machine are observationally equivalent:
    for every sequence of user events and settlements from the mount, both
    take the sequence or both refuse it, and they end in the same world:
    the same React state, the same store and the same output. *)
Theorem loop_machine_equiv storage evs :
  world_now <$> steps API_URL (mount API_URL storage) evs
  = now <$> machine_steps API_URL (machine_mount API_URL storage) evs.
Proof.
  destruct (steps_refines evs _ _ (mount_represents storage))
    as [c m (Hw & _)|]; simpl; by f_equal.
Qed.

(** Every reachable configuration is represented by a reachable machine,
    and conversely. *)
Lemma reachable_represented storage c :
  reachable API_URL storage c →
  ∃ m, machine_reachable API_URL storage m ∧ Represents c m.
Proof.
  induction 1 as [|c ev c' _ (m & Hm & Hc) Hstep].
  { eauto using machine_reachable_mount, mount_represents. }
  pose proof (step_represents c m ev Hc) as Hr. rewrite Hstep in Hr.
  inversion Hr as [c1 m' Hc' Hc1 Hm'|]; subst.
  eauto using machine_reachable_step.
Qed.

Lemma machine_reachable_represents storage m :
  machine_reachable API_URL storage m →
  ∃ c, reachable API_URL storage c ∧ Represents c m.
Proof.
  induction 1 as [|m ev m' _ (c & Hc & Hm) Hstep].
  { eauto using reachable_mount, mount_represents. }
  pose proof (step_represents c m ev Hm) as Hr. rewrite Hstep in Hr.
  inversion Hr as [c' m1 Hc' Hs Hm1|]; subst.
  eauto using reachable_step.
Qed.

(** ** What the event loop inherits *)

(** When no task is pending the loading flag is off, in every reachable
    configuration of the event loop. *)
Lemma idle_not_loading storage c :
  reachable API_URL storage c → tasks (tasks_of c) = ∅ →
  isLoading (state_now c) = false.
Proof.
  intros (m & Hm & Hw & _ & _ & _ & Ht)%reachable_represented Hidle.
  apply machine_reachable_inv in Hm as (_ & _ & Hl).
  unfold state_now. rewrite Hw. apply Hl.
  apply (related_empty_iff _ _ _ Ht) in Hidle. unfold quiet.
  rewrite Hidle. apply map_Forall_empty.
Qed.

(** *** Quiescence *)

(** A closure takes the answers that fit its phase, and no others. *)
Lemma implements_fits n t ph ans :
  implements API_URL (S n) t ph →
  is_Some (deliver (awaited t) ans) ↔ fits ph ans = true.
Proof.
  intros Ht. specialize (Ht ans (World init_state ∅ [])).
  rewrite <- (advance_fits API_URL ph ans (World init_state ∅ [])).
  destruct (deliver _ _), (advance _ _ _ _) as [[??]|]; try done;
    split; by eauto.
Qed.

(** A settlement that the awaiting closure accepts is a turn of both. *)
Lemma settle_represents c m id t ans :
  Represents c m → tasks (tasks_of c) !! id = Some t →
  is_Some (deliver (awaited t) ans) →
  ∃ c' m', step API_URL c (Settle id ans) = Some c' ∧
           machine_step API_URL m (Settle id ans) = Some m' ∧
           Represents c' m'.
Proof.
  intros Hc Hid Hans. pose proof Hc as (_ & _ & _ & _ & Ht).
  specialize (Ht id). rewrite Hid in Ht.
  inversion Ht as [t' ph Himp Ht' Hph|]; subst.
  pose proof (rank_pos ph). destruct (rank ph) as [|n] eqn:Hn; [lia|].
  apply (implements_fits n _ ph) in Hans; [|done].
  destruct (settle_progress API_URL m id ph ans) as [m' Hm']; [done..|].
  pose proof (step_represents c m (Settle id ans) Hc) as Hr.
  rewrite Hm' in Hr. inversion Hr; eauto.
Qed.

Lemma settle_all_S n env c :
  settle_all API_URL (S n) env c
  = match step API_URL c (Settle (env c).1 (env c).2) with
    | Some c' => settle_all API_URL n env c'
    | None => c
    end.
Proof. done. Qed.

Lemma settle_all_idle n env c :
  tasks (tasks_of c) = ∅ → settle_all API_URL n env c = c.
Proof.
  intros Hidle. destruct n as [|n]; [done|]. rewrite settle_all_S. simpl.
  unfold resume. by rewrite Hidle, lookup_empty.
Qed.

(** With a responsive environment, as many settlements as the weight of
    the machine that represents the configuration empty the table. *)
Lemma settle_all_drains storage env n c m :
  loop_responsive API_URL storage env →
  reachable API_URL storage c → machine_reachable API_URL storage m →
  Represents c m → (weight m ≤ n)%nat →
  tasks (tasks_of (settle_all API_URL n env c)) = ∅ ∧
  next_id (tasks_of (settle_all API_URL n env c)) = next_id (tasks_of c).
Proof.
  intros Henv. revert c m.
  induction n as [|n IH]; intros c m Hc Hm Hr Hn;
    destruct (decide (tasks (tasks_of c) = ∅)) as [Hidle|Hbusy];
    try (by rewrite settle_all_idle).
  { destruct Hbusy. apply (related_empty_iff _ _ _ (proj2 (proj2 (proj2
      (proj2 Hr))))), total_0. unfold weight in Hn. lia. }
  destruct (Henv c Hc Hbusy) as (t & Hid & Hans).
  destruct (settle_represents c m _ t _ Hr Hid Hans)
    as (c' & m' & Hstep & Hstep' & Hr').
  destruct (settle_weight API_URL m _ _ m' (machine_reachable_inv _ _ _ Hm)
              Hstep') as [Hw Hf].
  rewrite settle_all_S, Hstep.
  destruct (IH c' m') as [Hidle Hnext];
    [by eapply reachable_step|by eapply machine_reachable_step|done|lia|].
  split; [done|]. destruct Hr as (_ & -> & _), Hr' as (_ & Hn' & _).
  congruence.
Qed.

Lemma settle_all_reachable storage env n c :
  reachable API_URL storage c →
  reachable API_URL storage (settle_all API_URL n env c).
Proof.
  revert c. induction n as [|n IH]; intros c Hc; [done|].
  rewrite settle_all_S.
  destruct (step _ c _) as [c'|] eqn:Hstep; [|done].
  by eapply IH, reachable_step.
Qed.

(** C10: every reachable configuration becomes quiescent when its
    promises keep being settled.  Whichever pending promise a responsive
    environment settles next, and with whatever outcome, after three
    settlements per suspended task at most the event loop has no task
    left, has started none, and shows no spinner. *)
Theorem reachable_quiesces storage env c :
  reachable API_URL storage c → loop_responsive API_URL storage env →
  let c' := settle_all API_URL (3 * size (tasks (tasks_of c))) env c in
  tasks (tasks_of c') = ∅ ∧ isLoading (state_now c') = false ∧
  next_id (tasks_of c') = next_id (tasks_of c).
Proof.
  intros Hc Henv. pose proof Hc as (m & Hm & Hr)%reachable_represented.
  destruct (settle_all_drains storage env (3 * size (tasks (tasks_of c))) c m)
    as [Hidle Hnext]; [done..| |].
  { destruct Hr as (_ & _ & _ & _ & Ht).
    rewrite (related_size _ _ _ Ht). apply total_bound. }
  split_and!; [done| |done].
  eapply idle_not_loading; [by apply settle_all_reachable|done].
Qed.

(** The environment in which nothing succeeds is responsive. *)
Lemma rejecting_responsive storage x :
  loop_responsive API_URL storage (rejecting x).
Proof.
  intros c (m & _ & _ & _ & _ & _ & Ht)%reachable_represented Hbusy.
  unfold rejecting.
  destruct (map_to_list (tasks (tasks_of c))) as [|[id t] l] eqn:Hl.
  { by apply map_to_list_empty_iff in Hl. }
  assert (tasks (tasks_of c) !! id = Some t) as Hid.
  { apply elem_of_map_to_list. rewrite Hl. left. }
  exists t. split; [done|]. cbn [fst snd]. specialize (Ht id).
  rewrite Hid in Ht.
  inversion Ht as [t' ph Himp Ht' Hph|]; subst.
  pose proof (rank_pos ph). destruct (rank ph) as [|n] eqn:Hn; [lia|].
  pose proof (implements_fits n t ph (FetchSettled (Rejected x)) Himp) as Hf.
  destruct (deliver (awaited t) (FetchSettled (Rejected x))) as [v|] eqn:Hv.
  { by eexists. }
  apply (implements_fits n _ ph); [done|].
  destruct ph; try done; exfalso; eapply is_Some_None; by apply Hf.
Qed.

End refine_facts.

(** ** On the examples *)

Lemma step_refines_witness :
  (∀ c', step example_url (mount example_url example_storage) (User SubmitForm)
         = Some c' →
         ∃ m', machine_step example_url
                 (machine_mount example_url example_storage) (User SubmitForm)
               = Some m' ∧ represents example_url c' m') ∧
  (∀ m', machine_step example_url (machine_mount example_url example_storage)
           (User SubmitForm) = Some m' →
         ∃ c', step example_url (mount example_url example_storage)
                 (User SubmitForm) = Some c' ∧ represents example_url c' m').
Proof.
  apply (step_refines example_url (mount example_url example_storage)
           (machine_mount example_url example_storage) (User SubmitForm)).
  apply mount_represents.
Defined.

Lemma reachable_quiesces_witness :
  let c := after [User SubmitForm; User ClickNext] in
  let c' := settle_all example_url (3 * size (tasks (tasks_of c)))
              (rejecting (Error "offline")) c in
  tasks (tasks_of c') = ∅ ∧ isLoading (state_now c') = false ∧
  next_id (tasks_of c') = next_id (tasks_of c).
Proof.
  apply (reachable_quiesces example_url example_storage
           (rejecting (Error "offline"))).
  - apply after_reachable.
  - apply rejecting_responsive.
Defined.
