(* ===== verification/View.v ===== *)
(** * What [Customers] renders (src/src/Customers.js, lines 132-333)

    The markup as a tree of elements ([vnode]): tags, attributes with their
    values, the listeners the elements carry, and children.  [render] is the
    JSX expression of the component, block by block; it is a function of
    the state of the render.  A listener holds the event it stands for
    ([user_event], which [EventLoop.handler] maps to the handler called).

    Rendering throws ([None]) where the JSX does: reading a property of a
    list item that is [null] or [undefined], and giving React an object as a
    child.

    [offers] lists what the user can do with a tree: type any text into an
    [input], choose an enabled [option] of a [select], click a [button],
    submit a [form]. *)

From S2P Require Import Prelude JsValue Proc Http Customers EventLoop.

#[local] Set Warnings "-register-all,-clear-no-such-hyp".

(** ** Trees *)

(** The elements and components the markup uses. *)
Inductive tag : Type :=
| Div | Span | H2 | H3 | Label | Input | Form | Select | Option | Button
| Table | Thead | Tbody | Tr | Th | Td
| Link | FaSearch | FiEdit | FiTrash2.

#[global] Instance tag_eq_dec : EqDecision tag.
Proof. solve_decision. Defined.

(** The attributes the markup uses: a constant string, a value of the
    state ([value], [key]), or a listener. *)
Inductive attr : Type :=
| ClassName (c : string)
| To (path : string)
| HtmlFor (id : string)
| Type_ (t : string)
| Placeholder (text : string)
| Id (id : string)
| AutoComplete (token : string)
| ColSpan (n : string)
| Title (text : string)
| Disabled
| Hidden
| Value (v : jsval)
| Key (v : jsval)
| OnChange (h : string → user_event)
| OnClick (ev : user_event)
| OnSubmit (ev : user_event).

Inductive vnode : Type :=
| VText (s : string)
| VElem (t : tag) (attrs : list attr) (children : list vnode).

(** A value in child position, [{v}]: strings and numbers are text, [null],
    [undefined] and booleans render nothing, arrays render their items, an
    object throws. *)
Fixpoint child (v : jsval) : option (list vnode) :=
  match v with
  | JStr s => Some [VText s]
  | JNum n => Some [VText (show_Z n)]
  | JUndefined | JNull | JBool _ => Some []
  | JArr items =>
      (fix children (l : list jsval) : option (list vnode) :=
         match l with
         | [] => Some []
         | x :: l' => vs ← child x; ws ← children l'; Some (vs ++ ws)
         end) items
  | JObj _ => None
  end.

(** ** The markup *)

(** Lines 135-149. *)
Definition page_header : vnode :=
  VElem Div [ClassName "mb-8"]
    [VElem Div [ClassName "text-sm text-gray-500 mb-1"]
       [VElem Link [To "/";
                      ClassName "text-indigo-600 hover:text-indigo-800 transition"]
          [VText "Home"];
        VText " ";
        VElem Span [ClassName "mx-2 text-gray-500"] [VText ">"];
        VText " ";
        VElem Span [ClassName "font-semibold text-gray-800"]
          [VText "Customers"]];
     VElem H2 [ClassName "text-2xl font-bold mt-2 mb-4 text-gray-900"]
       [VText "Customer Management"]].

(** Lines 151-164. *)
Definition search_box (s : state) : vnode :=
  VElem Div
    [ClassName "mb-6 p-4 bg-white rounded-xl shadow-lg flex items-center border border-gray-200"]
    [VElem FaSearch [ClassName "w-5 h-5 text-gray-400 mr-3"] [];
     VElem Label [HtmlFor "customerSearch"; ClassName "sr-only"]
       [VText "Search Customers"];
     VElem Input
       [Type_ "text";
        Placeholder "Search Customers...";
        Id "customerSearch";
        Value (JStr (searchTerm s));
        OnChange ChangeSearch;
        ClassName "flex-grow border-none focus:ring-0 text-gray-700 placeholder-gray-400 outline-none"]
       []].

Definition label_class : string :=
  "block text-sm font-medium text-gray-700 mb-2".

Definition input_class : string :=
  "block outline-none w-full border border-gray-300 rounded-lg py-2.5 px-3 text-gray-900 placeholder-gray-500 focus:ring-indigo-500 focus:border-indigo-500 sm:text-sm shadow-sm transition duration-150".

(** Lines 172-188. *)
Definition customerName_field (s : state) : vnode :=
  VElem Div []
    [VElem Label [HtmlFor "customerName"; ClassName label_class]
       [VText "Customer Name"];
     VElem Input
       [Type_ "text"; Id "customerName";
        AutoComplete "name";
        Placeholder "Enter Customer Name";
        Value (customerName s);
        OnChange ChangeCustomerName;
        ClassName input_class]
       []].

(** Lines 189-205. *)
Definition email_field (s : state) : vnode :=
  VElem Div []
    [VElem Label [HtmlFor "email"; ClassName label_class]
       [VText "Email"];
     VElem Input
       [Type_ "text"; Id "email";
        AutoComplete "email";
        Value (email s);
        OnChange ChangeEmail;
        Placeholder "Enter Customer Email";
        ClassName input_class]
       []].

(** Lines 206-221. *)
Definition phoneNumber_field (s : state) : vnode :=
  VElem Div []
    [VElem Label [HtmlFor "phoneNumber"; ClassName label_class]
       [VText "Phone Number"];
     VElem Input
       [Type_ "text"; Id "phoneNumber";
        Value (phoneNumber s);
        OnChange ChangePhoneNumber;
        Placeholder "Enter Phone Number";
        ClassName "block w-full outline-none border border-gray-300 rounded-lg py-2.5 px-3 text-gray-900 placeholder-gray-500 focus:ring-indigo-500 focus:border-indigo-500 sm:text-sm shadow-sm transition duration-150"]
       []].

(** Lines 238-240: an option whose text is its value. *)
Definition type_option (v : string) : vnode :=
  VElem Option [Value (JStr v)] [VText v].

(** Lines 222-242. *)
Definition customerType_field (s : state) : vnode :=
  VElem Div []
    [VElem Label [HtmlFor "customerType"; ClassName label_class]
       [VText "Customer Type"];
     VElem Select
       [Id "customerType";
        Value (customerType s);
        OnChange ChangeCustomerType;
        ClassName "outline-none block w-full border border-gray-300 rounded-lg py-2.5 px-3 text-gray-900 placeholder-gray-500 focus:ring-indigo-500 focus:border-indigo-500 sm:text-sm shadow-sm transition duration-150"]
       [VElem Option [Value (JStr ""); Disabled; Hidden]
          [VText "Select Customer Type"];
        type_option "INDIVIDUAL"; type_option "GROUP";
        type_option "ORGANIZATION"]].

(** Lines 243-250. *)
Definition submit_button (s : state) : vnode :=
  VElem Div [ClassName "col-span-full flex justify-end mt-2"]
    [VElem Button
       [Type_ "submit";
        ClassName "bg-indigo-600 hover:bg-indigo-700 text-white font-semibold py-2.5 px-6 rounded-lg transition duration-150 focus:outline-none focus:ring-2 focus:ring-indigo-500 focus:ring-offset-2 shadow-lg"]
       [VText (if truthy (customerEdit s) then "Update Record"
               else "Save Record")]].

(** Lines 166-253. *)
Definition customer_form (s : state) : vnode :=
  VElem Div
    [ClassName "bg-white rounded-xl shadow-2xl p-8 mb-8 border border-gray-100"]
    [VElem Form [OnSubmit SubmitForm]
       [VElem H3
          [ClassName "text-xl font-bold text-gray-800 mb-6 border-b pb-2"]
          [VText (if truthy (customerEdit s) then "Update Customer Details"
                  else "Add New Customer")];
        VElem Div
          [ClassName "grid grid-cols-1 md:grid-cols-2 lg:grid-cols-4 gap-6 items-end"]
          [customerName_field s; email_field s; phoneNumber_field s;
           customerType_field s; submit_button s]]].

(** Lines 259-269. *)
Definition table_head : vnode :=
  VElem Thead [ClassName "bg-gray-100"]
    [VElem Tr []
       (map (λ h, VElem Th [] [VText h])
            ["#"; "ID"; "Name"; "Email"; "Customer"; "Phone Number";
             "Actions"])].

(** Lines 272-279. *)
Definition loading_row : vnode :=
  VElem Tr []
    [VElem Td [ColSpan "7";
                 ClassName "py-10 text-center text-indigo-600 font-medium"]
       [VText "Loading Customers..."]].

(** Lines 321-325. *)
Definition empty_row : vnode :=
  VElem Tr []
    [VElem Td [ColSpan "7";
                 ClassName "py-10 text-center text-gray-500"]
       [VText "No Customers Found"]].

(** Lines 292-298: the class of the badge of a customer type. *)
Definition badge_class (type : jsval) : string :=
  "px-3 py-1 inline-flex text-xs leading-5 font-semibold rounded-full " +:+
  (if strict_eq_str type "ORGANIZATION" then "bg-blue-100 text-blue-800"
   else if strict_eq_str type "GROUP" then "bg-yellow-100 text-yellow-800"
   else "bg-green-100 text-green-800").

(** Line 300: the text of the badge. *)
Definition badge_text (type : jsval) : jsval := js_or type (JStr "INDIVIDUAL").

(** Lines 282-318: the row of [customer] at position [index]. *)
Definition customer_row (index : Z) (customer : jsval) : option vnode :=
  id ← get_prop customer "id";
  number ← child (JNum (index + 1));
  id_text ← child id;
  name ← get_prop customer "name" ≫= child;
  mail ← get_prop customer "email" ≫= child;
  type ← get_prop customer "customerType";
  badge ← child (badge_text type);
  phone ← get_prop customer "phoneNumber" ≫= child;
  Some (VElem Tr
          [Key id;
           ClassName "even:bg-gray-50 hover:bg-indigo-50 transition duration-150"]
          [VElem Td [] number;
           VElem Td [ClassName "font-mono text-gray-500"] id_text;
           VElem Td [ClassName "font-medium"] name;
           VElem Td [] mail;
           VElem Td [] [VElem Span [ClassName (badge_class type)] badge];
           VElem Td [] phone;
           VElem Td [ClassName "flex items-center space-x-3"]
             [VElem Button
                [OnClick (ClickEdit customer); Title "Edit Customer"]
                [VElem FiEdit
                   [ClassName "cursor-pointer text-indigo-600 hover:text-indigo-800 h-5 w-5"]
                   []];
              VElem Button
                [OnClick (ClickDelete id); Title "Delete Customer"]
                [VElem FiTrash2
                   [ClassName "cursor-pointer text-red-600 hover:text-red-800 h-5 w-5"]
                   []]]]).

(** Lines 281-319: [customers.map((customer, index) => ...)]. *)
Fixpoint customer_rows (index : Z) (l : list jsval) : option (list vnode) :=
  match l with
  | [] => Some []
  | customer :: l' =>
      row ← customer_row index customer;
      rows ← customer_rows (index + 1) l';
      Some (row :: rows)
  end.

(** Lines 270-327. *)
Definition table_body (s : state) : option vnode :=
  rows ← (if isLoading s then Some [loading_row]
          else if 0 <? Z.of_nat (length (customers s))
               then customer_rows 0 (customers s)
               else Some [empty_row]);
  Some (VElem Tbody [] rows).

(** Lines 256-330. *)
Definition customer_table (s : state) : option vnode :=
  body ← table_body s;
  Some (VElem Div
          [ClassName "bg-white rounded-xl shadow-lg overflow-hidden border border-gray-200"]
          [VElem Div [ClassName "overflow-x-auto"]
             [VElem Table [ClassName "min-w-full divide-y divide-gray-200"]
                [table_head; body]]]).

(** Lines 132-333. *)
Definition render (s : state) : option vnode :=
  table ← customer_table s;
  Some (VElem Div
          [ClassName "bg-gray-50 min-h-screen space-y-8 p-4 sm:p-6 lg:p-8"]
          [VElem Div [ClassName "w-full max-w-7xl mx-auto"]
             [page_header; search_box s; customer_form s; table]]).

(** ** Reading a tree *)

(** The text of a tree, in document order. *)
Fixpoint text_of (v : vnode) : string :=
  match v with
  | VText s => s
  | VElem _ _ children =>
      (fix texts (l : list vnode) : string :=
         match l with
         | [] => ""
         | c :: l' => text_of c +:+ texts l'
         end) children
  end.

(** The elements with tag [t], in document order. *)
Fixpoint by_tag (t : tag) (v : vnode) : list vnode :=
  match v with
  | VText _ => []
  | VElem t' _ children =>
      (if decide (t' = t) then [v] else []) ++ flat_map (by_tag t) children
  end.

Definition attrs_of (v : vnode) : list attr :=
  match v with VText _ => [] | VElem _ attrs _ => attrs end.

Definition value_of (v : vnode) : option jsval :=
  head (omap (λ a, match a with Value x => Some x | _ => None end)
             (attrs_of v)).

Definition class_of (v : vnode) : option string :=
  head (omap (λ a, match a with ClassName c => Some c | _ => None end)
             (attrs_of v)).

(** The body of the table of a tree (the tree itself when it has none). *)
Definition tbody_of (v : vnode) : vnode := default v (head (by_tag Tbody v)).

(** The text that a value in child position shows. *)
Definition shown (x : jsval) : string :=
  match child x with Some vs => text_of (VElem Span [] vs) | None => "" end.

(** What a reader sees of the customer at position [index] of the list:
    the texts of the seven cells of its row, and the text and class of its
    badge. *)
Definition cells (index : Z) (customer : jsval) : list string :=
  [shown (JNum (index + 1)); shown (get_field customer "id");
   shown (get_field customer "name"); shown (get_field customer "email");
   shown (badge_text (get_field customer "customerType"));
   shown (get_field customer "phoneNumber"); ""].

Definition badge_of (customer : jsval) : string * option string :=
  (shown (badge_text (get_field customer "customerType")),
   Some (badge_class (get_field customer "customerType"))).

Definition is_disabled (v : vnode) : bool :=
  existsb (λ a, match a with Disabled => true | _ => false end) (attrs_of v).

(** ** What the user can do with a tree *)

Inductive offer : Type :=
| AnyText (h : string → user_event)
| Just (ev : user_event).

(** The values of the options of a [select] that can be chosen. *)
Definition option_values (children : list vnode) : list string :=
  omap (λ c, match is_disabled c, value_of c with
             | false, Some (JStr v) => Some v
             | _, _ => None
             end) children.

Definition offers_here (t : tag) (children : list vnode) (a : attr)
    : list offer :=
  match a with
  | OnChange h =>
      match t with
      | Select => (λ v, Just (h v)) <$> option_values children
      | _ => [AnyText h]
      end
  | OnClick ev | OnSubmit ev => [Just ev]
  | _ => []
  end.

Fixpoint offers_of (v : vnode) : list offer :=
  match v with
  | VText _ => []
  | VElem t attrs children =>
      flat_map (offers_here t children) attrs ++ flat_map offers_of children
  end.

Definition offered (o : offer) (ev : user_event) : Prop :=
  match o with
  | AnyText h => ∃ v, ev = h v
  | Just e => ev = e
  end.

(** The tree lets the user cause the event [ev]. *)
Definition offers (v : vnode) (ev : user_event) : Prop :=
  ∃ o, o ∈ offers_of v ∧ offered o ev.

(** What a render of [s] lets the user do; nothing when rendering throws. *)
Definition can_do (s : state) (ev : user_event) : Prop :=
  ∃ v, render s = Some v ∧ offers v ev.

(** What the rows of the customers [l] offer. *)
Definition row_offers (l : list jsval) : list offer :=
  flat_map (λ customer, [Just (ClickEdit customer);
                         Just (ClickDelete (get_field customer "id"))]) l.

(** What the search box and the form offer. *)
Definition form_offers : list offer :=
  [AnyText ChangeSearch; Just SubmitForm; AnyText ChangeCustomerName;
   AnyText ChangeEmail; AnyText ChangePhoneNumber;
   Just (ChangeCustomerType "INDIVIDUAL"); Just (ChangeCustomerType "GROUP");
   Just (ChangeCustomerType "ORGANIZATION")].

(** A value that React accepts as a child. *)
Definition can_show (v : jsval) : bool :=
  match child v with Some _ => true | None => false end.

(** A list item whose row renders. *)
Definition renderable (customer : jsval) : bool :=
  negb (nullish customer) &&
  can_show (get_field customer "id") && can_show (get_field customer "name") &&
  can_show (get_field customer "email") &&
  can_show (badge_text (get_field customer "customerType")) &&
  can_show (get_field customer "phoneNumber").

(** What the markup is meant to let the user do in state [s]: type into
    the search box and the form, choose one of the three customer types,
    submit, and edit or delete a customer of the list shown. *)
Definition allowed (s : state) (ev : user_event) : Prop :=
  match ev with
  | ChangeSearch _ | ChangeCustomerName _ | ChangeEmail _
  | ChangePhoneNumber _ | SubmitForm => True
  | ChangeCustomerType v => v ∈ ["INDIVIDUAL"; "GROUP"; "ORGANIZATION"]
  | ClickEdit customer => isLoading s = false ∧ customer ∈ customers s
  | ClickDelete id =>
      isLoading s = false ∧
      Exists (λ customer, id = get_field customer "id") (customers s)
  | ClickNext | ClickPrevious | ClickPage _ => False
  end.

#[global] Instance allowed_dec s ev : Decision (allowed s ev).
Proof. destruct ev; simpl; apply _. Defined.

(** The state of the specification's example: the list holds the one
    customer of the example response. *)
Definition example_state : state := listed [example_customer] None init_state.

(** ** Facts *)

Section view_facts.
Implicit Types (s : state) (v : vnode) (customer : jsval) (l : list jsval).

Lemma customer_row_is_Some index customer :
  is_Some (customer_row index customer) ↔ renderable customer = true.
Proof.
  unfold customer_row, renderable, can_show.
  destruct (nullish customer) eqn:Hn; simpl.
  - apply (get_prop_None _ "id") in Hn as ->. split; [by intros []|done].
  - rewrite !(get_prop_field _ _ Hn). simpl.
    repeat (destruct (child _); simpl);
      split; first [done|by intros [? [=]]|by eauto].
Qed.

Lemma customer_rows_is_Some index l :
  is_Some (customer_rows index l) ↔ Forall (λ c, renderable c = true) l.
Proof.
  revert index. induction l as [|customer l IH]; intros index; simpl.
  { split; [by constructor|by eauto]. }
  rewrite Forall_cons, <- (customer_row_is_Some index), <- (IH (index + 1)).
  destruct (customer_row _ _), (customer_rows _ l); simpl;
    rewrite ?is_Some_alt; tauto.
Qed.

Lemma customer_rows_lookup index l rows :
  customer_rows index l = Some rows →
  length rows = length l ∧
  ∀ i customer, l !! i = Some customer →
    rows !! i = customer_row (index + Z.of_nat i) customer.
Proof.
  revert index rows. induction l as [|c l IH]; intros index rows; simpl.
  { intros [= <-]. by split. }
  destruct (customer_row index c) as [row|] eqn:Hrow; [|done]. simpl.
  destruct (customer_rows _ l) as [rows'|] eqn:Hrows; [|done].
  intros [= <-]. destruct (IH _ _ Hrows) as [Hlen Hi]. simpl.
  split; [by rewrite Hlen|]. intros [|i] customer Hc; simplify_eq/=.
  - by rewrite Z.add_0_r.
  - rewrite (Hi i customer Hc). f_equal. lia.
Qed.

(** Values in child position are text: strings and numbers as they are
    written. *)
Lemma shown_str str : shown (JStr str) = str.
Proof. apply append_empty_r. Qed.

Lemma shown_num n : shown (JNum n) = show_Z n.
Proof. apply append_empty_r. Qed.

Lemma child_by_tag t x vs : child x = Some vs → flat_map (by_tag t) vs = [].
Proof.
  revert vs. induction x as [| | | | |items IH|] using jsval_nested_ind;
    intros vs; simpl; try by intros [= <-].
  revert vs. induction IH as [|x items Hx _ IHitems]; intros vs.
  { by intros [= <-]. }
  destruct (child x) as [xs|]; [|done]. simpl.
  match goal with |- context [?f items] => destruct (f items) as [ws|] end;
    [|done].
  intros [= <-]. rewrite flat_map_app, (Hx xs), (IHitems ws); done.
Qed.

(** What a row shows: seven cells and one badge. *)
Lemma customer_row_cells index customer row :
  customer_row index customer = Some row →
  text_of <$> by_tag Td row = cells index customer ∧
  (λ sp, (text_of sp, class_of sp)) <$> by_tag Span row = [badge_of customer] ∧
  by_tag Tr row = [row].
Proof.
  unfold customer_row, cells, badge_of, shown.
  destruct (nullish customer) eqn:Hn.
  { by apply (get_prop_None _ "id") in Hn as ->. }
  rewrite !(get_prop_field _ _ Hn). simpl.
  destruct (child (get_field customer "id")) as [c1|] eqn:H1; [|done].
  destruct (child (get_field customer "name")) as [c2|] eqn:H2; [|done].
  destruct (child (get_field customer "email")) as [c3|] eqn:H3; [|done].
  destruct (child (badge_text _)) as [c4|] eqn:H4; [|done].
  destruct (child (get_field customer "phoneNumber")) as [c5|] eqn:H5; [|done].
  intros [= <-]. simpl.
  rewrite !(child_by_tag _ _ _ H1), !(child_by_tag _ _ _ H2),
    !(child_by_tag _ _ _ H3), !(child_by_tag _ _ _ H4),
    !(child_by_tag _ _ _ H5).
  simpl. by rewrite !append_empty_r.
Qed.

Lemma customer_rows_cells index l rows :
  customer_rows index l = Some rows →
  text_of <$> flat_map (by_tag Td) rows
  = concat (imap (λ i, cells (index + Z.of_nat i)) l) ∧
  (λ sp, (text_of sp, class_of sp)) <$> flat_map (by_tag Span) rows
  = badge_of <$> l ∧
  flat_map (by_tag Tr) rows = rows.
Proof.
  revert index rows. induction l as [|c l IH]; intros index rows; simpl.
  { by intros [= <-]. }
  destruct (customer_row index c) as [row|] eqn:Hrow; [|done]. simpl.
  destruct (customer_rows _ l) as [rows'|] eqn:Hrows; [|done].
  intros [= <-]. cbn [flat_map].
  destruct (customer_row_cells _ _ _ Hrow) as (Htd & Hspan & Htr).
  destruct (IH _ _ Hrows) as (Htd' & Hspan' & Htr').
  rewrite !fmap_app, Htd, Hspan, Htr, Htd', Hspan', Htr'.
  split_and!; [|done..]. change (Z.of_nat 0) with 0. rewrite Z.add_0_r.
  unfold cells at 1. simpl. do 8 f_equal. apply imap_ext. intros i x _.
  unfold compose. f_equal. lia.
Qed.

(** Values in child position carry no listener. *)
Lemma child_offers x vs : child x = Some vs → flat_map offers_of vs = [].
Proof.
  revert vs. induction x as [| | | | |items IH|] using jsval_nested_ind;
    intros vs; simpl; try by intros [= <-].
  revert vs. induction IH as [|x items Hx _ IHitems]; intros vs.
  { by intros [= <-]. }
  destruct (child x) as [xs|]; [|done]. simpl.
  match goal with |- context [?f items] => destruct (f items) as [ws|] end;
    [|done].
  intros [= <-]. rewrite flat_map_app, (Hx xs), (IHitems ws); done.
Qed.

Lemma customer_row_offers index customer row :
  customer_row index customer = Some row →
  offers_of row = row_offers [customer].
Proof.
  unfold customer_row. destruct (nullish customer) eqn:Hn.
  { by apply (get_prop_None _ "id") in Hn as ->. }
  rewrite !(get_prop_field _ _ Hn). simpl.
  destruct (child (get_field customer "id")) as [c1|] eqn:H1; [|done].
  destruct (child (get_field customer "name")) as [c2|] eqn:H2; [|done].
  destruct (child (get_field customer "email")) as [c3|] eqn:H3; [|done].
  destruct (child (badge_text _)) as [c4|] eqn:H4; [|done].
  destruct (child (get_field customer "phoneNumber")) as [c5|] eqn:H5; [|done].
  intros [= <-]. simpl.
  by rewrite (child_offers _ _ H1), (child_offers _ _ H2),
    (child_offers _ _ H3), (child_offers _ _ H4), (child_offers _ _ H5).
Qed.

Lemma customer_rows_offers index l rows :
  customer_rows index l = Some rows →
  flat_map offers_of rows = row_offers l.
Proof.
  revert index rows. induction l as [|c l IH]; intros index rows; simpl.
  { by intros [= <-]. }
  destruct (customer_row index c) as [row|] eqn:Hrow; [|done]. simpl.
  destruct (customer_rows _ l) as [rows'|] eqn:Hrows; [|done].
  intros [= <-]. simpl.
  by rewrite (customer_row_offers _ _ _ Hrow), (IH _ _ Hrows).
Qed.

(** What a tree of the component offers: the inputs of the search box and
    of the form, and the two buttons of every row shown. *)
Lemma render_offers s v :
  render s = Some v →
  offers_of v
  = form_offers ++ (if isLoading s then [] else row_offers (customers s)).
Proof.
  unfold render, customer_table, table_body.
  destruct (isLoading s); simpl.
  { by intros [= <-]. }
  destruct (0 <? _) eqn:Hlen; simpl.
  - destruct (customer_rows 0 _) as [rows|] eqn:Hrows; [|done].
    intros [= <-]. simpl. by rewrite (customer_rows_offers _ _ _ Hrows), !app_nil_r.
  - intros [= <-]. by destruct (customers s).
Qed.

Lemma elem_of_row_offers o l :
  o ∈ row_offers l ↔
  ∃ customer, customer ∈ l ∧
    (o = Just (ClickEdit customer) ∨
     o = Just (ClickDelete (get_field customer "id"))).
Proof.
  unfold row_offers. rewrite list_elem_of_In, in_flat_map.
  setoid_rewrite <- list_elem_of_In. setoid_rewrite elem_of_cons.
  setoid_rewrite elem_of_cons. setoid_rewrite elem_of_nil.
  naive_solver.
Qed.

Lemma elem_of_form_offers o :
  o ∈ form_offers ↔
  o = AnyText ChangeSearch ∨ o = Just SubmitForm ∨
  o = AnyText ChangeCustomerName ∨ o = AnyText ChangeEmail ∨
  o = AnyText ChangePhoneNumber ∨
  ∃ x, o = Just (ChangeCustomerType x) ∧
       x ∈ ["INDIVIDUAL"; "GROUP"; "ORGANIZATION"].
Proof.
  unfold form_offers. rewrite !elem_of_cons, elem_of_nil.
  setoid_rewrite elem_of_cons. setoid_rewrite elem_of_cons.
  setoid_rewrite elem_of_cons. setoid_rewrite elem_of_nil. naive_solver.
Qed.

(** What the tree offers is what [allowed] says. *)
Lemma can_do_allowed s ev :
  can_do s ev ↔ is_Some (render s) ∧ allowed s ev.
Proof.
  unfold can_do, offers. split.
  - intros (v & Hv & o & Ho & Hev). split; [by eauto|].
    rewrite (render_offers _ _ Hv), elem_of_app, elem_of_form_offers in Ho.
    destruct (isLoading s) eqn:Hl;
      [rewrite elem_of_nil in Ho|rewrite elem_of_row_offers in Ho];
      repeat (first
        [destruct_or!|destruct_and!
        |match goal with H : ∃ _, _ |- _ => destruct H end];
        simplify_eq/=); rewrite ?Exists_exists; eauto.
  - intros [[v Hv] Hev]. exists v. split; [done|].
    setoid_rewrite (render_offers _ _ Hv). setoid_rewrite elem_of_app.
    setoid_rewrite elem_of_form_offers.
    destruct ev; simpl in Hev; try done.
    + exists (Just SubmitForm). simpl. eauto 10.
    + destruct Hev as (-> & (customer & Hc & ->)%Exists_exists).
      exists (Just (ClickDelete (get_field customer "id"))).
      rewrite elem_of_row_offers. simpl. eauto 10.
    + destruct Hev as [-> Hc]. exists (Just (ClickEdit customer)).
      rewrite elem_of_row_offers. simpl. eauto 10.
    + exists (AnyText ChangeSearch). simpl. eauto 10.
    + exists (AnyText ChangeCustomerName). simpl. eauto 10.
    + exists (AnyText ChangeEmail). simpl. eauto 10.
    + exists (AnyText ChangePhoneNumber). simpl. eauto 10.
    + exists (Just (ChangeCustomerType value)). simpl. eauto 10.
Qed.

(** C9: the markup offers exactly the events it is meant to: typing into
    the search box and the form fields, one of the three customer types,
    submitting, and editing or deleting a customer of the list when it is
    shown.  In particular no element calls [handleNext], [handlePrevious]
    or [goToPage]. *)
Theorem can_do_spec s ev : can_do s ev ↔ is_Some (render s) ∧ allowed s ev.
Proof. apply can_do_allowed. Qed.

(** When the markup renders. *)
Lemma render_defined s :
  is_Some (render s) ↔
  isLoading s = true ∨ Forall (λ c, renderable c = true) (customers s).
Proof.
  unfold render, customer_table, table_body.
  destruct (isLoading s); simpl; [by split; eauto|].
  destruct (customers s) as [|c l] eqn:Hc; simpl.
  { split; eauto. }
  rewrite <- (customer_rows_is_Some 0 (c :: l)).
  change (0 <? _) with true. simpl.
  destruct (customer_row 0 c), (customer_rows (0 + 1) l); simpl;
    rewrite ?is_Some_alt; naive_solver.
Qed.

(** C29: rendering throws exactly when the list is shown and holds an item
    that is [null] or [undefined] or has an object where text is
    expected. *)
Theorem render_is_Some s :
  is_Some (render s) ↔
  isLoading s = true ∨ Forall (λ c, renderable c = true) (customers s).
Proof. apply render_defined. Qed.

(** C30: nothing on screen depends on the error message, and the search
    term appears only as the value of the search box: the form and the
    table are the same for every search term. *)
Theorem render_inert s e term :
  render (apply_setter (setError e) s) = render s ∧
  customer_form (apply_setter (setSearchTerm term) s) = customer_form s ∧
  customer_table (apply_setter (setSearchTerm term) s) = customer_table s.
Proof. done. Qed.

(** C31: the badge of a row shows the customer type on blue for
    [ORGANIZATION], on yellow for [GROUP] and on green for anything else;
    a type that is absent or empty is shown as [INDIVIDUAL]. *)
Theorem badge_spec type :
  let base :=
    "px-3 py-1 inline-flex text-xs leading-5 font-semibold rounded-full " in
  (type = JStr "ORGANIZATION" →
   badge_class type = base +:+ "bg-blue-100 text-blue-800") ∧
  (type = JStr "GROUP" →
   badge_class type = base +:+ "bg-yellow-100 text-yellow-800") ∧
  (type ≠ JStr "ORGANIZATION" → type ≠ JStr "GROUP" →
   badge_class type = base +:+ "bg-green-100 text-green-800") ∧
  badge_text type = (if truthy type then type else JStr "INDIVIDUAL").
Proof.
  split_and!; [by intros ->..| |done].
  intros H1 H2. unfold badge_class.
  destruct (strict_eq_str type "ORGANIZATION") eqn:E1.
  { by apply strict_eq_str_spec in E1. }
  destruct (strict_eq_str type "GROUP") eqn:E2; [|done].
  by apply strict_eq_str_spec in E2.
Qed.

End view_facts.

(** A list that is shown: the table has one row per customer, and a
    reader sees of each its cells and its badge. *)
Lemma render_rows s :
  isLoading s = false → customers s ≠ [] →
  Forall (λ c, renderable c = true) (customers s) →
  ∃ v, render s = Some v ∧
    length (by_tag Tr (tbody_of v)) = length (customers s) ∧
    text_of <$> by_tag Td v
    = concat (imap (λ i, cells (Z.of_nat i)) (customers s)) ∧
    (λ sp, (text_of sp, class_of sp)) <$> by_tag Span (tbody_of v)
    = badge_of <$> customers s.
Proof.
  intros Hl Hne [rows Hrows]%(customer_rows_is_Some 0).
  unfold render, customer_table, table_body. rewrite Hl.
  destruct (customers s) as [|c l] eqn:Hc; [done|].
  change (0 <? _) with true. cbv iota. rewrite Hrows. eexists. split; [done|].
  destruct (customer_rows_cells _ _ _ Hrows) as (Htd & Hspan & Htr).
  destruct (customer_rows_lookup _ _ _ Hrows) as [Hlen _].
  unfold tbody_of. simpl. rewrite !app_nil_r, Htr, Htd, Hspan, Hlen.
  by split_and!.
Qed.

(** C32: when the list request is answered with a list of customers that
    can be shown, the table has one row for each, in the order of the
    response; the cells of the row at position [i] read [i + 1], the id,
    the name, the email, the type and the phone number, and its badge
    reads the type, on the colour of the type.  The example of the
    specification is the instance of the witness. *)
Theorem listed_rows API_URL s w resp data :
  ok resp = true → content_of data ≠ [] →
  Forall (λ c, renderable c = true) (content_of data) →
  let s' := ui (exec [FetchSettled (Fulfilled resp);
                      JsonSettled (Fulfilled data)]
                     (fetchCustomers API_URL s) w).1 in
  ∃ v, render s' = Some v ∧
    length (by_tag Tr (tbody_of v)) = length (content_of data) ∧
    text_of <$> by_tag Td v
    = concat (imap (λ i, cells (Z.of_nat i)) (content_of data)) ∧
    (λ sp, (text_of sp, class_of sp)) <$> by_tag Span (tbody_of v)
    = badge_of <$> content_of data.
Proof.
  intros Hok Hne Hall. cbv zeta.
  assert (ui (exec [FetchSettled (Fulfilled resp);
                    JsonSettled (Fulfilled data)]
                   (fetchCustomers API_URL s) w).1
          = listed (content_of data) None (ui w)) as ->.
  { unfold fetchCustomers. simpl. rewrite Hok. simpl.
    rewrite <- content_of_spec. by destruct (_ && _). }
  by apply render_rows.
Qed.

Lemma listed_rows_witness :
  let s' := ui (exec [FetchSettled (Fulfilled (Response 200));
                      JsonSettled (Fulfilled example_body)]
                     (fetchCustomers example_url init_state) example_world).1 in
  ∃ v, render s' = Some v ∧
    length (by_tag Tr (tbody_of v)) = 1%nat ∧
    text_of <$> by_tag Td v
    = [shown (JNum 1); shown (JNum 1); shown (JStr "A");
       shown (JStr "a@x.com"); shown (JStr "GROUP"); shown (JStr "555"); ""] ∧
    (λ sp, (text_of sp, class_of sp)) <$> by_tag Span (tbody_of v)
    = [(shown (JStr "GROUP"), Some (badge_class (JStr "GROUP")))].
Proof.
  apply (listed_rows example_url init_state example_world (Response 200)
           example_body); [done|done|].
  apply (bool_decide_unpack _). vm_compute. exact I.
Defined.
