(* ===== verification/Screen.v ===== *)
(** * The component as the user meets it

    [EventLoop.reachable] lets the user call any handler with any argument.
    Here the user can only do what the markup offers ([View.can_do]): the
    configurations [on_screen] are those reachable from the mount by events
    that the tree rendered from the current state offers, and by promises
    that settle.

    The markup of [Customers.js] attaches no element to [handleNext],
    [handlePrevious] and [goToPage], and it offers [handleEdit] only for
    the items of a list that rendered.  So on screen the page is always 1,
    the effect of lines 56-58 runs once, and no exception escapes a
    handler. *)

From stdpp Require Import gmap.
From S2P Require Import Prelude JsValue Json Proc Tasks Http Customers.
From S2P Require Import EventLoop View.

(** Whether the tree offers an event is decidable, by [can_do_spec]. *)
#[global] Instance can_do_dec s ev : Decision (can_do s ev).
Proof.
  refine (cast_if (decide (is_Some (render s) ∧ allowed s ev)));
    by rewrite can_do_allowed.
Defined.

(** A segment of a task that leaves the page as it is. *)
Definition keeps_page (w w' : world) : Prop :=
  guar w w' ∧ page (ui w') = page (ui w).

#[global] Instance keeps_page_preorder : PreOrder keeps_page.
Proof.
  split; [by split|].
  intros w1 w2 w3 [? ?] [? ?]. split; [by etrans|congruence].
Qed.

(** No exception may escape. *)
Definition no_failure (tg : origin) (x : js_error) : Prop := False.

Section screen.
Context (API_URL : jsval).

Inductive on_screen (storage : gmap string string) : config → Prop :=
| on_screen_mount : on_screen storage (mount API_URL storage)
| on_screen_user c u c' :
    on_screen storage c →
    can_do (state_now c) u →
    step API_URL c (User u) = Some c' →
    on_screen storage c'
| on_screen_settle c id ans c' :
    on_screen storage c →
    step API_URL c (Settle id ans) = Some c' →
    on_screen storage c'.

(** One step on screen, as a function: a user event applies when the
    current tree offers it. *)
Definition screen_step (c : config) (ev : event) : option config :=
  match ev with
  | User u => if decide (can_do (state_now c) u) then step API_URL c ev else None
  | Settle _ _ => step API_URL c ev
  end.

Fixpoint screen_steps (c : config) (evs : list event) : option config :=
  match evs with
  | [] => Some c
  | ev :: evs' => c' ← screen_step c ev; screen_steps c' evs'
  end.

(** The invariant of the configurations on screen. *)
Definition screen_inv (c : config) : Prop :=
  sound keeps_page Post no_failure c ∧
  page (state_now c) = 1 ∧ seen_page c = 1.

End screen.

(** ** A session

    The list arrives; the user opens the customer for editing, changes the
    name and submits; the server accepts and the list arrives again. *)

Definition session : list event :=
  settle_list 0 example_body ++
  [User (ClickEdit example_customer); User (ChangeCustomerName "Ann");
   User SubmitForm; Settle 3 (FetchSettled (Fulfilled (Response 200)))] ++
  settle_list 3 example_body.

(** The configuration after the events [evs] on screen (the mount when
    some event is not offered). *)
Definition shown_after (evs : list event) : config :=
  default (mount example_url example_storage)
    (screen_steps example_url (mount example_url example_storage) evs).

Ltac solve_keeps_page :=
  unfold keeps_page; simpl in *; split_and?; try done; solve_guar.

Section screen_facts.
Context (API_URL : jsval).
Implicit Types (c : config) (w : world) (s : state) (u : user_event).

#[local] Abbreviation Twp := (task_wp keeps_page keeps_page Post no_failure).

Lemma fetchCustomers_keeps_page s w :
  Twp FromEffect (fetchCustomers API_URL s) w.
Proof. unfold task_wp, fetchCustomers. wp_steps; solve_keeps_page. Qed.

(** What is offered for editing is not [null]. *)
Lemma can_do_edit s customer :
  can_do s (ClickEdit customer) → nullish customer = false.
Proof.
  intros [Hr [Hl Hin]]%can_do_allowed. apply render_defined in Hr as [?|Hall].
  { congruence. }
  apply (proj1 (Forall_forall _ _) Hall) in Hin. unfold renderable in Hin.
  by destruct (nullish customer).
Qed.

(** Every handler the markup offers keeps the page and lets no exception
    escape. *)
Lemma offered_handler_task u w :
  can_do (ui w) u → page_ok (ui w) →
  Twp (FromUser u) (handler API_URL (ui w) u) w.
Proof.
  intros Hu Hpage. pose proof Hu as [_ Hal]%can_do_allowed.
  destruct u; simpl in Hal; try done; simpl;
    try (apply can_do_edit in Hu; destruct customer; try done);
    unfold task_wp, handleSubmit, handleDelete, handleEdit, fetchCustomers,
      form_reset, mirrors;
    wp_steps; solve_keeps_page.
Qed.

Lemma mount_screen_inv storage : screen_inv (mount API_URL storage).
Proof.
  destruct (mount_sound API_URL keeps_page Post no_failure
              (fetchCustomers_keeps_page) storage) as [Hs [_ Hpage]].
  by split_and!.
Qed.

Lemma step_screen_inv c ev c' :
  screen_inv c →
  (∀ u, ev = User u → can_do (state_now c) u) →
  step API_URL c ev = Some c' →
  screen_inv c'.
Proof.
  intros (Hs & Hpage & Hseen) Hev Hstep.
  destruct (step_sound API_URL keeps_page Post no_failure
              fetchCustomers_keeps_page c ev c') as [Hs' [_ Hpage']];
    [done| |done|].
  { intros u ->. apply offered_handler_task; [by auto|].
    unfold page_ok, totalPages. fold (state_now c). lia. }
  pose proof (step_seen API_URL _ _ _ Hstep).
  unfold screen_inv, state_now in *. split_and!; [done|congruence..].
Qed.

Lemma on_screen_inv storage c : on_screen API_URL storage c → screen_inv c.
Proof.
  induction 1; [apply mount_screen_inv|eapply step_screen_inv; eauto..].
  - by intros ? [= <-].
  - done.
Qed.

(** What is on screen is reachable. *)
Lemma on_screen_reachable storage c :
  on_screen API_URL storage c → reachable API_URL storage c.
Proof. induction 1; eauto using reachable_mount, reachable_step. Qed.

(** C8: the user cannot leave page 1: in every configuration that the
    markup lets the user reach, whatever the network answers, the page
    number is 1. *)
Theorem on_screen_page_1 storage c :
  on_screen API_URL storage c → page (state_now c) = 1.
Proof. intros Hc. by apply (on_screen_inv storage c). Qed.

(** C33: on screen no exception escapes a handler: the markup offers
    [handleEdit] only for the items of a list that rendered, none of which
    is [null] or [undefined]. *)
Theorem on_screen_no_uncaught storage c :
  on_screen API_URL storage c → uncaught (tasks_of c) = [].
Proof.
  intros ([_ Hfail] & _)%on_screen_inv. unfold failures_allowed in Hfail.
  destruct (uncaught _) as [|[tg x] l]; [done|].
  by apply Forall_cons in Hfail as [[] _].
Qed.

(** While the user only does what the markup offers, a promise that
    settles never starts a task: the effect of lines 56-58 runs at the
    mount and never again. *)
Theorem on_screen_effect_once storage c ev c' :
  on_screen API_URL storage c →
  (∀ u, ev = User u → can_do (state_now c) u) →
  step API_URL c ev = Some c' →
  next_id (tasks_of c')
  = match ev with
    | User _ => S (next_id (tasks_of c))
    | Settle _ _ => next_id (tasks_of c)
    end.
Proof.
  intros Hc Hev Hstep. pose proof (on_screen_inv _ _ Hc) as Hinv.
  pose proof (step_screen_inv _ _ _ Hinv Hev Hstep) as (_ & Hpage' & _).
  destruct Hinv as (_ & _ & Hseen).
  destruct ev as [u|id ans]; simpl in Hstep.
  - injection Hstep as <-. rewrite useEffect_page_page in Hpage'.
    rewrite useEffect_page_idle by (simpl; congruence).
    apply start_next_id.
  - destruct (resume id ans (tasks_of c)) as [p'|] eqn:Hres; [|done].
    injection Hstep as <-. rewrite useEffect_page_page in Hpage'.
    rewrite useEffect_page_idle by (simpl; congruence).
    by apply resume_next_id in Hres.
Qed.

Lemma screen_step_on_screen storage c ev c' :
  on_screen API_URL storage c → screen_step API_URL c ev = Some c' →
  on_screen API_URL storage c'.
Proof.
  destruct ev as [u|id ans]; simpl; [case_decide; [|done]|];
    eauto using on_screen_user, on_screen_settle.
Qed.

Lemma screen_steps_on_screen storage evs c c' :
  on_screen API_URL storage c → screen_steps API_URL c evs = Some c' →
  on_screen API_URL storage c'.
Proof.
  revert c. induction evs as [|ev evs IH]; simpl; intros c Hc.
  { by intros [= <-]. }
  destruct (screen_step API_URL c ev) as [c1|] eqn:Hstep; [|done].
  simpl. eauto using screen_step_on_screen.
Qed.

End screen_facts.

(** ** The session on screen *)

Lemma shown_after_on_screen evs :
  on_screen example_url example_storage (shown_after evs).
Proof.
  unfold shown_after. destruct (screen_steps _ _ evs) as [c|] eqn:Hc; simpl.
  - eapply screen_steps_on_screen; [apply on_screen_mount|exact Hc].
  - apply on_screen_mount.
Qed.

(** The session runs on screen: it sends the list request of the mount,
    the PUT for customer 1 and the list request of the submit, and ends
    with an empty form and no task left. *)
Example session_runs :
  (λ c, (length (trace (world_now c)), customerName (state_now c),
         size (tasks (tasks_of c))))
  <$> screen_steps example_url (mount example_url example_storage) session
  = Some (4%nat, JStr "", 0%nat).
Proof. vm_compute. reflexivity. Qed.

(** A click on "next" is not offered. *)
Example next_not_offered :
  screen_steps example_url (mount example_url example_storage)
               [User ClickNext] = None.
Proof. vm_compute. reflexivity. Qed.

Lemma on_screen_page_1_witness : page (state_now (shown_after session)) = 1.
Proof. apply (on_screen_page_1 example_url example_storage), shown_after_on_screen. Defined.

Lemma on_screen_no_uncaught_witness :
  uncaught (tasks_of (shown_after session)) = [].
Proof.
  apply (on_screen_no_uncaught example_url example_storage),
    shown_after_on_screen.
Defined.

Lemma on_screen_effect_once_witness :
  next_id (tasks_of (default (shown_after session)
                       (step example_url (shown_after session)
                             (User SubmitForm))))
  = S (next_id (tasks_of (shown_after session))).
Proof.
  apply (on_screen_effect_once example_url example_storage
           (shown_after session) (User SubmitForm)).
  - apply shown_after_on_screen.
  - intros u [= <-].
    apply (bool_decide_unpack (can_do _ _)). vm_compute. reflexivity.
  - reflexivity.
Defined.
