(* ===== verification/Races.v ===== *)
(** * Requests that overlap

    The component starts a list request on mount and after every accepted
    submit and delete, and never cancels one.  The answers are applied as
    they arrive.  This file states what that means for every
    configuration the event loop reaches, with any number of requests in
    flight:

    - the list shown is the body that was read last, whichever request it
      answers;
    - the spinner goes off as soon as one call of [fetchCustomers] has
      ended, while the others are still waiting;
    - the form is emptied when a submit ends, with what the user has typed
      since.

    The facts are read off the machine of [Machine] and carried to the
    event loop by [Refine]. *)

From stdpp Require Import gmap.
From S2P Require Import Prelude JsValue Json Proc Tasks Http Customers.
From S2P Require Import EventLoop Machine Refine View Screen.

(** The user submits while the first list request is in flight; the
    server accepts (task 1), and the two list requests are answered. *)
Definition two_lists : list event :=
  [User SubmitForm;
   Settle 1 (FetchSettled (Fulfilled (Response 201)));
   Settle 0 (FetchSettled (Fulfilled (Response 200)));
   Settle 1 (FetchSettled (Fulfilled (Response 200)))].

(** The first list has arrived; the user submits (task 1), the server
    accepts, and the list is asked for again. *)
Definition submitting : list event :=
  [Settle 0 (FetchSettled (Fulfilled (Response 200)));
   Settle 0 (JsonSettled (Fulfilled page_1_body));
   User SubmitForm;
   Settle 1 (FetchSettled (Fulfilled (Response 201)));
   Settle 1 (FetchSettled (Fulfilled (Response 200)))].

Section races.
Context (API_URL : jsval).
Implicit Types (c : config) (m : machine) (w : world).

(** ** One settlement *)

(** A settlement is taken when the task is suspended on a promise of its
    kind. *)
Lemma settle_taken c id ans :
  is_Some (step API_URL c (Settle id ans)) ↔
  ∃ t, tasks (tasks_of c) !! id = Some t ∧
       is_Some (deliver (awaited t) ans).
Proof.
  unfold step, resume. destruct (tasks (tasks_of c) !! id) as [t|].
  - destruct (deliver (awaited t) ans) as [v|] eqn:Hv.
    + split; [|by eauto]. intros _. exists t. by rewrite Hv.
    + split; [by intros []|]. intros (? & [= <-] & Hs). rewrite Hv in Hs.
      by destruct Hs.
  - split; [by intros []|by intros (? & ? & _)].
Qed.

(** From a reachable configuration a settlement resumes one task and
    starts none: the page is as the effect has seen it. *)
Lemma settle_step storage c id ans c' :
  reachable API_URL storage c → step API_URL c (Settle id ans) = Some c' →
  ∃ p m m', resume id ans (tasks_of c) = Some p ∧ c' = Config p (seen_page c) ∧
    machine_reachable API_URL storage m ∧ represents API_URL c m ∧
    settle_task API_URL id ans m = Some m' ∧ represents API_URL c' m'.
Proof.
  intros (m & Hm & Hc)%reachable_represented. destruct c as [p sp]. simpl.
  pose proof (resume_represents API_URL id ans p m sp Hc) as Hr.
  destruct (resume id ans p) as [p'|]; [|done]. simpl. intros [= <-].
  inversion Hr as [p1 m' Hc' Hp1 Hm'|]; subst. symmetry in Hm'.
  destruct (settle_task_inv API_URL m id ans m') as (_ & _ & Hpage & Hseen);
    [by eapply machine_reachable_inv|done|].
  pose proof (machine_reachable_inv _ _ _ Hm) as (_ & Hsettled & _).
  rewrite useEffect_page_idle.
  { exists p', m, m'. by split_and!. }
  destruct Hc' as (Hw' & _ & _ & Hs' & _). unfold state_now. simpl in *.
  unfold settled_page in Hsettled. rewrite Hw', Hs'. congruence.
Qed.

(** What the settlement of a body does: the call of [fetchCustomers] that
    awaited it ends, and every other task stays as it is. *)
Lemma json_step storage c id r c' :
  reachable API_URL storage c →
  step API_URL c (Settle id (JsonSettled r)) = Some c' →
  (∃ who, world_now c'
          = (after_list_json who r (world_now c)).1) ∧
  tasks (tasks_of c') !! id = None ∧
  ∀ id', id ≠ id' → tasks (tasks_of c') !! id' = tasks (tasks_of c) !! id'.
Proof.
  intros Hc Hstep.
  destruct (settle_step _ _ _ _ _ Hc Hstep)
    as (p & m & m' & Hres & -> & Hm & Hr & Hset & Hr').
  destruct (settle_task_json _ _ _ _ _ Hset) as (who & Hid & ->).
  destruct Hr as (Hw & _), Hr' as (Hw' & _ & _ & _ & Ht'). split_and!.
  - exists who. by rewrite Hw', Hw.
  - specialize (Ht' id). simpl in Ht'. rewrite lookup_delete_eq in Ht'.
    by inversion Ht'.
  - intros id' Hne. by apply (resume_lookup_ne id id' _ _ _ Hne Hres).
Qed.

Lemma after_list_json_customers who data w :
  customers (ui (after_list_json who (Fulfilled data) w).1)
  = content_of data.
Proof. by destruct who as [|[|?]]. Qed.

Lemma after_list_json_loading who r w :
  isLoading (ui (after_list_json who r w).1) = false.
Proof. by destruct who as [|[|?]], r. Qed.

(** A user event leaves the suspended tasks as they are. *)
Lemma user_step_keeps storage c u c' id t :
  reachable API_URL storage c → step API_URL c (User u) = Some c' →
  tasks (tasks_of c) !! id = Some t → tasks (tasks_of c') !! id = Some t.
Proof.
  intros (_ & Hfresh & _)%reachable_inv [= <-] Hid.
  assert (tasks (start (FromUser u) (handler API_URL (state_now c) u)
                       (tasks_of c)) !! id = Some t) as Hid'.
  { rewrite start_lookup_old; eauto. }
  unfold useEffect_page. case_decide; [done|]. cbn [tasks_of].
  rewrite start_lookup_old; eauto using start_fresh.
Qed.

(** ** The list *)

(** C36: answers are applied in the order of their arrival.  When the
    bodies of two list responses are read one after the other, the list
    shown is the one read last; and the two could as well have been read
    in the other order, which shows the other list.  Nothing in the
    component tells which request was made last. *)
Theorem arrival_order_decides storage c id1 id2 d1 d2 c' :
  reachable API_URL storage c →
  steps API_URL c [Settle id1 (JsonSettled (Fulfilled d1));
                   Settle id2 (JsonSettled (Fulfilled d2))] = Some c' →
  customers (state_now c') = content_of d2 ∧
  ∃ c'', steps API_URL c [Settle id2 (JsonSettled (Fulfilled d2));
                          Settle id1 (JsonSettled (Fulfilled d1))]
         = Some c'' ∧
         customers (state_now c'') = content_of d1.
Proof.
  intros Hc. cbn [steps].
  destruct (step _ c _) as [c1|] eqn:H1; [|done]. cbn [mbind option_bind].
  destruct (step _ c1 _) as [c2|] eqn:H2; [|done]. intros [= <-].
  pose proof (reachable_step _ _ _ _ _ Hc H1) as Hc1.
  destruct (json_step _ _ _ _ _ Hc H1) as (_ & Hgone & Hkept).
  destruct (json_step _ _ _ _ _ Hc1 H2) as ([who Hw] & _). split.
  { unfold state_now. rewrite Hw. apply after_list_json_customers. }
  destruct (proj1 (settle_taken c1 id2 _) (mk_is_Some _ _ H2))
    as (t2 & Hid2 & Hans2).
  assert (id1 ≠ id2) as Hne by (intros ->; congruence).
  rewrite Hkept in Hid2 by done.
  destruct (proj1 (settle_taken c id1 _) (mk_is_Some _ _ H1))
    as (t1 & Hid1 & Hans1).
  destruct (proj2 (settle_taken c id2 (JsonSettled (Fulfilled d2))))
    as [c3 H3]; [by eauto|]. rewrite H3. cbn [mbind option_bind].
  pose proof (reachable_step _ _ _ _ _ Hc H3) as Hc3.
  destruct (json_step _ _ _ _ _ Hc H3) as (_ & _ & Hkept').
  destruct (proj2 (settle_taken c3 id1 (JsonSettled (Fulfilled d1))))
    as [c4 H4]; [rewrite Hkept' by done; by eauto|]. rewrite H4.
  exists c4. split; [done|].
  destruct (json_step _ _ _ _ _ Hc3 H4) as ([who' Hw'] & _).
  unfold state_now. rewrite Hw'. apply after_list_json_customers.
Qed.

(** ** The spinner *)

(** C37: the loading flag is one boolean for all the calls of
    [fetchCustomers].  When one of them has read its body, or failed to,
    the spinner goes off, and every other task stays suspended as it was:
    a list request that is still in flight is no longer announced. *)
Theorem loading_cleared_early storage c id r c' :
  reachable API_URL storage c →
  step API_URL c (Settle id (JsonSettled r)) = Some c' →
  isLoading (state_now c') = false ∧
  ∀ id', id' ≠ id → tasks (tasks_of c') !! id' = tasks (tasks_of c) !! id'.
Proof.
  intros Hc Hstep.
  destruct (json_step _ _ _ _ _ Hc Hstep) as ([who Hw] & _ & Hkept). split.
  - unfold state_now. rewrite Hw. apply after_list_json_loading.
  - intros id' Hne. by apply Hkept.
Qed.

(** ** The form *)

(** C38: what the user types while a submit is under way is lost.  The
    form shows the name typed; when the submit ends, however its
    requests ended, the form is empty. *)
Theorem late_reset_loses_input storage c id v ans c1 c2 :
  reachable API_URL storage c →
  Tasks.origin <$> tasks (tasks_of c) !! id = Some (FromUser SubmitForm) →
  step API_URL c (User (ChangeCustomerName v)) = Some c1 →
  step API_URL c1 (Settle id ans) = Some c2 →
  tasks (tasks_of c2) !! id = None →
  customerName (state_now c1) = JStr v ∧ form_reset (state_now c2).
Proof.
  intros Hc Hid H1 H2 Hgone. split.
  { injection H1 as <-. unfold useEffect_page. by case_decide. }
  destruct (tasks (tasks_of c) !! id) as [t|] eqn:Hid'; [|done].
  injection Hid as Ht. rename Hid' into Hid.
  pose proof (reachable_step _ _ _ _ _ Hc H1) as Hc1.
  pose proof (user_step_keeps _ _ _ _ _ _ Hc H1 Hid) as Hid1.
  destruct (settle_step _ _ _ _ _ Hc1 H2) as (p & _ & _ & Hres & -> & _).
  pose proof (reachable_inv _ _ _ Hc1) as ((Hob & _) & _).
  destruct (resume_ends guar guar Post Fail id ans _ _ t
              Hob Hid1 Hres Hgone) as [Hpost|(x & _ & Hfail)];
    rewrite Ht in *; done.
Qed.

End races.

(** ** On runs that the screen offers *)

(** The runs of the witnesses need no page change: every event of the
    user in them is offered by the markup. *)
Lemma witness_runs_on_screen :
  is_Some (screen_steps example_url (mount example_url example_storage)
             (two_lists ++
              [Settle 1 (JsonSettled (Fulfilled page_2_body));
               Settle 0 (JsonSettled (Fulfilled page_1_body))])) ∧
  is_Some (screen_steps example_url (mount example_url example_storage)
             (submitting ++
              [User (ChangeCustomerName "Bob");
               Settle 1 (JsonSettled (Fulfilled page_2_body))])).
Proof. split; apply (bool_decide_unpack _); vm_compute; exact I. Qed.

Lemma arrival_order_decides_witness :
  let c' := after (two_lists ++
                   [Settle 1 (JsonSettled (Fulfilled page_2_body));
                    Settle 0 (JsonSettled (Fulfilled page_1_body))]) in
  customers (state_now c') = content_of page_1_body ∧
  ∃ c'', steps example_url (after two_lists)
           [Settle 0 (JsonSettled (Fulfilled page_1_body));
            Settle 1 (JsonSettled (Fulfilled page_2_body))] = Some c'' ∧
         customers (state_now c'') = content_of page_2_body.
Proof.
  apply (arrival_order_decides example_url example_storage (after two_lists)
           1 0 page_2_body page_1_body).
  - apply after_reachable.
  - apply steps_after_app. apply (bool_decide_unpack _). vm_compute. exact I.
Defined.

Lemma loading_cleared_early_witness :
  let c := after two_lists in
  let c' := after (two_lists ++
                   [Settle 1 (JsonSettled (Fulfilled page_2_body))]) in
  is_Some (tasks (tasks_of c) !! 0%nat) ∧
  isLoading (state_now c') = false ∧
  ∀ id', id' ≠ 1%nat →
    tasks (tasks_of c') !! id' = tasks (tasks_of c) !! id'.
Proof.
  split; [apply (bool_decide_unpack _); vm_compute; exact I|].
  apply (loading_cleared_early example_url example_storage (after two_lists)
           1 (Fulfilled page_2_body)).
  - apply after_reachable.
  - apply step_after. apply (bool_decide_unpack _). vm_compute. exact I.
Defined.

Lemma late_reset_loses_input_witness :
  let c1 := after (submitting ++ [User (ChangeCustomerName "Bob")]) in
  let c2 := after ((submitting ++ [User (ChangeCustomerName "Bob")]) ++
                   [Settle 1 (JsonSettled (Fulfilled page_2_body))]) in
  customerName (state_now c1) = JStr "Bob" ∧ form_reset (state_now c2).
Proof.
  apply (late_reset_loses_input example_url example_storage
           (after submitting) 1 "Bob"
           (JsonSettled (Fulfilled page_2_body))).
  - apply after_reachable.
  - apply (bool_decide_unpack _). vm_compute. exact I.
  - apply step_after. apply (bool_decide_unpack _). vm_compute. exact I.
  - apply step_after. apply (bool_decide_unpack _). vm_compute. exact I.
  - apply eq_None_not_Some. apply (bool_decide_unpack _). vm_compute. exact I.
Defined.
