(* ===== verification/Typed.v ===== *)
(** * Complete records keep the state well typed

    The sources test a list response only for an array under [content]
    (line 43); what the array holds is copied to the state, shown, put into
    the form by [handleEdit] and sent back by [handleSubmit] unchecked.
    A customer record is complete ([is_customer]) when it is an object with
    an identifier that is a number or a string, with strings under [name],
    [email] and [phoneNumber], and with one of the three customer types.

    When the user does what the markup offers and every list the server
    sends holds complete records only, the state is well typed at every
    turn ([typed_state]): the list holds complete records, the form fields
    are strings, the type is one of the three, and the edit target is
    [null] or a complete record.  In a well typed state the markup renders,
    and the body of a submit reads back as the four strings of the form. *)

From stdpp Require Import gmap.
From S2P Require Import Prelude JsValue Json Proc Tasks Http Customers.
From S2P Require Import EventLoop Machine Refine View Screen.

(** ** Types of the data model *)

Definition is_text (v : jsval) : bool :=
  match v with JStr _ => true | _ => false end.

(** An identifier: opaque, assigned by the server. *)
Definition is_key (v : jsval) : bool :=
  match v with JStr _ | JNum _ => true | _ => false end.

(** The values of the [select] of lines 236-240. *)
Definition customer_types : list string :=
  ["INDIVIDUAL"; "GROUP"; "ORGANIZATION"].

Definition is_type (v : jsval) : bool :=
  match v with JStr t => bool_decide (t ∈ customer_types) | _ => false end.

Definition is_customer (v : jsval) : bool :=
  match v with
  | JObj _ =>
      is_key (get_field v "id") && is_text (get_field v "name") &&
      is_text (get_field v "email") && is_text (get_field v "phoneNumber") &&
      is_type (get_field v "customerType")
  | _ => false
  end.

Definition typed_state (s : state) : Prop :=
  Forall (λ c, is_customer c = true) (customers s) ∧
  is_text (customerName s) = true ∧ is_text (email s) = true ∧
  is_text (phoneNumber s) = true ∧ is_type (customerType s) = true ∧
  (customerEdit s = JNull ∨ is_customer (customerEdit s) = true).

#[global] Instance typed_state_dec s : Decision (typed_state s).
Proof. unfold typed_state. apply _. Defined.

(** A suspended submit was made from a well typed form; the other
    functions read nothing of their closure but the page. *)
Definition typed_phase (ph : phase) : Prop :=
  match ph with
  | Sending Submit s => typed_state s
  | _ => True
  end.

(** The state is well typed and so is what the suspended functions will
    send. *)
Definition typed_machine (m : machine) : Prop :=
  typed_state (ui (now m)) ∧ map_Forall (λ _, typed_phase) (pending m).

(** A list response holds complete records only. *)
Definition typed_answer (ans : answer) : Prop :=
  match ans with
  | JsonSettled (Fulfilled data) =>
      Forall (λ c, is_customer c = true) (content_of data)
  | _ => True
  end.

#[global] Instance typed_answer_dec ans : Decision (typed_answer ans).
Proof. destruct ans as [r|[data|x]]; simpl; apply _. Defined.

(** An event of a session with a server that sends complete records:
    the user does what the markup offers in state [s]. *)
Definition typed_event (s : state) (ev : event) : Prop :=
  match ev with
  | User u => can_do s u
  | Settle _ ans => typed_answer ans
  end.

(** The settlements of [evs] carry complete records. *)
Definition typed_answers (evs : list event) : Prop :=
  Forall (λ ev, match ev with Settle _ ans => typed_answer ans | User _ => True end)
         evs.

#[global] Instance typed_answers_dec evs : Decision (typed_answers evs).
Proof.
  unfold typed_answers. apply Forall_dec. intros [u|id ans]; apply _.
Defined.

(** ** Facts *)

Section typed_facts.
Context (API_URL : jsval).
Implicit Types (s : state) (w : world) (m : machine) (c : config)
  (customer : jsval).

Lemma is_customer_fields customer :
  is_customer customer = true →
  nullish customer = false ∧ is_key (get_field customer "id") = true ∧
  is_text (get_field customer "name") = true ∧
  is_text (get_field customer "email") = true ∧
  is_text (get_field customer "phoneNumber") = true ∧
  is_type (get_field customer "customerType") = true.
Proof.
  destruct customer; simpl; try done.
  rewrite !andb_true_iff. intros. by destruct_and!.
Qed.

Lemma is_key_show v : is_key v = true → can_show v = true.
Proof. by destruct v. Qed.

Lemma is_text_show v : is_text v = true → can_show v = true.
Proof. by destruct v. Qed.

Lemma is_type_show v : is_type v = true → can_show (badge_text v) = true.
Proof. destruct v; try done. unfold badge_text, js_or. by case_match. Qed.

(** A complete record has a row. *)
Lemma is_customer_renderable customer :
  is_customer customer = true → renderable customer = true.
Proof.
  intros (Hn & Hid & Hname & Hmail & Hphone & Htype)%is_customer_fields.
  unfold renderable.
  by rewrite Hn, is_type_show, is_key_show, !is_text_show.
Qed.

(** *** Every segment keeps the state well typed *)

Lemma init_state_typed : typed_state init_state.
Proof. unfold typed_state. simpl. split_and!; [constructor|done..|by left]. Qed.

Lemma begin_typed u w :
  typed_state (ui w) → can_do (ui w) u →
  typed_state (ui (begin API_URL u w).1).
Proof.
  intros (Hl & Hn & Hm & Hp & Ht & He) [_ Hu]%can_do_allowed.
  destruct u; simpl in *; try done; unfold typed_state; simpl;
    try by repeat case_match.
  - destruct Hu as [_ Hin]. apply (proj1 (Forall_forall _ _) Hl) in Hin.
    pose proof (is_customer_fields _ Hin) as (-> & ? & ? & ? & ? & ?).
    simpl. split_and!; auto.
  - split_and!; try done. by apply bool_decide_eq_true.
Qed.

Lemma begin_list_typed s w :
  typed_state (ui w) → typed_state (ui (begin_list API_URL s w)).
Proof. done. Qed.

Lemma cleared_typed s : typed_state s → typed_state (cleared s).
Proof.
  intros (Hl & _). unfold typed_state. simpl. split_and!; [done..|by left].
Qed.

Lemma listed_typed l e s :
  Forall (λ x, is_customer x = true) l → typed_state s →
  typed_state (listed l e s).
Proof. intros Hl (_ & ?). by split. Qed.

Lemma advance_typed ph ans w w' next :
  typed_state (ui w) → typed_answer ans →
  advance API_URL ph ans w = Some (w', next) → typed_state (ui w').
Proof.
  intros Hw Hans.
  destruct ph as [[|?] s|[|[|?]] ?|[|[|?]]], ans as [[resp|x]|[data|x]]; simpl;
    try done; try destruct (ok resp); intros [= <- <-]; simpl;
    try apply cleared_typed; try apply listed_typed; try done;
    by destruct Hw.
Qed.

Lemma effect_typed m :
  typed_state (ui (now m)) → typed_state (ui (now (effect API_URL m))).
Proof. unfold effect. by case_decide. Qed.

(** Every turn of the machine keeps the state well typed, when the user
    does what the markup offers and the settled list holds complete
    records only. *)
Lemma machine_step_typed m ev m' :
  typed_state (ui (now m)) → typed_event (ui (now m)) ev →
  machine_step API_URL m ev = Some m' →
  typed_state (ui (now m')).
Proof.
  intros Hm Hev. destruct ev as [u|id ans]; simpl.
  - intros [= <-]. apply effect_typed. unfold call.
    pose proof (begin_typed u (now m) Hm Hev).
    by destruct (begin _ u (now m)) as [w [|x|ph]].
  - unfold settle_task.
    destruct (pending m !! id) as [ph|]; [|done]. simpl.
    destruct (advance _ ph ans (now m)) as [[w next]|] eqn:Hadv; [|done].
    intros [= <-]. apply effect_typed. simpl. eauto using advance_typed.
Qed.

(** *** What the suspended functions will send *)

Lemma begin_phase u w ph :
  typed_state (ui w) → (begin API_URL u w).2 = Parked ph → typed_phase ph.
Proof. destruct u; simpl; try done; [by intros ? [= <-]..|by case_match]. Qed.

Lemma advance_phase ph ans w w' ph' :
  advance API_URL ph ans w = Some (w', Some ph') → typed_phase ph'.
Proof.
  destruct ph as [mu s|who s|who], ans as [[resp|x]|[data|x]]; simpl;
    try done; try destruct (ok resp); by intros [= <- <-].
Qed.

Lemma call_phases tg r m :
  map_Forall (λ _, typed_phase) (pending m) →
  (∀ ph, r.2 = Parked ph → typed_phase ph) →
  map_Forall (λ _, typed_phase) (pending (call tg r m)).
Proof.
  intros Hm Hr. destruct r as [w [|x|ph]]; unfold call; simpl in *;
    [by apply map_Forall_delete..|]. apply map_Forall_insert_2; auto.
Qed.

Lemma effect_phases m :
  map_Forall (λ _, typed_phase) (pending m) →
  map_Forall (λ _, typed_phase) (pending (effect API_URL m)).
Proof.
  intros Hm. unfold effect. case_decide; [done|].
  by apply map_Forall_insert_2.
Qed.

(** Every turn keeps the machine well typed. *)
Lemma machine_step_typed_machine m ev m' :
  typed_machine m → typed_event (ui (now m)) ev →
  machine_step API_URL m ev = Some m' → typed_machine m'.
Proof.
  intros [Hs Hp] Hev Hstep. split; [by eapply machine_step_typed|].
  revert Hstep. destruct ev as [u|id ans]; simpl.
  - intros [= <-]. apply effect_phases, call_phases; [done|].
    intros ph. by apply begin_phase.
  - unfold settle_task.
    destruct (pending m !! id) as [ph|]; [|done]. simpl.
    destruct (advance _ ph ans (now m)) as [[w [ph'|]]|] eqn:Hadv; [| |done];
      intros [= <-]; apply effect_phases; simpl;
      [apply map_Forall_insert_2|apply map_Forall_delete]; try done.
    by eapply advance_phase.
Qed.

Lemma machine_mount_typed storage :
  typed_machine (machine_mount API_URL storage).
Proof.
  split; [apply init_state_typed|].
  unfold machine_mount, call. simpl. by apply map_Forall_insert_2.
Qed.

(** *** What a well typed state gives *)

Lemma typed_renders s : typed_state s → is_Some (render s).
Proof.
  intros (Hl & _). apply render_defined. right.
  eapply Forall_impl; [done|apply is_customer_renderable].
Qed.

Lemma typed_submit s w :
  typed_state s →
  ∃ name mail phone type,
    req_body (submit_request API_URL s w) ≫= read_body
    = Some (name, mail, phone, type) ∧
    customerName s = JStr name ∧ type ∈ customer_types.
Proof.
  intros (Hl & Hn & Hm & Hp & Ht & _).
  destruct (customerName s) as [| | | |name| |] eqn:En; try done.
  destruct (email s) as [| | | |mail| |] eqn:Em; try done.
  destruct (phoneNumber s) as [| | | |phone| |] eqn:Ep; try done.
  destruct (customerType s) as [| | | |type| |] eqn:Et; try done.
  exists name, mail, phone, type. split_and!; [|done|].
  - by apply payload_reads.
  - by apply bool_decide_eq_true in Ht.
Qed.

(** *** Sessions *)

(** A step on screen is a step of the event loop with an event the
    markup offers. *)
Lemma screen_step_step c ev c' :
  screen_step API_URL c ev = Some c' →
  step API_URL c ev = Some c' ∧
  ∀ u, ev = User u → can_do (state_now c) u.
Proof.
  destruct ev as [u|id ans]; simpl; [case_decide; [|done]|];
    intros Hstep; (split; [done|]); by intros ? [= <-].
Qed.

Lemma screen_steps_typed evs c m c' :
  represents API_URL c m → typed_state (state_now c) → typed_answers evs →
  screen_steps API_URL c evs = Some c' → typed_state (state_now c').
Proof.
  revert c m. induction evs as [|ev evs IH]; simpl; intros c m Hc Ht Hevs.
  { by intros [= <-]. }
  destruct (screen_step _ c ev) as [c1|] eqn:Hstep; [|done]. simpl.
  apply screen_step_step in Hstep as [Hstep Hu].
  apply Forall_cons in Hevs as [Hev Hevs].
  pose proof (step_represents _ c m ev Hc) as Hr. rewrite Hstep in Hr.
  inversion Hr as [c2 m1 Hc1 Hc2 Hm1|]; subst.
  pose proof Hc as (Hw & _). pose proof Hc1 as (Hw1 & _).
  unfold state_now in *. rewrite Hw in *.
  apply (IH c1 m1); [done| |done]. rewrite Hw1.
  apply (machine_step_typed m ev); [done| |done].
  destruct ev; [by apply Hu|done].
Qed.

(** C13: in a session with a server that sends complete records the
    state is well typed at every turn: the list holds complete records,
    the form fields are strings, the type is one of the three, and the
    edit target is [null] or a complete record. *)
Theorem session_typed storage evs c :
  typed_answers evs →
  screen_steps API_URL (mount API_URL storage) evs = Some c →
  typed_state (state_now c).
Proof.
  intros Hevs. apply (screen_steps_typed evs _ _ _ (mount_represents _ _));
    [|done]. apply init_state_typed.
Qed.

(** A well typed state renders, and the body of a submit made from
    it reads back as the four strings of the form. *)
Theorem typed_state_sound s w :
  typed_state s →
  is_Some (render s) ∧
  ∃ name mail phone type,
    req_body (submit_request API_URL s w) ≫= read_body
    = Some (name, mail, phone, type) ∧
    customerName s = JStr name ∧ type ∈ customer_types.
Proof. intros Hs. split; [by apply typed_renders|by apply typed_submit]. Qed.

End typed_facts.

(** ** On the session of [Screen] *)

Lemma session_typed_witness : typed_state (state_now (shown_after session)).
Proof.
  apply (session_typed example_url example_storage session).
  - apply (bool_decide_unpack _). vm_compute. exact I.
  - unfold shown_after.
    destruct (screen_steps _ _ session) as [c|] eqn:Hc; [done|].
    exfalso. revert Hc. apply (bool_decide_unpack _). vm_compute. exact I.
Defined.

Lemma typed_state_sound_witness :
  is_Some (render example_state) ∧
  ∃ name mail phone type,
    req_body (submit_request example_url example_state example_world)
      ≫= read_body = Some (name, mail, phone, type) ∧
    customerName example_state = JStr name ∧ type ∈ customer_types.
Proof.
  apply (typed_state_sound example_url example_state example_world).
  apply (bool_decide_unpack _). vm_compute. exact I.
Defined.
