(* ===== verification/Server.v ===== *)
(** * The component against a REST server

    The sources name the server only by the requests they send it.  What
    the component needs of it is little, and is stated here as the class
    [RestServer]: a server has a state, answers a request with a status and
    a body, and

    - answers the list request of a page within the pages, made with the
      token it accepts, with a 2xx status and a body whose [content] is
      its list of that page, and stays as it is ([handle_list]);
    - does not change its lists when it refuses a request ([handle_refused]).

    How it creates, updates and deletes is left open.  [memory_server] is
    one server: records in a list, ten to a page.

    A [system] is the machine of [Machine] with a server in place of the
    environment: the answer to a request is what the server makes of it at
    the moment the answer is delivered, and the network loses nothing.  In
    a sequential session the user acts when nothing is pending
    ([session]).  Then after every action the list on screen is the
    server's list of the page shown ([session_at_rest]): fetching the list
    again after every change keeps the screen true to the server, as long
    as requests do not overlap.  When the user does not wait ([moves]:
    actions that the screen offers and answers in any order) they do:
    [Races] says what follows for any environment, and
    [overlap_shows_deleted] is a run with the server in memory that ends
    with a deleted record on screen. *)

From stdpp Require Import gmap.
From S2P Require Import Prelude JsValue Json Proc Tasks Http Customers.
From S2P Require Import EventLoop Machine View Screen.

(** ** What the component asks of a server *)

Class RestServer (St : Type) := {
  handle : St → request → St * (response * jsval);
  listing : St → Z → list jsval;
  accepted : string;
}.

Class RestServerLaws (API_URL : jsval) (St : Type) `{!RestServer St} := {
  handle_list st s w :
    getItem "userToken" w = JStr (accepted (St:=St)) → page_ok s →
    ∃ resp body,
      handle st (list_request API_URL s w) = (st, (resp, body)) ∧
      ok resp = true ∧ content_of body = listing st (page s);
  handle_refused st req st' resp body :
    handle st req = (st', (resp, body)) → ok resp = false →
    ∀ p, listing st' p = listing st p;
}.

#[global] Hint Mode RestServer ! : typeclass_instances.

(** ** The closed system *)

(** A move of the system: the user acts, or the answer that task [id]
    awaits arrives. *)
Inductive move : Type :=
| Does (u : user_event)
| Answers (id : nat).

Section system.
Context (API_URL : jsval) {St : Type} `{!RestServer St}.

(** The machine, the server, and the bodies of the answers whose status
    has been delivered. *)
Record system : Type := System {
  client : machine;
  server : St;
  bodies : gmap nat jsval;
}.

(** The user acts. *)
Definition act (u : user_event) (sys : system) : system :=
  System (default (client sys) (machine_step API_URL (client sys) (User u)))
         (server sys) (bodies sys).

(** The answer awaited by task [id] is delivered: to a request, what the
    server makes of it now; to the read of a body, the body that came with
    the status. *)
Definition deliver_to (id : nat) (sys : system) : option system :=
  ph ← pending (client sys) !! id;
  match request_of API_URL ph (now (client sys)) with
  | Some req =>
      let r := handle (server sys) req in
      m ← machine_step API_URL (client sys)
             (Settle id (FetchSettled (Fulfilled r.2.1)));
      Some (System m r.1 (<[id := r.2.2]> (bodies sys)))
  | None =>
      body ← bodies sys !! id;
      m ← machine_step API_URL (client sys)
             (Settle id (JsonSettled (Fulfilled body)));
      Some (System m (server sys) (delete id (bodies sys)))
  end.

(** The pending task with the least number. *)
Definition next_task (m : machine) : option nat :=
  fst <$> head (map_to_list (pending m)).

(** Answers are delivered until nothing is pending, [n] at most. *)
Fixpoint serve (n : nat) (sys : system) : system :=
  match n with
  | O => sys
  | S n' =>
      match next_task (client sys) ≫= λ id, deliver_to id sys with
      | Some sys' => serve n' sys'
      | None => sys
      end
  end.

(** The system after the first render and its list request. *)
Definition boot (storage : gmap string string) (st : St) : system :=
  serve 2 (System (machine_mount API_URL storage) st ∅).

(** A sequential session: after each action of the user every answer
    arrives before the next one. *)
Definition session (storage : gmap string string) (st : St)
    (us : list user_event) : system :=
  foldl (λ sys u, serve 3 (act u sys)) (boot storage st) us.

(** Any run: the user does what the screen offers without waiting, and
    the answers arrive in any order. *)
Definition move_step (sys : system) (mv : move) : option system :=
  match mv with
  | Does u =>
      if decide (can_do (ui (now (client sys))) u) then Some (act u sys)
      else None
  | Answers id => deliver_to id sys
  end.

Definition moves (sys : system) (mvs : list move) : option system :=
  foldl (λ o mv, o ≫= λ sys, move_step sys mv) (Some sys) mvs.

(** The list on screen is the server's list of the page shown. *)
Definition in_sync (sys : system) : Prop :=
  customers (ui (now (client sys)))
  = listing (server sys) (page (ui (now (client sys)))).

(** Nothing is pending, and the screen is true to the server. *)
Definition at_rest (sys : system) : Prop :=
  pending (client sys) = ∅ ∧ in_sync sys ∧
  isLoading (ui (now (client sys))) = false ∧
  error (ui (now (client sys))) = None ∧
  settled_page (client sys) ∧ page_ok (ui (now (client sys))) ∧
  getItem "userToken" (now (client sys)) = JStr (accepted (St:=St)).

(** The same but for the pending task. *)
Definition at_rest_but_pending (sys : system) : Prop :=
  in_sync sys ∧
  isLoading (ui (now (client sys))) = false ∧
  error (ui (now (client sys))) = None ∧
  page_ok (ui (now (client sys))) ∧
  getItem "userToken" (now (client sys)) = JStr (accepted (St:=St)).

End system.

#[global] Arguments system : clear implicits.

(** ** One server: records in memory

    The records are kept in a list, in the order of their creation, ten to
    a page; a key is the number of the record's creation.  The server
    knows the requests by their method and URL: the list URL of each of
    the pages, the collection URL, and the URL of each record it holds.  A
    request without the token it accepts is answered 401, one it does not
    know 404, a body it cannot read 400. *)

Record store : Type := Store {
  records : list jsval;
  next_key : Z;
}.

Inductive operation : Type :=
| ListPage (p : Z)
| Create
| Update (id : jsval)
| Remove (id : jsval).

Definition page_of (l : list jsval) (p : Z) : list jsval :=
  take 10 (drop (10 * Z.to_nat (p - 1)) l).

(** A record with key [id] made of the four members of a body. *)
Definition record_of (id : jsval) (f : string * string * string * string)
    : jsval :=
  JObj [("id", id); ("name", JStr f.1.1.1); ("email", JStr f.1.1.2);
        ("phoneNumber", JStr f.1.2); ("customerType", JStr f.2)].

Section memory_server.
Context (API_URL : jsval) (token : string).

Definition authorized (req : request) : bool :=
  bool_decide (("Authorization", "Bearer " +:+ token) ∈ req_headers req).

Definition route (st : store) (req : request) : option operation :=
  match req_method req with
  | GET =>
      ListPage <$>
        find (λ p, bool_decide (req_url req = pagination_url API_URL p))
             (seqZ 1 totalPages)
  | POST =>
      if decide (req_url req = collection_url API_URL) then Some Create
      else None
  | PUT =>
      Update <$>
        find (λ id, bool_decide (req_url req = record_url API_URL id))
             ((λ r, get_field r "id") <$> records st)
  | DELETE =>
      Remove <$>
        find (λ id, bool_decide (req_url req = record_url API_URL id))
             ((λ r, get_field r "id") <$> records st)
  end.

Definition memory_handle (st : store) (req : request)
    : store * (response * jsval) :=
  if negb (authorized req) then (st, (Response 401, JNull))
  else
    match route st req with
    | Some (ListPage p) =>
        (st, (Response 200, JObj [("content", JArr (page_of (records st) p))]))
    | Some Create =>
        match req_body req ≫= read_body with
        | Some f =>
            (Store (records st ++ [record_of (JNum (next_key st)) f])
                   (next_key st + 1),
             (Response 201, record_of (JNum (next_key st)) f))
        | None => (st, (Response 400, JNull))
        end
    | Some (Update id) =>
        match req_body req ≫= read_body with
        | Some f =>
            (Store ((λ r, if decide (get_field r "id" = id)
                          then record_of id f else r) <$> records st)
                   (next_key st),
             (Response 200, record_of id f))
        | None => (st, (Response 400, JNull))
        end
    | Some (Remove id) =>
        (Store (filter (λ r, get_field r "id" ≠ id) (records st))
               (next_key st),
         (Response 204, JNull))
    | None => (st, (Response 404, JNull))
    end.

Definition memory_server : RestServer store :=
  {| handle := memory_handle;
     listing st := page_of (records st);
     accepted := token |}.

End memory_server.

(** The server of the examples: it accepts the token of
    [example_storage]. *)
Definition example_server : RestServer store :=
  memory_server example_url "t0k3n".

#[local] Existing Instance example_server.

(** The session of the examples with this server, empty at first. *)
Definition example_session (us : list user_event) : system store :=
  @session example_url store example_server example_storage (Store [] 1) us.

Section system_facts.
Context (API_URL : jsval) {St : Type} `{!RestServer St}.
Context `{!RestServerLaws API_URL St}.
Implicit Types (m : machine) (sys : system St) (st : St) (w : world).

(** *** Turns of a machine with one task *)

Lemma settle_listing m id who s resp :
  pending m = {[id := Listing who s]} → settled_page m → ok resp = true →
  machine_step API_URL m (Settle id (FetchSettled (Fulfilled resp)))
  = Some (Machine (now m) {[id := Parsing who]} (fresh m) (escaped m)
                  (effect_page m)).
Proof.
  intros Hp Hs Hok. simpl. unfold settle_task. rewrite Hp, lookup_singleton_eq.
  simpl. rewrite Hok. simpl. unfold effect, settle_in. simpl.
  rewrite decide_True by done. by rewrite Hp, insert_singleton_eq.
Qed.

Lemma settle_parsing m id who body :
  pending m = {[id := Parsing who]} → settled_page m →
  machine_step API_URL m (Settle id (JsonSettled (Fulfilled body)))
  = Some (Machine (returned who (list_arrived body (now m))) ∅ (fresh m)
                  (escaped m) (effect_page m)).
Proof.
  intros Hp Hs. simpl. unfold settle_task. rewrite Hp, lookup_singleton_eq.
  simpl. unfold effect, settle_in. simpl.
  rewrite decide_True by (by destruct who as [|[|?]]).
  by rewrite Hp, delete_singleton_eq.
Qed.

Lemma settle_sending_ok m id mu s resp :
  pending m = {[id := Sending mu s]} → settled_page m → ok resp = true →
  machine_step API_URL m (Settle id (FetchSettled (Fulfilled resp)))
  = Some (Machine (begin_list API_URL s (now m)) {[id := Listing (After mu) s]}
                  (fresh m) (escaped m) (effect_page m)).
Proof.
  intros Hp Hs Hok. simpl. unfold settle_task. rewrite Hp, lookup_singleton_eq.
  simpl. rewrite Hok. simpl. unfold effect, settle_in. simpl.
  rewrite decide_True by done. by rewrite Hp, insert_singleton_eq.
Qed.

Lemma settle_sending_refused m id mu s resp :
  pending m = {[id := Sending mu s]} → settled_page m → ok resp = false →
  machine_step API_URL m (Settle id (FetchSettled (Fulfilled resp)))
  = Some (Machine
            (returned (After mu)
               (mutation_failed
                  (Error ("HTTP error! status: " +:+ show_Z (status resp)))
                  (now m)))
            ∅ (fresh m) (escaped m) (effect_page m)).
Proof.
  intros Hp Hs Hok. simpl. unfold settle_task. rewrite Hp, lookup_singleton_eq.
  simpl. rewrite Hok. simpl. unfold effect, settle_in. simpl.
  rewrite decide_True by (by destruct mu).
  by rewrite Hp, delete_singleton_eq.
Qed.

(** *** Serving one task *)

Lemma next_task_singleton m id ph :
  pending m = {[id := ph]} → next_task m = Some id.
Proof. intros Hp. unfold next_task. by rewrite Hp, map_to_list_singleton. Qed.

Lemma serve_at_rest n sys : pending (client sys) = ∅ → serve API_URL n sys = sys.
Proof.
  intros Hp. destruct n; [done|]. simpl. unfold next_task.
  by rewrite Hp, map_to_list_empty.
Qed.

Lemma serve_S n sys id :
  next_task (client sys) = Some id →
  serve API_URL (S n) sys
  = match deliver_to API_URL id sys with Some sys' => serve API_URL n sys' | None => sys end.
Proof. intros Hid. simpl. by rewrite Hid. Qed.

(** The answer to a request: the server handles the request, the task
    takes the status, the body waits. *)
Lemma deliver_to_fetch sys id ph req m :
  pending (client sys) !! id = Some ph →
  request_of API_URL ph (now (client sys)) = Some req →
  machine_step API_URL (client sys)
    (Settle id (FetchSettled (Fulfilled (handle (server sys) req).2.1)))
  = Some m →
  deliver_to API_URL id sys
  = Some (System m (handle (server sys) req).1
                 (<[id := (handle (server sys) req).2.2]> (bodies sys))).
Proof.
  intros Hid Hreq Hm. unfold deliver_to. rewrite Hid. cbn [mbind option_bind].
  rewrite Hreq. cbv zeta. by rewrite Hm.
Qed.

Lemma deliver_to_json sys id who body m :
  pending (client sys) !! id = Some (Parsing who) →
  bodies sys !! id = Some body →
  machine_step API_URL (client sys) (Settle id (JsonSettled (Fulfilled body)))
  = Some m →
  deliver_to API_URL id sys = Some (System m (server sys) (delete id (bodies sys))).
Proof.
  intros Hid Hbody Hm. unfold deliver_to. rewrite Hid.
  cbn [mbind option_bind request_of]. rewrite Hbody.
  cbn [mbind option_bind]. by rewrite Hm.
Qed.

(** A call of [fetchCustomers] that awaits its answer ends with the
    server's list of its page on screen. *)
Lemma serve_listing n sys id who s :
  pending (client sys) = {[id := Listing who s]} →
  settled_page (client sys) →
  page s = page (ui (now (client sys))) → page_ok s →
  getItem "userToken" (now (client sys)) = JStr (accepted (St:=St)) →
  error (ui (now (client sys))) = None →
  at_rest (serve API_URL (2 + n) sys).
Proof.
  intros Hp Hs Hpage Hok Htok Herr.
  destruct (handle_list (server sys) s (now (client sys)) Htok Hok)
    as (resp & body & Hh & Hresp & Hbody).
  change (2 + n)%nat with (S (S n)).
  rewrite (serve_S _ _ id) by by eapply next_task_singleton.
  rewrite (deliver_to_fetch sys id (Listing who s)
             (list_request API_URL s (now (client sys)))
             (Machine (now (client sys)) {[id := Parsing who]}
                (fresh (client sys)) (escaped (client sys))
                (effect_page (client sys))));
    [|by rewrite Hp, lookup_singleton_eq|done
     |rewrite Hh; by apply (settle_listing _ id who s)].
  rewrite Hh. cbn [fst snd].
  rewrite (serve_S _ _ id) by by eapply next_task_singleton.
  erewrite (deliver_to_json _ id who body);
    [|apply lookup_singleton_eq|apply lookup_insert_eq
     |by apply settle_parsing].
  rewrite serve_at_rest by done.
  unfold at_rest, in_sync, settled_page in *. cbn [client server now].
  destruct who as [|[|?]]; simpl; rewrite Hbody; split_and!; try done;
    unfold page_ok in *; simpl; congruence.
Qed.

(** A submit or a delete that awaits its answer ends with the server's
    list on screen, whether the server accepts it or not. *)
Lemma serve_sending n sys id mu s :
  pending (client sys) = {[id := Sending mu s]} →
  settled_page (client sys) →
  s = ui (now (client sys)) → at_rest_but_pending sys →
  at_rest (serve API_URL (3 + n) sys).
Proof.
  intros Hp Hs -> (Hsync & Hl & Herr & Hok & Htok).
  destruct (request_of API_URL (Sending mu (ui (now (client sys))))
              (now (client sys))) as [req|] eqn:Hreq; [|by destruct mu].
  destruct (handle (server sys) req) as [st' [resp body]] eqn:Hh.
  change (3 + n)%nat with (S (2 + n)).
  rewrite (serve_S _ _ id) by by eapply next_task_singleton.
  destruct (ok resp) eqn:Hresp.
  - erewrite (deliver_to_fetch sys id _ req);
      [|by rewrite Hp, lookup_singleton_eq|done
       |rewrite Hh; by apply (settle_sending_ok _ id mu (ui (now (client sys))))].
    by apply (serve_listing _ _ id (After mu) (ui (now (client sys)))).
  - erewrite (deliver_to_fetch sys id _ req);
      [|by rewrite Hp, lookup_singleton_eq|done
       |rewrite Hh;
        by apply (settle_sending_refused _ id mu (ui (now (client sys))))].
    rewrite serve_at_rest by done. rewrite Hh.
    unfold at_rest, in_sync, settled_page in *. cbn [client server now fst].
    rewrite (handle_refused _ _ _ _ _ Hh Hresp).
    by destruct mu.
Qed.

(** *** The user acts at rest *)

(** What the first segment of a handler leaves alone. *)
Lemma begin_at_rest u w :
  customers (ui (begin API_URL u w).1) = customers (ui w) ∧
  isLoading (ui (begin API_URL u w).1) = isLoading (ui w) ∧
  error (ui (begin API_URL u w).1) = error (ui w) ∧
  localStorage (begin API_URL u w).1 = localStorage w ∧
  (page_ok (ui w) → page_ok (ui (begin API_URL u w).1)) ∧
  match (begin API_URL u w).2 with
  | Parked ph =>
      (∃ mu, ph = Sending mu (ui w)) ∧ ui (begin API_URL u w).1 = ui w
  | _ => True
  end.
Proof.
  destruct u; simpl; try destruct (nullish customer); simpl;
    repeat case_match; simpl; split_and!;
    eauto; unfold page_ok, totalPages in *; simpl; lia.
Qed.

(** After a handler that is over, the effect fetches the list when the
    page has changed. *)
Lemma serve_effect n m st bs :
  pending m = ∅ → page_ok (ui (now m)) →
  getItem "userToken" (now m) = JStr (accepted (St:=St)) →
  isLoading (ui (now m)) = false → error (ui (now m)) = None →
  (page (ui (now m)) = effect_page m →
   customers (ui (now m)) = listing st (page (ui (now m)))) →
  at_rest (serve API_URL (2 + n) (System (effect API_URL m) st bs)).
Proof.
  intros Hp Hok Htok Hl Herr Hsync. unfold effect.
  case_decide as Hpage.
  - rewrite serve_at_rest by done.
    unfold at_rest, in_sync, settled_page. simpl. split_and!; auto.
  - apply (serve_listing _ _ (fresh m) Effect (ui (now m))); try done.
    cbn [client pending call snd saw]. by rewrite Hp, insert_empty.
Qed.

Lemma act_serve u sys :
  at_rest sys → at_rest (serve API_URL 3 (act API_URL u sys)).
Proof.
  intros (Hp & Hsync & Hl & Herr & Hs & Hok & Htok). unfold act.
  cbn [machine_step default].
  pose proof (begin_at_rest u (now (client sys)))
    as (Hc & Hl' & Herr' & Hst & Hok' & Hph).
  destruct (begin API_URL u (now (client sys))) as [w r] eqn:Hb.
  cbn [fst snd] in *. unfold in_sync, settled_page, getItem in *.
  destruct r as [|x|ph]; unfold call; cbn [snd fst]; rewrite Hp.
  1,2: apply (serve_effect 1); cbn [now pending effect_page];
    rewrite ?delete_empty; unfold getItem; try congruence; auto.
  destruct Hph as [[mu ->] Hui]. unfold effect. cbn [now effect_page].
  rewrite decide_True by congruence.
  apply (serve_sending 0 _ (fresh (client sys)) mu (ui (now (client sys))));
    cbn [client now pending effect_page server];
    [by rewrite insert_empty|unfold settled_page; simpl; congruence|done|].
  unfold at_rest_but_pending, in_sync, getItem. simpl.
  rewrite Hui, Hst. by split_and!.
Qed.

Lemma boot_at_rest storage st :
  storage !! "userToken" = Some (accepted (St:=St)) →
  at_rest (boot API_URL storage st).
Proof.
  intros Htok. unfold boot, machine_mount.
  apply (serve_listing 0 _ 0%nat Effect init_state); try done.
  unfold getItem. simpl. by rewrite Htok.
Qed.

(** *** Sessions are runs of the component *)

Lemma deliver_to_reachable storage id sys sys' :
  machine_reachable API_URL storage (client sys) →
  deliver_to API_URL id sys = Some sys' →
  machine_reachable API_URL storage (client sys').
Proof.
  intros Hm. unfold deliver_to.
  destruct (pending (client sys) !! id) as [ph|]; [|done].
  cbn [mbind option_bind].
  destruct (request_of _ _ _); cbv zeta;
    [|destruct (bodies sys !! id); [|done]; cbn [mbind option_bind]];
    destruct (machine_step _ _ _) as [m|] eqn:Hstep; try done;
    intros [= <-]; by apply (machine_reachable_step _ _ _ _ _ Hm Hstep).
Qed.

Lemma serve_reachable storage n sys :
  machine_reachable API_URL storage (client sys) →
  machine_reachable API_URL storage (client (serve API_URL n sys)).
Proof.
  revert sys. induction n as [|n IH]; intros sys Hm; [done|]. simpl.
  destruct (next_task (client sys)) as [id|]; [|done]. simpl.
  destruct (deliver_to API_URL id sys) as [sys'|] eqn:Hd; [|done].
  eauto using deliver_to_reachable.
Qed.

(** The machine of a session is one the component reaches: what holds
    of every reachable machine, and by [Refine] of every reachable
    configuration of the event loop, holds in every session. *)
Lemma session_reachable storage st us :
  machine_reachable API_URL storage (client (session API_URL storage st us)).
Proof.
  unfold session. induction us as [|u us IH] using rev_ind.
  { apply serve_reachable, machine_reachable_mount. }
  rewrite foldl_snoc. apply serve_reachable.
  by apply (machine_reachable_step _ _ _ (User u) _ IH).
Qed.

(** So is the machine of any run. *)
Lemma moves_reachable storage sys mvs sys' :
  machine_reachable API_URL storage (client sys) →
  moves API_URL sys mvs = Some sys' →
  machine_reachable API_URL storage (client sys').
Proof.
  intros Hm. unfold moves. revert sys'.
  induction mvs as [|mv mvs IH] using rev_ind; intros sys' Hr.
  { by injection Hr as <-. }
  rewrite foldl_snoc in Hr.
  destruct (foldl _ _ mvs) as [sys1|]; [|done]. specialize (IH _ eq_refl).
  destruct mv as [u|id]; simpl in Hr; [|by eapply deliver_to_reachable].
  case_decide; [|done]. injection Hr as <-.
  by apply (machine_reachable_step _ _ _ (User u) _ IH).
Qed.

(** C12: in a sequential session, with a server that answers a list
    request with its list of the page asked for and whose token the store
    holds, the screen is true to the server after every action of the
    user: nothing is pending, the list shown is the server's list of the
    page shown, the spinner is off and there is no error message,
    whatever the user did and whether the server accepted it or not. *)
Theorem session_at_rest storage st us :
  storage !! "userToken" = Some (accepted (St:=St)) →
  at_rest (session API_URL storage st us).
Proof.
  intros Htok. unfold session.
  induction us as [|u us IH] using rev_ind; simpl.
  { by apply boot_at_rest. }
  rewrite foldl_snoc. by apply act_serve.
Qed.

End system_facts.

(** ** The server in memory keeps its promises *)

Section memory_server_facts.
Context (API_URL : jsval) (token : string).

Lemma authorized_list_request s w :
  getItem "userToken" w = JStr token →
  authorized token (list_request API_URL s w) = true.
Proof.
  intros Htok. unfold authorized, list_request, auth_header. simpl.
  rewrite Htok. apply bool_decide_eq_true. set_solver.
Qed.

Lemma route_list_request st s w :
  page_ok s →
  route API_URL st (list_request API_URL s w) = Some (ListPage (page s)).
Proof.
  intros Hok. unfold route. cbn [req_method req_url list_request].
  match goal with
  | |- context [find ?f ?l] => destruct (find f l) as [p|] eqn:Hfind
  end; simpl.
  - apply find_some in Hfind as [_ Hp%bool_decide_eq_true].
    by apply pagination_url_inj in Hp as <-.
  - apply find_none with (x := page s) in Hfind.
    + by apply bool_decide_eq_false in Hfind.
    + apply list_elem_of_In, elem_of_seqZ. unfold page_ok in Hok. lia.
Qed.

#[global] Instance memory_server_laws :
  @RestServerLaws API_URL store (memory_server API_URL token).
Proof.
  split.
  - intros st s w Htok Hok. exists (Response 200). eexists. simpl.
    unfold memory_handle.
    rewrite authorized_list_request, route_list_request by done. done.
  - intros st req st' resp body. simpl. unfold memory_handle.
    repeat case_match; by intros [= <- <- <-].
Qed.

End memory_server_facts.

(** ** Runs with the server in memory *)

Lemma session_at_rest_witness :
  at_rest (example_session [ChangeCustomerName "Ann"; SubmitForm]).
Proof.
  apply (@session_at_rest example_url store example_server
           (memory_server_laws example_url "t0k3n")).
  reflexivity.
Defined.

(** The user enters a customer and submits: the server creates the
    record, and the list that is fetched again shows it. *)
Example create_then_listed :
  customers (ui (now (client (example_session
    [ChangeCustomerName "Ann"; ChangeEmail "ann@x.com";
     ChangePhoneNumber "555"; ChangeCustomerType "GROUP"; SubmitForm]))))
  = [JObj [("id", JNum 1); ("name", JStr "Ann"); ("email", JStr "ann@x.com");
           ("phoneNumber", JStr "555"); ("customerType", JStr "GROUP")]].
Proof. vm_compute. reflexivity. Qed.

(** The user opens the record, corrects the name and submits: the server
    updates the record under its key, and the list shows the new name. *)
Example update_then_listed :
  customers (ui (now (client (example_session
    [ChangeCustomerName "Ann"; ChangeEmail "ann@x.com";
     ChangePhoneNumber "555"; SubmitForm;
     ClickEdit (JObj [("id", JNum 1); ("name", JStr "Ann");
                      ("email", JStr "ann@x.com"); ("phoneNumber", JStr "555");
                      ("customerType", JStr "INDIVIDUAL")]);
     ChangeCustomerName "Anna"; SubmitForm]))))
  = [JObj [("id", JNum 1); ("name", JStr "Anna"); ("email", JStr "ann@x.com");
           ("phoneNumber", JStr "555"); ("customerType", JStr "INDIVIDUAL")]].
Proof. vm_compute. reflexivity. Qed.

(** The user deletes the record: the list is empty again. *)
Example delete_then_gone :
  customers (ui (now (client (example_session
    [ChangeCustomerName "Ann"; SubmitForm; ClickDelete (JNum 1)]))))
  = [].
Proof. vm_compute. reflexivity. Qed.

(** The eleventh customer is created but never seen: the list shows the
    first ten, and no element of the markup leads to the second page. *)
Example eleventh_not_shown :
  (λ sys, (length (records (server sys)),
           length (customers (ui (now (client sys)))),
           page (ui (now (client sys)))))
    (example_session (replicate 11 SubmitForm))
  = (11%nat, 10%nat, 1).
Proof. vm_compute. reflexivity. Qed.

(** When requests overlap the screen does not stay true to the
    server, however well the server behaves.  Ann is on the list.  The
    user submits Bob and, before the answer has come, deletes Ann.  The
    server creates Bob and answers the list request of the submit with
    Ann and Bob; it deletes Ann and answers the list request of the
    delete with Bob.  The body of the second list is read first, the body
    of the first last: nothing is pending, the server holds Bob, and the
    screen shows Ann and Bob.  Every action was offered by the screen. *)
Example overlap_shows_deleted :
  (λ sys, (pending (client sys), records (server sys),
           customers (ui (now (client sys))))) <$>
    moves example_url (example_session [ChangeCustomerName "Ann"; SubmitForm])
      [Does (ChangeCustomerName "Bob"); Does SubmitForm;
       Does (ClickDelete (JNum 1));
       Answers 4; Answers 4; Answers 5; Answers 5; Answers 5; Answers 4]
  = Some (∅, [record_of (JNum 2) ("Bob", "", "", "INDIVIDUAL")],
          [record_of (JNum 1) ("Ann", "", "", "INDIVIDUAL");
           record_of (JNum 2) ("Bob", "", "", "INDIVIDUAL")]).
Proof. vm_compute. reflexivity. Qed.
