(* ===== verification/Complete.v ===== *)
(** * Complete records, end to end

    [Typed] assumes that every list the server sends holds complete
    records.  A server can promise that only if what it is sent is
    complete too, and what it is sent comes from the form.  This file
    closes the circle: a server that keeps complete records as long as the
    bodies it receives read as a form with one of the three customer types
    ([CompleteServer]), and a user who does what the screen offers, keep
    each other well typed in every run of [Server.moves], with requests
    overlapping or not.  So the component never throws while rendering,
    and the server never stores a record the component cannot show.  The
    server in memory of [Server] is such a server. *)

From stdpp Require Import gmap.
From S2P Require Import Prelude JsValue Json Proc Tasks Http Customers.
From S2P Require Import EventLoop Machine View Screen Typed Server.

(** The lists of [l] are complete records. *)
Definition complete_list (l : list jsval) : Prop :=
  Forall (λ c, is_customer c = true) l.

(** A request without a body, or with a body that reads as a form whose
    type is one of the three. *)
Definition complete_request (req : request) : Prop :=
  match req_body req with
  | Some body => ∃ f, read_body body = Some f ∧ f.2 ∈ customer_types
  | None => True
  end.

(** A server that keeps its records complete. *)
Class CompleteServer (St : Type) `{!RestServer St} := {
  complete : St → Prop;
  handle_complete st req :
    complete st → complete_request req → complete (handle st req).1;
  handle_body st req :
    complete st → complete_list (content_of (handle st req).2.2);
}.

Section complete.
Context {St : Type} `{!RestServer St} `{!CompleteServer St}.

(** Server, component and the bodies on their way are well typed. *)
Definition typed_system (sys : system St) : Prop :=
  complete (server sys) ∧ typed_machine (client sys) ∧
  map_Forall (λ _ body, complete_list (content_of body)) (bodies sys).

End complete.

(** The run of [Server.overlap_shows_deleted], from the first render. *)
Definition overlap_moves : list move :=
  [Does (ChangeCustomerName "Ann"); Does SubmitForm;
   Answers 2; Answers 2; Answers 2;
   Does (ChangeCustomerName "Bob"); Does SubmitForm;
   Does (ClickDelete (JNum 1));
   Answers 4; Answers 4; Answers 5; Answers 5; Answers 5; Answers 4].

Definition overlap_run : option (system store) :=
  @moves example_url store example_server
    (@boot example_url store example_server example_storage (Store [] 1))
    overlap_moves.

(** ** Facts *)

Section complete_facts.
Context (API_URL : jsval) {St : Type} `{!RestServer St} `{!CompleteServer St}.
Implicit Types (sys : system St) (st : St) (w : world) (s : state).

(** What a well typed machine sends is complete. *)
Lemma request_of_complete ph w req :
  typed_phase ph → request_of API_URL ph w = Some req → complete_request req.
Proof.
  destruct ph as [[|id] s|who s|who]; simpl; try done; intros Hs [= <-];
    try done.
  destruct (typed_submit API_URL s w Hs) as (n & m & p & t & Hb & _ & Ht).
  unfold complete_request.
  destruct (req_body _) as [body|]; [|done]. by eexists.
Qed.

Lemma deliver_to_typed id sys sys' :
  typed_system sys → deliver_to API_URL id sys = Some sys' → typed_system sys'.
Proof.
  intros (Hst & Hm & Hb). unfold deliver_to.
  destruct (pending (client sys) !! id) as [ph|] eqn:Hid; [|done].
  cbn [mbind option_bind].
  pose proof (proj2 Hm _ _ Hid) as Hph.
  destruct (request_of _ _ _) as [req|] eqn:Hreq; cbv zeta.
  - destruct (machine_step _ _ _) as [m|] eqn:Hstep; [|done].
    intros [= <-]. split_and!; simpl.
    + eauto using handle_complete, request_of_complete.
    + by eapply machine_step_typed_machine in Hstep.
    + apply map_Forall_insert_2; [by apply handle_body|done].
  - destruct (bodies sys !! id) as [body|] eqn:Hbody; [|done].
    cbn [mbind option_bind].
    destruct (machine_step _ _ _) as [m|] eqn:Hstep; [|done].
    intros [= <-]. split_and!; simpl; [done| |by apply map_Forall_delete].
    eapply machine_step_typed_machine in Hstep; [done..|].
    exact (Hb _ _ Hbody).
Qed.

Lemma move_step_typed sys mv sys' :
  typed_system sys → move_step API_URL sys mv = Some sys' → typed_system sys'.
Proof.
  intros Hsys. destruct mv as [u|id]; simpl; [|by apply deliver_to_typed].
  case_decide as Hu; [|done]. intros [= <-].
  destruct Hsys as (Hst & Hm & Hb). split_and!; [done| |done].
  by eapply (machine_step_typed_machine API_URL _ (User u)).
Qed.

Lemma moves_typed sys mvs sys' :
  typed_system sys → moves API_URL sys mvs = Some sys' → typed_system sys'.
Proof.
  intros Hsys. unfold moves. revert sys'.
  induction mvs as [|mv mvs IH] using rev_ind; intros sys' Hr.
  { by injection Hr as <-. }
  rewrite foldl_snoc in Hr.
  destruct (foldl _ _ mvs) as [sys1|]; [|done].
  eauto using move_step_typed.
Qed.

Lemma serve_typed n sys :
  typed_system sys → typed_system (serve API_URL n sys).
Proof.
  revert sys. induction n as [|n IH]; intros sys Hsys; [done|]. simpl.
  destruct (next_task (client sys)) as [id|]; [|done]. simpl.
  destruct (deliver_to API_URL id sys) as [sys'|] eqn:Hd; [|done].
  eauto using deliver_to_typed.
Qed.

Lemma boot_typed storage st :
  complete st → typed_system (boot API_URL storage st).
Proof.
  intros Hst. apply serve_typed. split_and!; simpl;
    [done|apply machine_mount_typed|apply map_Forall_empty].
Qed.

(** C14: end to end.  With a server that keeps its records complete,
    whatever the user does of what the screen offers and in whatever order
    the answers arrive, waiting for them or not, the state of the
    component is well typed, the markup renders, and the records of the
    server stay complete. *)
Theorem run_typed storage st mvs sys :
  complete st →
  moves API_URL (boot API_URL storage st) mvs = Some sys →
  typed_state (ui (now (client sys))) ∧
  is_Some (render (ui (now (client sys)))) ∧ complete (server sys).
Proof.
  intros Hst Hr.
  destruct (moves_typed _ _ _ (boot_typed storage st Hst) Hr)
    as (Hs & [Hm _] & _).
  split_and!; [done|by apply typed_renders|done].
Qed.

End complete_facts.

(** ** The server in memory keeps its records complete *)

Section memory_complete.
Context (API_URL : jsval) (token : string).
Implicit Types (st : store) (req : request).

Lemma record_of_complete id f :
  is_key id = true → f.2 ∈ customer_types →
  is_customer (record_of id f) = true.
Proof.
  intros Hid Ht. destruct f as [[[n m] p] t]. simpl in *.
  change (get_field (record_of id (n, m, p, t)) "id") with id.
  by rewrite Hid, bool_decide_eq_true_2.
Qed.

Lemma page_of_complete l p : complete_list l → complete_list (page_of l p).
Proof. intros Hl. by apply Forall_take, Forall_drop. Qed.

(** The key of an update is the key of a record. *)
Lemma route_update_key st req id :
  complete_list (records st) → route API_URL st req = Some (Update id) →
  is_key id = true.
Proof.
  intros Hl. unfold route.
  destruct (req_method req); try done; [by destruct (find _ _)|
    by case_decide| |by destruct (find _ _)].
  destruct (find _ _) as [id'|] eqn:Hf; [|done]. intros [= <-].
  apply find_some in Hf as [Hin _].
  apply list_elem_of_In, list_elem_of_fmap in Hin as (r & -> & Hr).
  unfold complete_list in Hl. rewrite Forall_forall in Hl.
  by destruct (is_customer_fields r (Hl r Hr)) as (_ & ? & _).
Qed.

Lemma memory_handle_complete st req :
  complete_list (records st) → complete_request req →
  complete_list (records (memory_handle API_URL token st req).1).
Proof.
  intros Hl Hreq. unfold memory_handle. destruct (negb _); [done|].
  destruct (route API_URL st req) as [[p| |id|id]|] eqn:Hroute; simpl;
    try done.
  - unfold complete_request in Hreq.
    destruct (req_body req) as [body|]; [|done]. simpl.
    destruct Hreq as (f & -> & Ht). simpl.
    apply Forall_app. split; [done|]. by repeat constructor;
      apply record_of_complete.
  - unfold complete_request in Hreq.
    destruct (req_body req) as [body|]; [|done]. simpl.
    destruct Hreq as (f & -> & Ht). simpl. apply Forall_fmap.
    eapply Forall_impl; [done|]. intros r Hr. simpl. case_decide; [|done].
    apply record_of_complete; eauto using route_update_key.
  - unfold complete_list in *. rewrite Forall_forall in *.
    intros r [_ Hr]%list_elem_of_filter. auto.
Qed.

Lemma memory_handle_body st req :
  complete_list (records st) →
  complete_list (content_of (memory_handle API_URL token st req).2.2).
Proof.
  intros Hl. unfold memory_handle. destruct (negb _); [by constructor|].
  destruct (route API_URL st req) as [[p| |id|id]|]; simpl;
    try destruct (req_body req ≫= read_body) as [f|]; simpl;
    try (by constructor); by apply page_of_complete.
Qed.

#[global] Instance memory_complete :
  @CompleteServer store (memory_server API_URL token) :=
  @Build_CompleteServer store (memory_server API_URL token)
    (λ st, complete_list (records st))
    memory_handle_complete memory_handle_body.

End memory_complete.

(** ** A run *)

Lemma run_typed_witness :
  ∃ sys, overlap_run = Some sys ∧
    typed_state (ui (now (client sys))) ∧
    is_Some (render (ui (now (client sys)))) ∧
    complete_list (records (server sys)).
Proof.
  destruct overlap_run as [sys|] eqn:Hr.
  - exists sys. split; [done|].
    apply (@run_typed example_url store example_server
             (memory_complete example_url "t0k3n")
             example_storage (Store [] 1) overlap_moves sys); [constructor|].
    exact Hr.
  - exfalso. revert Hr. apply (bool_decide_unpack _). vm_compute. exact I.
Defined.
