(* ===== verification/SalesChart.v ===== *)
(** * The component [SalesChart] (src/src/SalesChart.js)

    The component derives the sequence it plots from its [data] property
    (lines 14-22): every sale record becomes a point whose [name] is the
    label of the record's date and whose [amount] is its [totalAmount], and
    the sequence is reversed.  The component returns a tree of chart
    elements (lines 24-50), modelled as written ([chart_elements]); of the
    plotting library only the reading of the data is modelled: the line
    has one point per record of [data], at the values of the [dataKey]s of
    [XAxis] and [Line] ([series], [plotted]).

    The label comes from the host: [new Date(v).toLocaleDateString(undefined,
    {month: "short", day: "numeric"})] depends on the viewer's locale and
    time zone.  [chartData] takes it as a parameter of the section, so its
    theorems hold for every host.  [en_US_label] is one host, written from
    the language standard: the locale en-US and a time zone [tz] minutes
    east of UTC.  Its parser knows the date-only form [YYYY-MM-DD] (which
    the standard reads as midnight UTC), numbers, booleans and [null]; any
    other string is an invalid date in this model, although engines accept
    more forms. *)

From Stdlib Require Import Ascii.
From S2P Require Import Prelude JsValue.

#[local] Set Warnings "-register-all".

(** ** The derived sequence *)

Section chart.
Context (label : jsval → jsval).

(** Lines 15-21: the arrow function passed to [map].  Reading a property of
    a record that is [null] or [undefined] throws ([None]). *)
Definition chart_point (sale : jsval) : option jsval :=
  date ← get_prop sale "date";
  totalAmount ← get_prop sale "totalAmount";
  Some (JObj [("name", label date); ("amount", totalAmount)]).

(** Lines 14-22.  [data.map] throws when [data] is not an array. *)
Definition chartData (data : jsval) : option (list jsval) :=
  match data with
  | JArr sales => reverse <$> mapM chart_point sales
  | _ => None
  end.

End chart.

(** ** The elements (lines 24-50)

    The component returns a tree of elements: a [div] with a heading and,
    inside a [ResponsiveContainer], a [LineChart] that is given the derived
    sequence as [data] and whose children say what to draw of it. *)

Inductive prop_value : Type :=
| PStr (s : string)
| PNum (n : Z)
| PBool (b : bool)
| PData (points : list jsval)
| PObj (fields : list (string * prop_value)).

Inductive chart_tag : Type :=
| CDiv | CH3
| ResponsiveContainer | LineChart | CartesianGrid | XAxis | YAxis | Tooltip
| Line.

#[global] Instance chart_tag_eq_dec : EqDecision chart_tag.
Proof. solve_decision. Defined.

Inductive element : Type :=
| EText (s : string)
| Elem (t : chart_tag) (props : list (string * prop_value))
       (children : list element).

(** Lines 29-46: the children of the [LineChart]. *)
Definition chart_parts : list element :=
  [Elem CartesianGrid
     [("strokeDasharray", PStr "3 3"); ("vertical", PBool false);
      ("stroke", PStr "#eee")] [];
   Elem XAxis [("dataKey", PStr "name"); ("tick", PObj [("fontSize", PNum 12)])]
        [];
   Elem YAxis [("tick", PObj [("fontSize", PNum 12)])] [];
   Elem Tooltip
     [("contentStyle",
       PObj [("borderRadius", PStr "10px"); ("border", PStr "none");
             ("boxShadow", PStr "0 4px 6px -1px rgb(0 0 0 / 0.1)")])] [];
   Elem Line
     [("type", PStr "monotone"); ("dataKey", PStr "amount");
      ("stroke", PStr "#4f46e5"); ("strokeWidth", PNum 3);
      ("dot", PObj [("r", PNum 4)]); ("activeDot", PObj [("r", PNum 8)])] []].

(** Lines 24-50, for the derived sequence [points]. *)
Definition chart_elements (points : list jsval) : element :=
  Elem CDiv [("className", PStr "w-full h-full")]
    [Elem CH3 [("className", PStr "text-gray-600 font-semibold mb-4")]
          [EText "Sales Performance"];
     Elem ResponsiveContainer [("width", PStr "100%"); ("height", PStr "90%")]
       [Elem LineChart [("data", PData points)] chart_parts]].

(** Lines 12-51: the component.  It throws when the derived sequence
    does. *)
Definition SalesChart (label : jsval → jsval) (data : jsval)
    : option element :=
  chart_elements <$> chartData label data.

(** *** What the library draws of the elements

    A [LineChart] draws one point per item of its [data]: the [XAxis]
    places the item at the value it has under the axis' [dataKey], and a
    [Line] draws the value the item has under the line's [dataKey]. *)

Fixpoint lookup_prop (k : string) (props : list (string * prop_value))
    : option prop_value :=
  match props with
  | [] => None
  | (k', v) :: props' => if decide (k' = k) then Some v else lookup_prop k props'
  end.

Definition props_of (e : element) : list (string * prop_value) :=
  match e with Elem _ props _ => props | EText _ => [] end.

Definition children_of (e : element) : list element :=
  match e with Elem _ _ children => children | EText _ => [] end.

Definition has_tag (t : chart_tag) (e : element) : bool :=
  match e with Elem t' _ _ => bool_decide (t' = t) | EText _ => false end.

(** The first child with tag [t]. *)
Definition part (t : chart_tag) (e : element) : option element :=
  head (filter (λ c, has_tag t c = true) (children_of e)).

Definition dataKey (e : element) : option string :=
  match lookup_prop "dataKey" (props_of e) with
  | Some (PStr k) => Some k
  | _ => None
  end.

(** The points of the line of a [LineChart] element, left to right: for
    each item of the data, its position on the axis and its height. *)
Definition series (chart : element) : option (list (jsval * jsval)) :=
  match lookup_prop "data" (props_of chart) with
  | Some (PData points) =>
      x ← (part XAxis chart ≫= dataKey);
      y ← (part Line chart ≫= dataKey);
      Some ((λ pt, (get_field pt x, get_field pt y)) <$> points)
  | _ => None
  end.

(** The line that the tree of the component draws. *)
Definition plotted (e : element) : option (list (jsval * jsval)) :=
  container ← part ResponsiveContainer e;
  chart ← part LineChart container;
  series chart.

(** ** One host: en-US in a fixed time zone *)

(** Days from 1970-01-01 to the civil date [y]-[m]-[d] of the proleptic
    Gregorian calendar, and back. *)
Definition days_from_civil (y m d : Z) : Z :=
  let y := if m <=? 2 then y - 1 else y in
  let era := y / 400 in
  let yoe := y - era * 400 in
  let doy := (153 * (if m >? 2 then m - 3 else m + 9) + 2) / 5 + d - 1 in
  let doe := yoe * 365 + yoe / 4 - yoe / 100 + doy in
  era * 146097 + doe - 719468.

Definition civil_from_days (z : Z) : Z * Z * Z :=
  let z := z + 719468 in
  let era := z / 146097 in
  let doe := z - era * 146097 in
  let yoe := (doe - doe / 1460 + doe / 36524 - doe / 146096) / 365 in
  let doy := doe - (365 * yoe + yoe / 4 - yoe / 100) in
  let mp := (5 * doy + 2) / 153 in
  let d := doy - (153 * mp + 2) / 5 + 1 in
  let m := if mp <? 10 then mp + 3 else mp - 9 in
  (if m <=? 2 then yoe + era * 400 + 1 else yoe + era * 400, m, d).

Definition leap_year (y : Z) : bool :=
  (y mod 4 =? 0) && (negb (y mod 100 =? 0) || (y mod 400 =? 0)).

Definition days_in_month (y m : Z) : Z :=
  if m =? 2 then (if leap_year y then 29 else 28)
  else if (m =? 4) || (m =? 6) || (m =? 9) || (m =? 11) then 30
  else 31.

Definition digit (c : ascii) : option Z :=
  let n := Z.of_N (N_of_ascii c) in
  if 48 ≤? n ≤? 57 then Some (n - 48) else None.

Fixpoint digits_from (acc : Z) (cs : list ascii) : option Z :=
  match cs with
  | [] => Some acc
  | c :: cs' => n ← digit c; digits_from (10 * acc + n) cs'
  end.

Definition digits : list ascii → option Z := digits_from 0.

Definition ms_per_day : Z := 86400000.

(** The date-only form [YYYY-MM-DD]: midnight UTC of a day that exists. *)
Definition parse_date_only (s : string) : option Z :=
  match String.list_ascii_of_string s with
  | [y1; y2; y3; y4; h1; m1; m2; h2; d1; d2] =>
      if decide (h1 = "-"%char ∧ h2 = "-"%char) then
        y ← digits [y1; y2; y3; y4];
        m ← digits [m1; m2];
        d ← digits [d1; d2];
        if (1 ≤? m ≤? 12) && (1 ≤? d ≤? days_in_month y m)
        then Some (days_from_civil y m d * ms_per_day) else None
      else None
  | _ => None
  end.

(** The text of a date in the date-only form, for years 0 to 9999. *)
Definition digit_char (k : Z) : ascii := ascii_of_N (Z.to_N (48 + k)).

Definition two_digits (n : Z) : list ascii :=
  [digit_char (n / 10); digit_char (n mod 10)].

Definition iso_date (y m d : Z) : string :=
  String.string_of_list_ascii
    (two_digits (y / 100) ++ two_digits (y mod 100) ++ ["-"%char] ++
     two_digits m ++ ["-"%char] ++ two_digits d).

(** [new Date(v)]: the time value in milliseconds, [None] for an invalid
    date. *)
Definition new_Date (v : jsval) : option Z :=
  match v with
  | JNum n => Some n
  | JNull => Some 0
  | JBool b => Some (if b then 1 else 0)
  | JStr s => parse_date_only s
  | JUndefined | JArr _ | JObj _ => None
  end.

Definition month_short (m : Z) : string :=
  match m with
  | 1 => "Jan" | 2 => "Feb" | 3 => "Mar" | 4 => "Apr" | 5 => "May"
  | 6 => "Jun" | 7 => "Jul" | 8 => "Aug" | 9 => "Sep" | 10 => "Oct"
  | 11 => "Nov" | _ => "Dec"
  end.

(** The local day on which the instant [ms] falls, [tz] minutes east of
    UTC. *)
Definition local_day (tz ms : Z) : Z := (ms + tz * 60000) / ms_per_day.

(** [toLocaleDateString("en-US", {month: "short", day: "numeric"})]. *)
Definition toLocaleDateString (tz : Z) (t : option Z) : string :=
  match t with
  | Some ms =>
      let '(_, m, d) := civil_from_days (local_day tz ms) in
      month_short m +:+ " " +:+ show_Z d
  | None => "Invalid Date"
  end.

Definition en_US_label (tz : Z) (v : jsval) : jsval :=
  JStr (toLocaleDateString tz (new_Date v)).

(** A sale record dated [y]-[m]-[d] in the date-only form. *)
Definition sale_on (y m d : Z) (amount : jsval) : jsval :=
  JObj [("date", JStr (iso_date y m d)); ("totalAmount", amount)].

(** A day of the calendar with an amount, the sale record that carries
    it in the date-only form, and the point the specification expects for
    it. *)
Record dated : Type := Dated {
  d_year : Z;
  d_month : Z;
  d_day : Z;
  d_amount : jsval;
}.

Definition valid_date (x : dated) : Prop :=
  0 ≤ d_year x ≤ 9999 ∧ 1 ≤ d_month x ≤ 12 ∧
  1 ≤ d_day x ≤ days_in_month (d_year x) (d_month x).

#[global] Instance valid_date_dec x : Decision (valid_date x).
Proof. unfold valid_date. apply _. Defined.

Definition sale_of (x : dated) : jsval :=
  sale_on (d_year x) (d_month x) (d_day x) (d_amount x).

Definition point_of (x : dated) : jsval :=
  JObj [("name", JStr (month_short (d_month x) +:+ " " +:+ show_Z (d_day x)));
        ("amount", d_amount x)].

(** The sale records of the specification's example. *)
Definition example_records : list jsval :=
  [JObj [("date", JStr "2024-03-05"); ("totalAmount", JNum 100)];
   JObj [("date", JStr "2024-03-01"); ("totalAmount", JNum 50)]].

Definition example_sales : jsval := JArr example_records.

(** The points the specification expects for them. *)
Definition example_points : list jsval :=
  [JObj [("name", JStr "Mar 1"); ("amount", JNum 50)];
   JObj [("name", JStr "Mar 5"); ("amount", JNum 100)]].

(** ** The derived sequence, for every host *)

Section chart_facts.
Context (label : jsval → jsval).
Implicit Types (sales points : list jsval) (sale : jsval).

Lemma chart_point_is_Some sale :
  is_Some (chart_point label sale) ↔ nullish sale = false.
Proof.
  unfold chart_point. destruct sale; simpl; split; intros H;
    try by (done || eauto); by destruct H.
Qed.

Lemma chart_point_spec sale :
  nullish sale = false →
  chart_point label sale
  = Some (JObj [("name", label (get_field sale "date"));
                 ("amount", get_field sale "totalAmount")]).
Proof. by destruct sale. Qed.

(** C24: the chart has one point for every sale record, in the opposite
    order: the point at position [i] is made from the record at position
    [i] from the end, with the label of its date as [name] and its
    [totalAmount] as [amount]. *)
Theorem chartData_lookup sales points i sale :
  chartData label (JArr sales) = Some points →
  sales !! i = Some sale →
  length points = length sales ∧
  points !! (length sales - S i)%nat
  = Some (JObj [("name", label (get_field sale "date"));
                 ("amount", get_field sale "totalAmount")]).
Proof.
  simpl. intros Hpts Hi.
  destruct (mapM _ sales) as [l|] eqn:Hl; simplify_eq/=.
  apply mapM_Some in Hl. pose proof (Forall2_length _ _ _ Hl) as Hlen.
  destruct (Forall2_lookup_l _ _ _ _ _ Hl Hi) as (pt & Hpt & Hsale).
  rewrite length_reverse. split; [done|].
  rewrite reverse_lookup by (apply lookup_lt_Some in Hi; lia).
  apply lookup_lt_Some in Hi as Hlt.
  replace (length l - S (length sales - S i))%nat with i by lia.
  rewrite Hpt. f_equal. rewrite chart_point_spec in Hsale; [congruence|].
  by apply chart_point_is_Some.
Qed.

(** When the derived sequence is defined. *)
Lemma chartData_defined data :
  is_Some (chartData label data)
  ↔ ∃ sales, data = JArr sales ∧ Forall (λ sale, nullish sale = false) sales.
Proof.
  destruct data as [| | | | |sales|]; simpl;
    try (split; [by intros []|by intros (? & ? & _)]).
  rewrite fmap_is_Some, mapM_is_Some.
  split; [intros H; exists sales; split; [done|]|intros (? & [= <-] & H)].
  all: eapply Forall_impl; [exact H|]; intros sale; apply chart_point_is_Some.
Qed.

(** C27: the chart is drawn exactly when [data] is an array none of whose
    items is [null] or [undefined]; otherwise rendering throws. *)
Theorem chartData_is_Some data :
  is_Some (chartData label data)
  ↔ ∃ sales, data = JArr sales ∧ Forall (λ sale, nullish sale = false) sales.
Proof. apply chartData_defined. Qed.

(** The line reads the keys [name] and [amount] of the sequence it is
    given. *)
Lemma plotted_chart_elements points :
  plotted (chart_elements points)
  = Some ((λ pt, (get_field pt "name", get_field pt "amount")) <$> points).
Proof. reflexivity. Qed.

(** C25: the component draws one point per sale record, from the last
    record to the first: each at the label of the record's date, as high
    as the record's [totalAmount].  The keys that the axis and the line
    read are the keys that the derived sequence has. *)
Theorem SalesChart_plotted sales :
  Forall (λ sale, nullish sale = false) sales →
  SalesChart label (JArr sales) ≫= plotted
  = Some (reverse ((λ sale, (label (get_field sale "date"),
                             get_field sale "totalAmount")) <$> sales)).
Proof.
  intros Hsales. unfold SalesChart. simpl.
  assert (mapM (chart_point label) sales
          = Some ((λ sale, JObj [("name", label (get_field sale "date"));
                                 ("amount", get_field sale "totalAmount")])
                  <$> sales)) as ->.
  { apply mapM_Some, Forall2_fmap_r, Forall_Forall2_diag.
    eapply Forall_impl; [done|]. apply chart_point_spec. }
  simpl. rewrite plotted_chart_elements.
  by rewrite <- !fmap_reverse, <- list_fmap_compose.
Qed.

(** The component throws exactly when the derived sequence does: when
    [data] is not an array or holds [null] or [undefined]. *)
Lemma SalesChart_is_Some data :
  is_Some (SalesChart label data)
  ↔ ∃ sales, data = JArr sales ∧ Forall (λ sale, nullish sale = false) sales.
Proof. unfold SalesChart. by rewrite fmap_is_Some, chartData_defined. Qed.

(** Reversing the records reverses the chart. *)
Lemma chartData_reverse sales points :
  chartData label (JArr sales) = Some points →
  chartData label (JArr (reverse sales)) = Some (reverse points).
Proof.
  simpl. destruct (mapM _ sales) as [l|] eqn:Hl; intros; simplify_eq/=.
  apply mapM_Some in Hl. apply Forall2_reverse in Hl.
  apply mapM_Some in Hl. by rewrite Hl.
Qed.

End chart_facts.

(** ** The host en-US *)

(** The local day is the UTC day for viewers from UTC to less than a day
    east of it. *)
Lemma local_day_east tz n :
  0 ≤ tz < 1440 → local_day tz (n * ms_per_day) = n.
Proof.
  unfold local_day, ms_per_day. intros Htz.
  rewrite Z.add_comm, Z.div_add by done. rewrite Z.div_small; lia.
Qed.

(** It is the day before for viewers west of UTC. *)
Lemma local_day_west tz n :
  -1440 ≤ tz < 0 → local_day tz (n * ms_per_day) = n - 1.
Proof.
  unfold local_day, ms_per_day. intros Htz.
  replace (n * 86400000 + tz * 60000)
    with ((tz + 1440) * 60000 + (n - 1) * 86400000) by lia.
  rewrite Z.div_add by done. rewrite Z.div_small; lia.
Qed.

(** *** The calendar

    [civil_from_days] inverts [days_from_civil] on the dates that exist.
    The year of the era and the day of the year (both counted from
    1 March) are recovered first, then month and day. *)

Lemma year_of_era yoe doy :
  0 ≤ yoe < 400 → 0 ≤ doy ≤ 365 →
  (doy = 365 → yoe mod 4 = 3 ∧ (yoe mod 100 ≠ 99 ∨ yoe = 399)) →
  let doe := yoe * 365 + yoe / 4 - yoe / 100 + doy in
  0 ≤ doe < 146097 ∧
  (doe - doe / 1460 + doe / 36524 - doe / 146096) / 365 = yoe.
Proof. intros Hy Hd Hleap doe. subst doe. Z.div_mod_to_equations. lia. Qed.

Lemma month_of_year mp d :
  0 ≤ mp ≤ 11 →
  1 ≤ d ≤ (if mp =? 11 then 29
           else if (mp =? 1) || (mp =? 3) || (mp =? 6) || (mp =? 8) then 30
           else 31) →
  let doy := (153 * mp + 2) / 5 + d - 1 in
  0 ≤ doy ≤ 365 ∧ (doy = 365 → mp = 11 ∧ d = 29) ∧
  (5 * doy + 2) / 153 = mp ∧ doy - (153 * mp + 2) / 5 + 1 = d.
Proof.
  intros Hmp Hd doy. subst doy.
  assert (mp = 0 ∨ mp = 1 ∨ mp = 2 ∨ mp = 3 ∨ mp = 4 ∨ mp = 5 ∨ mp = 6 ∨
          mp = 7 ∨ mp = 8 ∨ mp = 9 ∨ mp = 10 ∨ mp = 11) by lia.
  destruct_or!; subst mp; cbn [Z.eqb Pos.eqb orb] in Hd;
    Z.div_mod_to_equations; lia.
Qed.

Lemma civil_from_days_from_civil y m d :
  1 ≤ m ≤ 12 → 1 ≤ d ≤ days_in_month y m →
  civil_from_days (days_from_civil y m d) = (y, m, d).
Proof.
  intros Hm Hd. unfold days_from_civil, civil_from_days.
  set (y' := if m <=? 2 then y - 1 else y).
  set (mp := if m >? 2 then m - 3 else m + 9).
  set (yoe := y' - y' / 400 * 400).
  assert (0 ≤ yoe < 400) as Hyoe by (subst yoe; Z.div_mod_to_equations; lia).
  assert (0 ≤ mp ≤ 11 ∧ m = (if mp <? 10 then mp + 3 else mp - 9)) as [Hmp Hm'].
  { subst mp. rewrite Z.gtb_ltb. repeat case_test; lia. }
  destruct (month_of_year mp d Hmp) as (Hdoy & H365 & Hmp' & Hd').
  { revert Hd. subst mp. unfold days_in_month. rewrite Z.gtb_ltb.
    repeat case_test; simpl; try lia. }
  set (doy := (153 * mp + 2) / 5 + d - 1) in *.
  destruct (year_of_era yoe doy Hyoe Hdoy) as [Hdoe Hyoe'].
  { intros [E ->]%H365. revert Hd E. subst mp yoe y'.
    unfold days_in_month, leap_year. rewrite Z.gtb_ltb.
    repeat case_test; simpl; try lia.
    all: intros _ _; Z.div_mod_to_equations; lia. }
  set (doe := yoe * 365 + yoe / 4 - yoe / 100 + doy) in *.
  replace (y' / 400 * 146097 + doe - 719468 + 719468)
    with (doe + y' / 400 * 146097) by lia.
  rewrite Z.div_add, (Z.div_small doe), Z.add_0_l by lia.
  replace (doe + y' / 400 * 146097 - y' / 400 * 146097) with doe by lia.
  rewrite Hyoe'.
  replace (doe - (365 * yoe + yoe / 4 - yoe / 100)) with doy by (subst doe; lia).
  rewrite Hmp', Hd', <- Hm'. do 2 f_equal.
  subst yoe y'. repeat case_test; lia.
Qed.

(** *** Parsing the date-only form *)

Lemma digit_digit_char k : 0 ≤ k ≤ 9 → digit (digit_char k) = Some k.
Proof.
  intros Hk.
  assert (k = 0 ∨ k = 1 ∨ k = 2 ∨ k = 3 ∨ k = 4 ∨ k = 5 ∨ k = 6 ∨ k = 7 ∨
          k = 8 ∨ k = 9) by lia.
  by destruct_or!; subst k.
Qed.

Lemma digits_from_two_digits acc n cs :
  0 ≤ n < 100 →
  digits_from acc (two_digits n ++ cs) = digits_from (100 * acc + n) cs.
Proof.
  intros Hn. unfold two_digits. simpl.
  rewrite !digit_digit_char by (Z.div_mod_to_equations; lia). simpl.
  f_equal. Z.div_mod_to_equations. lia.
Qed.

Lemma digits_two_digits n : 0 ≤ n < 100 → digits (two_digits n) = Some n.
Proof.
  intros Hn. unfold digits.
  rewrite <- (app_nil_r (two_digits n)), digits_from_two_digits by done.
  simpl. f_equal; lia.
Qed.

Lemma digits_four_digits y :
  0 ≤ y ≤ 9999 →
  digits (two_digits (y / 100) ++ two_digits (y mod 100)) = Some y.
Proof.
  intros Hy. unfold digits.
  rewrite digits_from_two_digits by (Z.div_mod_to_equations; lia).
  rewrite <- (app_nil_r (two_digits _)), digits_from_two_digits
    by (Z.div_mod_to_equations; lia).
  simpl. f_equal; Z.div_mod_to_equations; lia.
Qed.

Lemma parse_date_only_iso_date y m d :
  0 ≤ y ≤ 9999 → 1 ≤ m ≤ 12 → 1 ≤ d ≤ days_in_month y m →
  parse_date_only (iso_date y m d) = Some (days_from_civil y m d * ms_per_day).
Proof.
  intros Hy Hm Hd. unfold parse_date_only, iso_date.
  rewrite String.list_ascii_of_string_of_list_ascii.
  assert (d ≤ 31) by (revert Hd; unfold days_in_month; repeat case_test; lia).
  pose proof (digits_four_digits y Hy) as Hy'.
  pose proof (digits_two_digits m) as Hm'.
  pose proof (digits_two_digits d) as Hd'.
  unfold two_digits in *. simpl in *.
  rewrite Hy', Hm', Hd' by lia. simpl. unfold between.
  by rewrite !(proj2 (Z.leb_le _ _)) by lia.
Qed.

(** On an en-US host from UTC to less than a day east of it, the label of
    a date given in the date-only form is the short name of its month and
    its day; on a host up to a day west of UTC it is the day before. *)
Lemma en_US_label_iso_date tz y m d :
  0 ≤ y ≤ 9999 → 1 ≤ m ≤ 12 → 1 ≤ d ≤ days_in_month y m →
  (0 ≤ tz < 1440 →
   en_US_label tz (JStr (iso_date y m d))
   = JStr (month_short m +:+ " " +:+ show_Z d)) ∧
  (-1440 ≤ tz < 0 → 2 ≤ d →
   en_US_label tz (JStr (iso_date y m d))
   = JStr (month_short m +:+ " " +:+ show_Z (d - 1))).
Proof.
  intros Hy Hm Hd. unfold en_US_label, new_Date.
  rewrite parse_date_only_iso_date by done. unfold toLocaleDateString.
  split; intros Htz.
  - by rewrite local_day_east, civil_from_days_from_civil.
  - intros Hd2. rewrite local_day_west by done.
    replace (days_from_civil y m d - 1) with (days_from_civil y m (d - 1))
      by (unfold days_from_civil; lia).
    by rewrite civil_from_days_from_civil by lia.
Qed.

(** C26: the point of a sale record dated in the date-only form carries
    the record's amount and, on an en-US host, the short name of the month
    and the day of the date when the viewer is at UTC or less than a day
    east of it, and the day before when the viewer is west of UTC. *)
Theorem chart_point_iso_date tz y m d amount :
  0 ≤ y ≤ 9999 → 1 ≤ m ≤ 12 → 1 ≤ d ≤ days_in_month y m →
  (0 ≤ tz < 1440 →
   chart_point (en_US_label tz) (sale_on y m d amount)
   = Some (JObj [("name", JStr (month_short m +:+ " " +:+ show_Z d));
                  ("amount", amount)])) ∧
  (-1440 ≤ tz < 0 → 2 ≤ d →
   chart_point (en_US_label tz) (sale_on y m d amount)
   = Some (JObj [("name", JStr (month_short m +:+ " " +:+ show_Z (d - 1)));
                  ("amount", amount)])).
Proof.
  intros Hy Hm Hd.
  destruct (en_US_label_iso_date tz y m d Hy Hm Hd) as [Heast Hwest].
  unfold chart_point, sale_on. simpl.
  split; intros; [rewrite Heast|rewrite Hwest]; done.
Qed.

(** C28: for a viewer with locale en-US at UTC or less than a day east of
    it, the chart of sale records dated in the date-only form has one
    point per record, from the last record to the first, each named by the
    short month and the day of its date and carrying its amount.  The
    example of the specification is the instance of the witness. *)
Theorem chartData_iso_dates tz (l : list dated) :
  0 ≤ tz < 1440 → Forall valid_date l →
  chartData (en_US_label tz) (JArr (sale_of <$> l))
  = Some (reverse (point_of <$> l)).
Proof.
  intros Htz Hl. simpl. apply fmap_Some. eexists. split; [|done].
  apply mapM_Some, Forall2_fmap, Forall_Forall2_diag.
  eapply Forall_impl; [done|]. intros [y m d a] (Hy & Hm & Hd).
  unfold sale_of, point_of, chart_point, sale_on. simpl in *.
  by rewrite (proj1 (en_US_label_iso_date tz y m d Hy Hm Hd) Htz).
Qed.

(** For a viewer five hours west of UTC the same records are labelled
    with the days before, [Feb 29] and [Mar 4]: a date-only string is
    midnight UTC, and the label is formatted in local time. *)
Example chartData_example_west :
  chartData (en_US_label (-300)) example_sales
  = Some [JObj [("name", JStr "Feb 29"); ("amount", JNum 50)];
          JObj [("name", JStr "Mar 4"); ("amount", JNum 100)]].
Proof. vm_compute. reflexivity. Qed.

(** ** Witnesses *)

Lemma chart_point_iso_date_witness :
  (0 ≤ -300 < 1440 →
   chart_point (en_US_label (-300)) (sale_on 2024 3 5 (JNum 100))
   = Some (JObj [("name", JStr (month_short 3 +:+ " " +:+ show_Z 5));
                  ("amount", JNum 100)])) ∧
  (-1440 ≤ -300 < 0 → 2 ≤ 5 →
   chart_point (en_US_label (-300)) (sale_on 2024 3 5 (JNum 100))
   = Some (JObj [("name", JStr (month_short 3 +:+ " " +:+ show_Z (5 - 1)));
                  ("amount", JNum 100)])).
Proof.
  apply (chart_point_iso_date (-300) 2024 3 5 (JNum 100)); [lia..|].
  vm_compute. by split.
Defined.

Lemma chartData_lookup_witness :
  length example_points = length example_records ∧
  example_points !! (length example_records - 2)%nat
  = Some (JObj [("name", en_US_label 0 (JStr "2024-03-01"));
                 ("amount", JNum 50)]).
Proof.
  apply (chartData_lookup (en_US_label 0) example_records example_points 1%nat
           (JObj [("date", JStr "2024-03-01"); ("totalAmount", JNum 50)])).
  - vm_compute. reflexivity.
  - reflexivity.
Defined.

Lemma SalesChart_plotted_witness :
  SalesChart (en_US_label 0) (JArr example_records) ≫= plotted
  = Some (reverse ((λ sale, (en_US_label 0 (get_field sale "date"),
                             get_field sale "totalAmount"))
                   <$> example_records)).
Proof.
  apply (SalesChart_plotted (en_US_label 0) example_records).
  repeat constructor.
Defined.

(** For the specification's example the line goes from (Mar 1, 50) to
    (Mar 5, 100). *)
Example SalesChart_example :
  SalesChart (en_US_label 0) example_sales ≫= plotted
  = Some [(JStr "Mar 1", JNum 50); (JStr "Mar 5", JNum 100)].
Proof. vm_compute. reflexivity. Qed.

Lemma chartData_iso_dates_witness :
  chartData (en_US_label 0) example_sales = Some example_points.
Proof.
  apply (chartData_iso_dates 0
           [Dated 2024 3 5 (JNum 100); Dated 2024 3 1 (JNum 50)]); [lia|].
  apply (bool_decide_unpack _). vm_compute. exact I.
Defined.
